(** * bencode_parser: a shallow embedding of [bencode.py]

    The module [bencode.py] is a codec for the bencode format: [encode]
    dispatches on the run-time type of a Python object and produces
    [bytes]; [decode] is a recursive-descent parser driven by an integer
    cursor into a [bytes] buffer.

    The embedding keeps the program as it is written:
    - Python objects are an inductive type [value]; a [dict] is an
      association list in insertion order;
    - exceptions are values of [exn], a computation that may raise has
      type [res A];
    - the decoder's cursor is a [Z] (the program lets it go negative, and
      Python slices and [bytes.index] then count from the end);
    - the decoder's recursion and [while] loops are driven by a fuel
      argument, [None] meaning that the fuel ran out.

    Built-ins the program calls ([str(int)], [int(bytes)], slicing,
    [bytes.index], [bytes.isdigit], [sorted], the UTF-8 codec) are
    modelled after CPython 3.  Two limits of the interpreter are left out
    of the model: the recursion limit and the optional limit on the number
    of digits in int/str conversions. *)

From Stdlib Require Import ZArith Lia Bool String Ascii Strings.Byte List.
From Stdlib Require Import Permutation Sorted.
From Stdlib Require Import DecimalString DecimalZ DecimalN DecimalPos DecimalFacts.
Import ListNotations.
Local Open Scope Z_scope.
Local Open Scope list_scope.

(** ** Bytes *)

Definition bytes := list byte.

(** The integer value of a byte, and the byte of an integer in [0, 256). *)
Definition ord (b : byte) : Z := Z.of_N (Byte.to_N b).

Definition octet (z : Z) : byte :=
  match Byte.of_N (Z.to_N z) with
  | Some b => b
  | None => x00
  end.

(** A bytes literal written as a string. *)
Definition B (s : string) : bytes := list_byte_of_string s.

Definition len {A} (l : list A) : Z := Z.of_nat (List.length l).

Fixpoint bytes_eqb (a b : bytes) : bool :=
  match a, b with
  | [], [] => true
  | x :: a', y :: b' => Byte.eqb x y && bytes_eqb a' b'
  | _, _ => false
  end.

(** [a < b] on [bytes]: lexicographic on unsigned byte values, a proper
    prefix being smaller. *)
Fixpoint bytes_ltb (a b : bytes) : bool :=
  match a, b with
  | _, [] => false
  | [], _ :: _ => true
  | x :: a', y :: b' =>
      if ord x <? ord y then true
      else if ord y <? ord x then false
      else bytes_ltb a' b'
  end.

(** ** Exceptions and results *)

Inductive exn : Type :=
| BencodeDecodeError
| BencodeEncodeError
| ValueError
| TypeError
| UnicodeEncodeError.

Inductive res (A : Type) : Type :=
| Ok (a : A)
| Raise (e : exn).
Arguments Ok {A} a.
Arguments Raise {A} e.

Definition bind {A C} (m : res A) (k : A -> res C) : res C :=
  match m with
  | Ok a => k a
  | Raise e => Raise e
  end.

Notation "x <- m ;; k" := (bind m (fun x => k))
  (at level 61, m at next level, right associativity).
Notation "' p <- m ;; k" := (bind m (fun p => k))
  (at level 61, p pattern, m at next level, right associativity).

(** ** Python values

    [str] is a sequence of code points.  [VNone] stands for an object of a
    type the encoder does not know. *)

#[local] Set Warnings "-register-all".

Inductive value : Type :=
| VNone
| VBool (b : bool)
| VInt (z : Z)
| VBytes (b : bytes)
| VStr (s : list Z)
| VList (l : list value)
| VDict (d : list (value * value)).

(** ** Constants of the module

    [ENCODING] is ["utf-8"]: [str_encode] and [bytes_decode] below are
    the UTF-8 codec.  [TypeEncodable] is the union of [str], [int],
    [list], [dict] and [bytes]: the constructors of [value] but
    [VNone]. *)

Definition INTEGER : bytes := B "i".
Definition LIST : bytes := B "l".
Definition DICT : bytes := B "d".
Definition END : bytes := B "e".
Definition COLON : bytes := B ":".

(** ** Built-ins: slicing, [bytes.index], [bytes.isdigit] *)

(** [data[lo:hi]]: a negative index counts from the end, both are then
    clipped to [0, len data]. *)
Definition clip (n i : Z) : Z :=
  if i <? 0 then Z.max 0 (i + n) else Z.min i n.

Definition py_slice (data : bytes) (lo hi : Z) : bytes :=
  let n := len data in
  let lo' := clip n lo in
  let hi' := clip n hi in
  firstn (Z.to_nat (hi' - lo')) (skipn (Z.to_nat lo') data).

Fixpoint starts_with (sub data : bytes) : bool :=
  match sub, data with
  | [], _ => true
  | _ :: _, [] => false
  | x :: sub', y :: data' => Byte.eqb x y && starts_with sub' data'
  end.

Fixpoint find_sub (sub data : bytes) (pos : Z) : option Z :=
  if starts_with sub data then Some pos
  else match data with
       | [] => None
       | _ :: data' => find_sub sub data' (pos + 1)
       end.

(** [data.index(sub, start)]: the lowest index at or after [start] where
    [sub] occurs, [ValueError] when there is none.  A negative [start]
    counts from the end. *)
Definition py_index (data sub : bytes) (start : Z) : res Z :=
  let n := len data in
  let s := if start <? 0 then Z.max 0 (start + n) else start in
  if n <? s then Raise ValueError
  else match find_sub sub (skipn (Z.to_nat s) data) s with
       | Some j => Ok j
       | None => Raise ValueError
       end.

Definition is_digit (b : byte) : bool := (48 <=? ord b) && (ord b <=? 57).

(** [b.isdigit()]: at least one byte, all of them ASCII digits. *)
Definition isdigit (b : bytes) : bool :=
  match b with
  | [] => false
  | _ => forallb is_digit b
  end.

(** ** Built-ins: [str(int)] and [int(bytes)] *)

(** The code points of the decimal digits of [d]. *)
Fixpoint uint_digits (d : Decimal.uint) : list Z :=
  match d with
  | Decimal.Nil => []
  | Decimal.D0 d' => 48 :: uint_digits d'
  | Decimal.D1 d' => 49 :: uint_digits d'
  | Decimal.D2 d' => 50 :: uint_digits d'
  | Decimal.D3 d' => 51 :: uint_digits d'
  | Decimal.D4 d' => 52 :: uint_digits d'
  | Decimal.D5 d' => 53 :: uint_digits d'
  | Decimal.D6 d' => 54 :: uint_digits d'
  | Decimal.D7 d' => 55 :: uint_digits d'
  | Decimal.D8 d' => 56 :: uint_digits d'
  | Decimal.D9 d' => 57 :: uint_digits d'
  end.

(** [str(z)]: the decimal digits of [z], most significant first, after a
    ['-'] when [z] is negative. *)
Definition py_str (z : Z) : list Z :=
  match Z.to_int z with
  | Decimal.Pos d => uint_digits d
  | Decimal.Neg d => 45 :: uint_digits d
  end.

(** The white space [int] skips: space, and tab to carriage return. *)
Definition is_space (b : byte) : bool :=
  (ord b =? 32) || ((9 <=? ord b) && (ord b <=? 13)).

Fixpoint lstrip (bs : bytes) : bytes :=
  match bs with
  | b :: r => if is_space b then lstrip r else bs
  | [] => []
  end.

Definition digit_val (b : byte) : Z := ord b - 48.

(** The digits after the first one: a digit, or one underscore followed by
    a digit.  Returns the number read and what is left. *)
Fixpoint int_digits (acc : Z) (bs : bytes) : option (Z * bytes) :=
  match bs with
  | [] => Some (acc, [])
  | b :: r =>
      if is_digit b then int_digits (10 * acc + digit_val b) r
      else if Byte.eqb b "_" then
        match r with
        | d :: r' =>
            if is_digit d then int_digits (10 * acc + digit_val d) r'
            else None
        | [] => None
        end
      else Some (acc, bs)
  end.

(** [int(bs)] in base 10: white space, an optional sign, digits (single
    underscores allowed between digits), white space; [ValueError] for
    anything else. *)
Definition py_int (bs : bytes) : res Z :=
  let s := lstrip bs in
  let '(neg, s) :=
    match s with
    | b :: r =>
        if Byte.eqb b "+" then (false, r)
        else if Byte.eqb b "-" then (true, r)
        else (false, s)
    | [] => (false, [])
    end in
  match s with
  | d :: r =>
      if is_digit d then
        match int_digits (digit_val d) r with
        | Some (n, rest) =>
            if forallb is_space rest then Ok (if neg then - n else n)
            else Raise ValueError
        | None => Raise ValueError
        end
      else Raise ValueError
  | [] => Raise ValueError
  end.

(** ** Built-ins: the UTF-8 codec *)

Definition is_surrogate (c : Z) : bool := (0xD800 <=? c) && (c <=? 0xDFFF).

(** The UTF-8 bytes of one code point; [None] for a surrogate, which the
    strict encoder refuses. *)
Definition utf8_cp (c : Z) : option bytes :=
  if c <? 0x80 then Some [octet c]
  else if c <? 0x800 then
    Some [octet (0xC0 + c / 64); octet (0x80 + c mod 64)]
  else if c <? 0x10000 then
    if is_surrogate c then None
    else Some [octet (0xE0 + c / 4096); octet (0x80 + (c / 64) mod 64);
               octet (0x80 + c mod 64)]
  else
    Some [octet (0xF0 + c / 262144); octet (0x80 + (c / 4096) mod 64);
          octet (0x80 + (c / 64) mod 64); octet (0x80 + c mod 64)].

(** [s.encode("utf-8")] (errors="strict"). *)
Fixpoint str_encode (s : list Z) : res bytes :=
  match s with
  | [] => Ok []
  | c :: s' =>
      match utf8_cp c with
      | Some e => r <- str_encode s';; Ok (e ++ r)
      | None => Raise UnicodeEncodeError
      end
  end.

(** The payload of a continuation byte (10xxxxxx). *)
Definition cont (b : byte) : option Z :=
  if (0x80 <=? ord b) && (ord b <? 0xC0) then Some (ord b - 0x80) else None.

Definition cons_cp (c : Z) (r : option (list Z)) : option (list Z) :=
  match r with
  | Some s => Some (c :: s)
  | None => None
  end.

(** [bs.decode("utf-8")] (errors="strict"): [None] stands for
    [UnicodeDecodeError].  Overlong forms, surrogates and code points past
    U+10FFFF are refused. *)
Fixpoint bytes_decode (bs : bytes) : option (list Z) :=
  match bs with
  | [] => Some []
  | b0 :: r0 =>
      let x0 := ord b0 in
      if x0 <? 0x80 then cons_cp x0 (bytes_decode r0)
      else if x0 <? 0xC0 then None
      else if x0 <? 0xE0 then
        match r0 with
        | b1 :: r1 =>
            match cont b1 with
            | Some x1 =>
                let c := (x0 - 0xC0) * 64 + x1 in
                if 0x80 <=? c then cons_cp c (bytes_decode r1) else None
            | None => None
            end
        | _ => None
        end
      else if x0 <? 0xF0 then
        match r0 with
        | b1 :: b2 :: r2 =>
            match cont b1, cont b2 with
            | Some x1, Some x2 =>
                let c := (x0 - 0xE0) * 4096 + x1 * 64 + x2 in
                if (0x800 <=? c) && negb (is_surrogate c)
                then cons_cp c (bytes_decode r2) else None
            | _, _ => None
            end
        | _ => None
        end
      else if x0 <? 0xF8 then
        match r0 with
        | b1 :: b2 :: b3 :: r3 =>
            match cont b1, cont b2, cont b3 with
            | Some x1, Some x2, Some x3 =>
                let c := (x0 - 0xF0) * 262144 + x1 * 4096 + x2 * 64 + x3 in
                if (0x10000 <=? c) && (c <=? 0x10FFFF)
                then cons_cp c (bytes_decode r3) else None
            | _, _, _ => None
            end
        | _ => None
        end
      else None
  end.

(** ** Built-ins: comparison of keys and [sorted] *)

(** [a < b] on [str]: lexicographic on code points. *)
Fixpoint str_ltb (a b : list Z) : bool :=
  match a, b with
  | _, [] => false
  | [], _ :: _ => true
  | x :: a', y :: b' =>
      if x <? y then true
      else if y <? x then false
      else str_ltb a' b'
  end.

Definition int_of_bool (b : bool) : Z := if b then 1 else 0.

(** [a < b] for two keys of a dict.  Keys are hashable objects: [None],
    [bool], [int], [bytes] and [str] here.  [bool] and [int] compare as
    numbers, [bytes] with [bytes], [str] with [str]; every other pair
    raises [TypeError]. *)
Definition key_lt (a b : value) : res bool :=
  match a, b with
  | VBool x, VBool y => Ok (int_of_bool x <? int_of_bool y)
  | VBool x, VInt y => Ok (int_of_bool x <? y)
  | VInt x, VBool y => Ok (x <? int_of_bool y)
  | VInt x, VInt y => Ok (x <? y)
  | VBytes x, VBytes y => Ok (bytes_ltb x y)
  | VStr x, VStr y => Ok (str_ltb x y)
  | _, _ => Raise TypeError
  end.

(** [a == b] for two keys of a dict. *)
Definition key_eqb (a b : value) : bool :=
  match a, b with
  | VNone, VNone => true
  | VBool x, VBool y => int_of_bool x =? int_of_bool y
  | VBool x, VInt y => int_of_bool x =? y
  | VInt x, VBool y => x =? int_of_bool y
  | VInt x, VInt y => x =? y
  | VBytes x, VBytes y => bytes_eqb x y
  | VStr x, VStr y => if list_eq_dec Z.eq_dec x y then true else false
  | _, _ => false
  end.

Section Sorted.
Context {A : Type} (lt : A -> A -> res bool).

(** [x] goes after the elements that are smaller than it and before the
    first one that is not, so equal elements keep their order. *)
Fixpoint insert_sorted (x : A) (l : list A) : res (list A) :=
  match l with
  | [] => Ok [x]
  | y :: l' =>
      c <- lt y x;;
      if c then (r <- insert_sorted x l';; Ok (y :: r))
      else Ok (x :: l)
  end.

(** [sorted(l)]: a stable sort that only uses [<]; an exception raised
    by a comparison ends it. *)
Fixpoint py_sorted (l : list A) : res (list A) :=
  match l with
  | [] => Ok []
  | x :: l' => s <- py_sorted l';; insert_sorted x s
  end.
End Sorted.

(** The items of a dict are [(key, value)] tuples.  Tuples compare at
    their first unequal component, and two keys of one dict are never
    equal: the order of two items is the order of their keys. *)
Definition item_lt {A} (a b : value * A) : res bool :=
  key_lt (fst a) (fst b).

(** ** The encoder *)

(** [b"".join(parts)], the first exception among the parts raised. *)
Fixpoint join (parts : list (res bytes)) : res bytes :=
  match parts with
  | [] => Ok []
  | p :: parts' => e <- p;; r <- join parts';; Ok (e ++ r)
  end.

Definition _encode_int (value : Z) : res bytes :=
  s <- str_encode (py_str value);;
  Ok (INTEGER ++ s ++ END).

Definition _encode_bool (value : bool) : res bytes :=
  _encode_int (int_of_bool value).

Definition _encode_bytes (value : bytes) : res bytes :=
  length <- str_encode (py_str (len value));;
  Ok (length ++ COLON ++ value).

Definition _encode_str (value : list Z) : res bytes :=
  b <- str_encode value;;
  _encode_bytes b.

(** The loops of [_encode_list] and [_encode_dict] call [encode] on each
    element in turn and stop at the first exception.  [encode] has no
    effect, so the result is that of encoding every element first and
    then joining the results in order; [_encode_dict] sorts the items
    together with the encodings of their key and value, the comparisons
    being those of [sorted(value.items())]. *)
Definition _encode_list (encode : value -> res bytes) (data : list value)
  : res bytes :=
  body <- join (map encode data);;
  Ok (LIST ++ body ++ END).

Definition _encode_dict (encode : value -> res bytes)
  (value : list (value * value)) : res bytes :=
  sorted_dict <-
    py_sorted item_lt
      (map (fun '(key, item) => (key, (encode key, encode item))) value);;
  body <- join (flat_map (fun '(_, (k, v)) => [k; v]) sorted_dict);;
  Ok (DICT ++ body ++ END).

Fixpoint encode (data : value) : res bytes :=
  match data with
  | VBool b => _encode_bool b
  | VBytes b => _encode_bytes b
  | VDict d => _encode_dict encode d
  | VInt z => _encode_int z
  | VList l => _encode_list encode l
  | VStr s => _encode_str s
  | VNone => Raise BencodeEncodeError
  end.

(** The loop of [_encode_dict] as the source writes it, over the sorted
    items. *)
Definition encode_items (items : list (value * value)) : res bytes :=
  join (flat_map (fun '(key, item) => [encode key; encode item]) items).

(** ** The decoder *)

(** [result[key] = v]: the value of an equal key is replaced where it
    stands, a new key goes last. *)
Fixpoint dict_set (result : list (value * value)) (key v : value)
  : list (value * value) :=
  match result with
  | [] => [(key, v)]
  | (k, x) :: result' =>
      if key_eqb k key then (k, v) :: result'
      else (k, x) :: dict_set result' key v
  end.

(** [result[key]] *)
Fixpoint dict_get (result : list (value * value)) (key : value)
  : option value :=
  match result with
  | [] => None
  | (k, x) :: result' =>
      if key_eqb k key then Some x else dict_get result' key
  end.

Definition _decode_int (data : bytes) (i : Z) : res (value * Z) :=
  let i := i + 1 in
  end_idx <- py_index data END i;;
  num <- py_int (py_slice data i end_idx);;
  Ok (VInt num, end_idx + 1).

Definition _decode_str (data : bytes) (i : Z) : res (value * Z) :=
  colon_idx <- py_index data COLON i;;
  length <- py_int (py_slice data i colon_idx);;
  let start := colon_idx + 1 in
  let byte_string := py_slice data start (start + length) in
  let result :=
    match bytes_decode byte_string with
    | Some s => VStr s
    | None => VBytes byte_string
    end in
  Ok (result, start + length).

(** A run of the decoder with [fuel] units: [None] when they are used up
    before it ends.  Each call of [_decode] and each turn of a [while]
    loop takes one unit. *)
Definition run (A : Type) : Type := option (res A).

Fixpoint _decode (fuel : nat) (encoded : bytes) (i : Z) {struct fuel}
  : run (value * Z) :=
  match fuel with
  | O => None
  | S fuel' =>
      let char := py_slice encoded i (i + 1) in
      if bytes_eqb char INTEGER then Some (_decode_int encoded i)
      else if isdigit char then Some (_decode_str encoded i)
      else if bytes_eqb char DICT then
        _decode_dict_loop fuel' encoded (i + 1) []
      else if bytes_eqb char LIST then
        _decode_list_loop fuel' encoded (i + 1) []
      else Some (Raise BencodeDecodeError)
  end

(** The [while] loop of [_decode_dict], from cursor [i] with the dict
    built so far. *)
with _decode_dict_loop (fuel : nat) (data : bytes) (i : Z)
       (result : list (value * value)) {struct fuel} : run (value * Z) :=
  match fuel with
  | O => None
  | S fuel' =>
      if negb (bytes_eqb (py_slice data i (i + 1)) END) then
        match _decode_str data i with
        | Raise e => Some (Raise e)
        | Ok (key, i1) =>
            match _decode fuel' data i1 with
            | None => None
            | Some (Raise e) => Some (Raise e)
            | Some (Ok (v, i2)) =>
                _decode_dict_loop fuel' data i2 (dict_set result key v)
            end
        end
      else Some (Ok (VDict result, i + 1))
  end

(** The [while] loop of [_decode_list], from cursor [i] with the items
    read so far. *)
with _decode_list_loop (fuel : nat) (data : bytes) (i : Z)
       (items : list value) {struct fuel} : run (value * Z) :=
  match fuel with
  | O => None
  | S fuel' =>
      if negb (bytes_eqb (py_slice data i (i + 1)) END) then
        match _decode fuel' data i with
        | None => None
        | Some (Raise e) => Some (Raise e)
        | Some (Ok (item, i1)) =>
            _decode_list_loop fuel' data i1 (items ++ [item])
        end
      else Some (Ok (VList items, i + 1))
  end.

Definition _decode_dict (fuel : nat) (data : bytes) (i : Z)
  : run (value * Z) :=
  _decode_dict_loop fuel data (i + 1) [].

Definition _decode_list (fuel : nat) (data : bytes) (i : Z)
  : run (value * Z) :=
  _decode_list_loop fuel data (i + 1) [].

(** The argument of [decode]: [bytes] or [str]. *)
Inductive bytes_or_str : Type :=
| Bytes (b : bytes)
| Str (s : list Z).

Definition decode (fuel : nat) (data : bytes_or_str) : run value :=
  let data' :=
    match data with
    | Str s => str_encode s
    | Bytes b => Ok b
    end in
  match data' with
  | Raise e => Some (Raise e)
  | Ok data =>
      match _decode fuel data 0 with
      | None => None
      | Some (Raise e) => Some (Raise e)
      | Some (Ok (result, length)) =>
          if negb (len data =? length) then Some (Raise BencodeDecodeError)
          else Some (Ok result)
      end
  end.

(** ** Definitions for the built-ins

    The bytes [str] writes for an integer, the number a digit string
    stands for, and the code points the codec deals with. *)

(** The ASCII digits of [d]. *)
Definition uint_bytes (d : Decimal.uint) : bytes := map octet (uint_digits d).

(** The bytes of [str(z)]: ASCII digits after an optional ['-']. *)
Definition int_bytes (z : Z) : bytes := map octet (py_str z).

(** The number a digit string denotes, read after [acc]. *)
Fixpoint uint_val (acc : Z) (d : Decimal.uint) : Z :=
  match d with
  | Decimal.Nil => acc
  | Decimal.D0 d' => uint_val (10 * acc + 0) d'
  | Decimal.D1 d' => uint_val (10 * acc + 1) d'
  | Decimal.D2 d' => uint_val (10 * acc + 2) d'
  | Decimal.D3 d' => uint_val (10 * acc + 3) d'
  | Decimal.D4 d' => uint_val (10 * acc + 4) d'
  | Decimal.D5 d' => uint_val (10 * acc + 5) d'
  | Decimal.D6 d' => uint_val (10 * acc + 6) d'
  | Decimal.D7 d' => uint_val (10 * acc + 7) d'
  | Decimal.D8 d' => uint_val (10 * acc + 8) d'
  | Decimal.D9 d' => uint_val (10 * acc + 9) d'
  end.

(** A code point that UTF-8 encodes as one byte. *)
Definition is_ascii (c : Z) : Prop := 0 <= c < 128.

(** What may follow the digits of an integer literal: nothing, or a byte
    that is neither a digit nor an underscore. *)
Definition digits_end (rest : bytes) : Prop :=
  match rest with
  | [] => True
  | b :: _ => is_digit b = false /\ b <> "_"%byte
  end.

(** Digits that start with a digit other than 0. *)
Definition digits_canonical (p : bytes) : bool :=
  match p with
  | c :: _ => negb (Byte.eqb c "0") && forallb is_digit p
  | [] => false
  end.

(** The decimal forms [str] writes: [0], or digits that do not start with
    0, after [-] for a negative number. *)
Definition canonical_int (p : bytes) : bool :=
  match p with
  | c :: r =>
      if Byte.eqb c "-" then digits_canonical r
      else bytes_eqb p (B "0") || digits_canonical p
  | [] => false
  end.

(** A code point of a [str]. *)
Definition codepoint (c : Z) : Prop := 0 <= c <= 0x10FFFF.

(** A code point the strict encoder accepts. *)
Definition scalar (c : Z) : Prop := codepoint c /\ is_surrogate c = false.

(** The same, as a boolean. *)
Definition scalarb (c : Z) : bool :=
  (0 <=? c) && (c <=? 0x10FFFF) && negb (is_surrogate c).

(** The values of the UTF-8 bytes of a code point. *)
Definition utf8_vals (c : Z) : list Z :=
  if c <? 0x80 then [c]
  else if c <? 0x800 then [0xC0 + c / 64; 0x80 + c mod 64]
  else if c <? 0x10000 then
    [0xE0 + c / 4096; 0x80 + (c / 64) mod 64; 0x80 + c mod 64]
  else
    [0xF0 + c / 262144; 0x80 + (c / 4096) mod 64; 0x80 + (c / 64) mod 64;
     0x80 + c mod 64].

(** A function applied to the result of a computation that did not
    raise. *)
Definition res_map {A C} (f : A -> C) (m : res A) : res C :=
  x <- m;; Ok (f x).

(** ** Keys of a dict *)

(** The kinds of keys that compare with each other. *)
Inductive key_kind : Type := KNumber | KBytes | KStr.

(** The kind of a key, [None] for an object that compares with no
    other. *)
Definition kind_of (v : value) : option key_kind :=
  match v with
  | VBool _ | VInt _ => Some KNumber
  | VBytes _ => Some KBytes
  | VStr _ => Some KStr
  | _ => None
  end.

(** [a < b] as a boolean, [false] where the comparison raises. *)
Definition key_ltb (a b : value) : bool :=
  match key_lt a b with
  | Ok c => c
  | Raise _ => false
  end.

(** A key up to [==]: [True == 1] and [False == 0]. *)
Definition key_norm (v : value) : value :=
  match v with
  | VBool b => VInt (int_of_bool b)
  | _ => v
  end.

(** Objects that can be keys of a dict: lists and dicts are not
    hashable. *)
Definition hashableb (v : value) : bool :=
  match v with
  | VList _ | VDict _ => false
  | _ => true
  end.

(** No two keys are equal. *)
Fixpoint keys_nodupb (d : list (value * value)) : bool :=
  match d with
  | [] => true
  | (k, _) :: d' =>
      negb (existsb (fun kv => key_eqb k (fst kv)) d') && keys_nodupb d'
  end.

(** The invariant of a Python dict, as a boolean: the keys are hashable
    and no two of them are equal. *)
Definition dict_keys_ok (d : list (value * value)) : bool :=
  forallb (fun kv => hashableb (fst kv)) d && keys_nodupb d.

(** No two keys are equal, as a proposition. *)
Definition keys_nodup {A} (d : list (value * A)) : Prop :=
  NoDup (map (fun x => key_norm (fst x)) d).

(** The key of [x] is below the key of [y]. *)
Definition item_below {A} (x y : value * A) : Prop :=
  key_ltb (fst x) (fst y) = true.

(** All keys are of one kind. *)
Definition homogeneous {A} (d : list (value * A)) : Prop :=
  exists k, Forall (fun x => kind_of (fst x) = Some k) d.

(** The type of an object, tested. *)
Definition is_bytes (v : value) : bool :=
  match v with VBytes _ => true | _ => false end.

Definition is_str (v : value) : bool :=
  match v with VStr _ => true | _ => false end.

Definition is_bytestring (v : value) : bool := is_bytes v || is_str v.

Definition is_number (v : value) : bool :=
  match v with VBool _ | VInt _ => true | _ => false end.

(** The keys can be sorted: there is at most one, or they are all
    numbers, all [bytes] or all [str]. *)
Definition keys_comparable (d : list (value * value)) : bool :=
  (length d <=? 1)%nat
  || forallb (fun kv => is_number (fst kv)) d
  || forallb (fun kv => is_bytes (fst kv)) d
  || forallb (fun kv => is_str (fst kv)) d.

(** ** The value model of the format *)

(** How a byte string shows after decoding: as [str] when it is valid
    UTF-8, as [bytes] otherwise. *)
Definition surface (w : bytes) : value :=
  match bytes_decode w with
  | Some s => VStr s
  | None => VBytes w
  end.

(** The bytes of a byte string, whichever way it shows. *)
Definition wire_bytes (v : value) : option bytes :=
  match v with
  | VBytes b => Some b
  | VStr s => match str_encode s with Ok b => Some b | Raise _ => None end
  | _ => None
  end.

(** The raw bytes of a key. *)
Definition raw_key (k : value) : bytes :=
  match wire_bytes k with
  | Some w => w
  | None => []
  end.

(** The raw bytes of the key of [a] are below those of the key of [b]. *)
Definition raw_below (a b : value * value) : Prop :=
  bytes_ltb (raw_key (fst a)) (raw_key (fst b)) = true.

(** The values of the format: integers, byte strings (as [bytes], or as
    [str] that UTF-8 can encode), lists of values, and dicts from byte
    strings to values.  The keys of one dict are all [bytes] or all
    [str], and no two are equal. *)
Fixpoint in_model (v : value) : bool :=
  match v with
  | VInt _ => true
  | VBytes _ => true
  | VStr s => forallb scalarb s
  | VList l => forallb in_model l
  | VDict d =>
      (forallb (fun kv => is_bytes (fst kv)) d
       || forallb (fun kv => is_str (fst kv)) d)
      && keys_nodupb d
      && forallb (fun '(k, x) => in_model k && in_model x) d
  | VNone | VBool _ => false
  end.


(** Equality of values under the policy for byte strings: a byte string is
    the same as [bytes] and as the [str] that encodes to these bytes.
    Dicts are equal, as in Python, when they hold the same items, in any
    order. *)
Inductive same_value : value -> value -> Prop :=
| same_int (z : Z) : same_value (VInt z) (VInt z)
| same_bytestring (a b : value) (w : bytes) :
    wire_bytes a = Some w -> wire_bytes b = Some w -> same_value a b
| same_list (l1 l2 : list value) :
    Forall2 same_value l1 l2 -> same_value (VList l1) (VList l2)
| same_dict (d1 d1' d2' d2 : list (value * value)) :
    Permutation d1 d1' ->
    Forall2 (fun p q => same_value (fst p) (fst q) /\
                        same_value (snd p) (snd q)) d1' d2' ->
    Permutation d2' d2 ->
    same_value (VDict d1) (VDict d2).

(** The type of the object is one [encode] dispatches on. *)
Definition recognized (v : value) : bool :=
  match v with
  | VNone => false
  | _ => true
  end.

(** The objects [encode] returns bytes for: no object of an unknown type
    at any depth, no surrogate in a [str], comparable keys in every
    dict. *)
Fixpoint encodable (v : value) : bool :=
  match v with
  | VNone => false
  | VBool _ | VInt _ | VBytes _ => true
  | VStr s => forallb (fun c => negb (is_surrogate c)) s
  | VList l => forallb encodable l
  | VDict d =>
      keys_comparable d
      && forallb (fun '(k, x) => encodable k && encodable x) d
  end.

(** One value is the other with the items of some of its dicts, at any
    depth, in another order. *)
Inductive reordered : value -> value -> Prop :=
| reordered_refl (v : value) : reordered v v
| reordered_list (l1 l2 : list value) :
    Forall2 reordered l1 l2 -> reordered (VList l1) (VList l2)
| reordered_dict (d1 d1' d2 : list (value * value)) :
    Permutation d1 d1' ->
    Forall2 (fun p q => fst p = fst q /\ reordered (snd p) (snd q)) d1' d2 ->
    reordered (VDict d1) (VDict d2).

(** The invariant of a Python dict, for every dict in a value. *)
Fixpoint dicts_ok (v : value) : bool :=
  match v with
  | VList l => forallb dicts_ok l
  | VDict d => dict_keys_ok d && forallb (fun '(_, x) => dicts_ok x) d
  | _ => true
  end.

(** The value with every bool replaced by the integer it equals. *)
Fixpoint int_of_bools (v : value) : value :=
  match v with
  | VBool b => VInt (int_of_bool b)
  | VList l => VList (map int_of_bools l)
  | VDict d => VDict (map (fun '(k, x) => (int_of_bools k, int_of_bools x)) d)
  | _ => v
  end.

(** The shape of a value that [decode] returns: no bool and no object of
    an unknown type; a [str] holds code points that UTF-8 encodes; a
    [bytes] is not valid UTF-8; the keys of a dict are byte strings, no
    two of them equal. *)
Fixpoint decoded (v : value) : bool :=
  match v with
  | VInt _ => true
  | VStr s => forallb scalarb s
  | VBytes b => match bytes_decode b with Some _ => false | None => true end
  | VList l => forallb decoded l
  | VDict d =>
      forallb (fun '(k, x) => is_bytestring k && decoded k && decoded x) d
      && keys_nodupb d
  | VNone | VBool _ => false
  end.

(** ** Reading an encoded value *)

(** The encoding of a byte string, and of a key. *)
Definition bytes_enc (w : bytes) : bytes := int_bytes (len w) ++ COLON ++ w.

(** [b] decodes to [v] with [n] units of fuel, wherever it stands in the
    buffer; the cursor ends just after it. *)
Definition reads (b : bytes) (v : value) (n : nat) : Prop :=
  forall pre post fuel, (n <= fuel)%nat ->
    _decode fuel (pre ++ b ++ post) (len pre) = Some (Ok (v, len pre + len b)).

(** [b] starts with a byte that is not the end marker. *)
Definition opens (b : bytes) : Prop :=
  match b with
  | c :: _ => c <> "e"%byte
  | [] => False
  end.

(** Fuel that is enough to decode the encoding of a value. *)
Fixpoint weight (v : value) : nat :=
  match v with
  | VList l => 2 + length l + list_sum (map weight l)
  | VDict d => 2 + length d + list_sum (map (fun '(_, x) => weight x) d)
  | _ => 1
  end.

(** [v] encodes, and its encoding decodes to an equal value wherever it
    stands in a buffer. *)
Definition roundtrips (v : value) : Prop :=
  exists b v',
    encode v = Ok b /\ opens b /\ same_value v v' /\ reads b v' (weight v).

(** The elements of a list and what they encode and decode to. *)
Definition elt_ok (x : value) (e : bytes * value) : Prop :=
  encode x = Ok (fst e) /\ opens (fst e) /\ same_value x (snd e) /\
  reads (fst e) (snd e) (weight x).

(** An item of a dict, the bytes of its key, and what its value encodes
    and decodes to. *)
Definition item_ok (kv : value * value) (e : bytes * (bytes * value)) : Prop :=
  wire_bytes (fst kv) = Some (fst e) /\
  encode (fst kv) = Ok (bytes_enc (fst e)) /\
  elt_ok (snd kv) (snd e).

(** The encoding of an item. *)
Definition item_enc (e : bytes * (bytes * value)) : bytes :=
  bytes_enc (fst e) ++ fst (snd e).

(** The item as it is decoded. *)
Definition item_dec (e : bytes * (bytes * value)) : value * value :=
  (surface (fst e), snd (snd e)).

(** ** Well-formed encodings

    The encodings the wire format describes, canonical or not: an
    integer is [i], an optional [-], decimal digits, [e]; a byte string
    is its length, [:], and its bytes; a list is [l], encodings, [e]; a
    dict is [d], pairs of an encoded byte string and an encoding, [e].
    The keys of a dict may come in any order and more than once. *)

Inductive wire : Type :=
| WInt (neg : bool) (digits : Decimal.uint)
| WBytes (w : bytes)
| WList (elts : list wire)
| WDict (items : list (bytes * wire)).

(** The sign of an encoded integer. *)
Definition sign_bytes (neg : bool) : bytes := if neg then B "-" else [].

(** The bytes of an encoding. *)
Fixpoint render (t : wire) : bytes :=
  match t with
  | WInt neg d => INTEGER ++ (sign_bytes neg ++ uint_bytes d) ++ END
  | WBytes w => bytes_enc w
  | WList elts => LIST ++ concat (map render elts) ++ END
  | WDict items =>
      DICT ++ concat (map (fun '(w, t) => bytes_enc w ++ render t) items)
      ++ END
  end.

(** The value an encoding stands for: the items of a dict are stored one
    after the other, in the order of the encoding. *)
Fixpoint denote (t : wire) : value :=
  match t with
  | WInt neg d => VInt (if neg then - Z.of_uint d else Z.of_uint d)
  | WBytes w => surface w
  | WList elts => VList (map denote elts)
  | WDict items =>
      VDict (fold_left (fun r '(w, t) => dict_set r (surface w) (denote t))
               items [])
  end.

(** The digit string is empty. *)
Definition uint_is_nil (d : Decimal.uint) : bool :=
  match d with Decimal.Nil => true | _ => false end.

(** Every integer has at least one digit. *)
Fixpoint wire_wf (t : wire) : bool :=
  match t with
  | WInt _ d => negb (uint_is_nil d)
  | WBytes _ => true
  | WList elts => forallb wire_wf elts
  | WDict items => forallb (fun '(_, t) => wire_wf t) items
  end.

(** Fuel that is enough to decode an encoding. *)
Fixpoint wire_weight (t : wire) : nat :=
  match t with
  | WList elts => 2 + length elts + list_sum (map wire_weight elts)
  | WDict items =>
      2 + length items + list_sum (map (fun '(_, t) => wire_weight t) items)
  | _ => 1
  end.

(** An item of an encoded dict: the bytes of the key, the bytes of the
    value and the value they stand for. *)
Definition wire_item (e : bytes * wire) : bytes * (bytes * value) :=
  (fst e, (render (snd e), denote (snd e))).

(** The value of the last item with key [w] in an encoded dict. *)
Definition last_value (items : list (bytes * wire)) (w : bytes)
  : option value :=
  match find (fun e => bytes_eqb (fst e) w) (rev items) with
  | Some e => Some (denote (snd e))
  | None => None
  end.

(** ** Canonical encodings *)

(** The digits of an integer in normal form: a single 0 without a minus
    sign, or digits that do not start with 0. *)
Definition digits_normal (neg : bool) (d : Decimal.uint) : bool :=
  match d with
  | Decimal.Nil => false
  | Decimal.D0 Decimal.Nil => negb neg
  | Decimal.D0 _ => false
  | _ => true
  end.

(** Each byte string is below the next one. *)
Fixpoint ascending (ks : list bytes) : bool :=
  match ks with
  | a :: r => match r with
              | b :: _ => bytes_ltb a b && ascending r
              | [] => true
              end
  | [] => true
  end.

(** The bytes are valid UTF-8: they decode to [str]. *)
Definition is_text (w : bytes) : bool :=
  match bytes_decode w with Some _ => true | None => false end.

(** Integers in normal form and, in every dict, keys in strictly
    ascending order. *)
Fixpoint wire_canonical (t : wire) : bool :=
  match t with
  | WInt neg d => digits_normal neg d
  | WBytes _ => true
  | WList elts => forallb wire_canonical elts
  | WDict items =>
      ascending (map fst items)
      && forallb (fun '(_, t) => wire_canonical t) items
  end.

(** In every dict the keys are all valid UTF-8 or all invalid UTF-8: they
    decode to objects of one type. *)
Fixpoint wire_uniform (t : wire) : bool :=
  match t with
  | WInt _ _ | WBytes _ => true
  | WList elts => forallb wire_uniform elts
  | WDict items =>
      (forallb (fun e => is_text (fst e)) items
       || forallb (fun e => negb (is_text (fst e))) items)
      && forallb (fun '(_, t) => wire_uniform t) items
  end.

(** ** Induction on values and on encodings *)

Section ValueInd.
Variable P : value -> Prop.
Hypothesis HNone : P VNone.
Hypothesis HBool : forall b, P (VBool b).
Hypothesis HInt : forall z, P (VInt z).
Hypothesis HBytes : forall b, P (VBytes b).
Hypothesis HStr : forall s, P (VStr s).
Hypothesis HList : forall l, Forall P l -> P (VList l).
Hypothesis HDict :
  forall d, Forall (fun kv => P (fst kv) /\ P (snd kv)) d -> P (VDict d).

Fixpoint value_ind' (v : value) : P v :=
  match v with
  | VNone => HNone
  | VBool b => HBool b
  | VInt z => HInt z
  | VBytes b => HBytes b
  | VStr s => HStr s
  | VList l =>
      HList l
        ((fix all (l : list value) : Forall P l :=
            match l with
            | [] => Forall_nil P
            | x :: l' => Forall_cons x (value_ind' x) (all l')
            end) l)
  | VDict d =>
      HDict d
        ((fix all (d : list (value * value))
            : Forall (fun kv => P (fst kv) /\ P (snd kv)) d :=
            match d with
            | [] => Forall_nil _
            | (k, x) :: d' =>
                Forall_cons (k, x) (conj (value_ind' k) (value_ind' x))
                  (all d')
            end) d)
  end.
End ValueInd.

Section WireInd.
Variable P : wire -> Prop.
Hypothesis HInt : forall neg d, P (WInt neg d).
Hypothesis HBytes : forall w, P (WBytes w).
Hypothesis HList : forall elts, Forall P elts -> P (WList elts).
Hypothesis HDict : forall items, Forall (fun e => P (snd e)) items ->
                                 P (WDict items).

Fixpoint wire_ind' (t : wire) : P t :=
  match t with
  | WInt neg d => HInt neg d
  | WBytes w => HBytes w
  | WList elts =>
      HList elts
        ((fix all (l : list wire) : Forall P l :=
            match l with
            | [] => Forall_nil P
            | x :: l' => Forall_cons x (wire_ind' x) (all l')
            end) elts)
  | WDict items =>
      HDict items
        ((fix all (l : list (bytes * wire)) : Forall (fun e => P (snd e)) l :=
            match l with
            | [] => Forall_nil _
            | (w, x) :: l' => Forall_cons (w, x) (wire_ind' x) (all l')
            end) items)
  end.
End WireInd.

(** * Properties *)

(** ** Bytes *)

Lemma ord_range (b : byte) : 0 <= ord b < 256.
Proof.
  unfold ord. pose proof (Byte.to_N_bounded b). lia.
Qed.

Lemma ord_octet (z : Z) : 0 <= z < 256 -> ord (octet z) = z.
Proof.
  intros Hz. unfold ord, octet.
  destruct (Byte.of_N (Z.to_N z)) as [b|] eqn:E.
  - apply Byte.to_of_N in E. rewrite E. lia.
  - apply Byte.of_N_None_iff in E. lia.
Qed.

Lemma octet_ord (b : byte) : octet (ord b) = b.
Proof.
  unfold ord, octet. rewrite N2Z.id, Byte.of_to_N. reflexivity.
Qed.

Lemma ord_inj (a b : byte) : ord a = ord b -> a = b.
Proof.
  intros H. rewrite <- (octet_ord a), <- (octet_ord b), H. reflexivity.
Qed.

Lemma byte_eqb_eq (a b : byte) : Byte.eqb a b = true <-> a = b.
Proof.
  split; [apply Byte.byte_dec_bl | apply Byte.byte_dec_lb].
Qed.

Lemma byte_eqb_refl (a : byte) : Byte.eqb a a = true.
Proof. apply byte_eqb_eq. reflexivity. Qed.

Lemma byte_eqb_neq (a b : byte) : Byte.eqb a b = false <-> a <> b.
Proof.
  split.
  - apply Byte.eqb_false.
  - intros H. destruct (Byte.eqb a b) eqn:E; [|reflexivity].
    apply byte_eqb_eq in E. contradiction.
Qed.

Lemma bytes_eqb_eq (a b : bytes) : bytes_eqb a b = true <-> a = b.
Proof.
  revert b. induction a as [|x a IH]; intros [|y b]; simpl;
    try (split; [discriminate | discriminate]); try tauto.
  rewrite andb_true_iff, byte_eqb_eq, IH.
  split; [intros [-> ->]; reflexivity | intros H; inversion H; auto].
Qed.

Lemma bytes_eqb_refl (a : bytes) : bytes_eqb a a = true.
Proof. apply bytes_eqb_eq. reflexivity. Qed.

Lemma bytes_eqb_neq (a b : bytes) : bytes_eqb a b = false <-> a <> b.
Proof.
  destruct (bytes_eqb a b) eqn:E.
  - apply bytes_eqb_eq in E. split; [discriminate | contradiction].
  - split; [|reflexivity]. intros _ H. apply bytes_eqb_eq in H. congruence.
Qed.

(** ** Lengths, slices and [index] *)

Lemma len_nonneg {A} (l : list A) : 0 <= len l.
Proof. unfold len. lia. Qed.

Lemma len_app {A} (a b : list A) : len (a ++ b) = len a + len b.
Proof. unfold len. rewrite length_app. lia. Qed.

Lemma len_cons {A} (x : A) (l : list A) : len (x :: l) = 1 + len l.
Proof. unfold len. cbn [List.length]. lia. Qed.

Lemma len_nil {A} : len (@nil A) = 0.
Proof. reflexivity. Qed.

Lemma clip_inside (n i : Z) : 0 <= i <= n -> clip n i = i.
Proof. intros H. unfold clip. destruct (Z.ltb_spec i 0); lia. Qed.

Lemma clip_beyond (n i : Z) : 0 <= n <= i -> clip n i = n.
Proof. intros H. unfold clip. destruct (Z.ltb_spec i 0); lia. Qed.

(** The slice that covers a segment of the buffer is that segment. *)
Lemma py_slice_segment (pre x post : bytes) :
  py_slice (pre ++ x ++ post) (len pre) (len pre + len x) = x.
Proof.
  unfold py_slice.
  pose proof (len_nonneg pre). pose proof (len_nonneg x).
  pose proof (len_nonneg post).
  rewrite !clip_inside by (rewrite !len_app; lia).
  replace (len pre + len x - len pre) with (len x) by lia.
  unfold len. rewrite !Nat2Z.id.
  rewrite skipn_app, skipn_all, Nat.sub_diag. simpl.
  rewrite firstn_app, firstn_all, Nat.sub_diag. simpl.
  apply List.app_nil_r.
Qed.

(** A slice that asks for more than the buffer holds is cut short. *)
Lemma py_slice_tail (pre x : bytes) (hi : Z) :
  len pre + len x <= hi ->
  py_slice (pre ++ x) (len pre) hi = x.
Proof.
  intros Hhi. unfold py_slice.
  pose proof (len_nonneg pre). pose proof (len_nonneg x).
  rewrite (clip_inside _ (len pre)) by (rewrite !len_app; lia).
  rewrite (clip_beyond _ hi) by (rewrite !len_app; lia).
  rewrite len_app. replace (len pre + len x - len pre) with (len x) by lia.
  unfold len. rewrite !Nat2Z.id.
  rewrite skipn_app, skipn_all, Nat.sub_diag. simpl.
  apply firstn_all.
Qed.

Lemma py_slice_byte (pre : bytes) (c : byte) (post : bytes) :
  py_slice (pre ++ c :: post) (len pre) (len pre + 1) = [c].
Proof.
  apply (py_slice_segment pre [c] post).
Qed.

Lemma py_slice_end (data : bytes) (i : Z) :
  len data <= i -> py_slice data i (i + 1) = [].
Proof.
  intros Hi. unfold py_slice. pose proof (len_nonneg data).
  rewrite !clip_beyond by lia. rewrite Z.sub_diag. reflexivity.
Qed.

Lemma find_sub_byte_skip (c : byte) (x rest : bytes) (pos : Z) :
  ~ In c x ->
  find_sub [c] (x ++ rest) pos = find_sub [c] rest (pos + len x).
Proof.
  revert pos. induction x as [|b x IH]; intros pos Hnin.
  - simpl. rewrite len_nil, Z.add_0_r. reflexivity.
  - simpl app. cbn [find_sub starts_with].
    assert (Hb : Byte.eqb c b = false).
    { apply byte_eqb_neq. intros ->. apply Hnin. left. reflexivity. }
    rewrite Hb. cbn [andb]. rewrite IH.
    + rewrite len_cons. f_equal. lia.
    + intros Hin. apply Hnin. right. exact Hin.
Qed.

Lemma find_sub_byte_none (c : byte) (x : bytes) (pos : Z) :
  ~ In c x -> find_sub [c] x pos = None.
Proof.
  intros H. rewrite <- (List.app_nil_r x), find_sub_byte_skip by exact H.
  reflexivity.
Qed.

Lemma find_sub_byte_here (c : byte) (rest : bytes) (pos : Z) :
  find_sub [c] (c :: rest) pos = Some pos.
Proof.
  cbn [find_sub starts_with]. rewrite byte_eqb_refl. reflexivity.
Qed.

(** [index] from the start of a segment that does not hold the byte finds
    the first occurrence after it. *)
Lemma py_index_segment (pre x : bytes) (c : byte) (post : bytes) :
  ~ In c x ->
  py_index (pre ++ x ++ c :: post) [c] (len pre) = Ok (len pre + len x).
Proof.
  intros Hnin. unfold py_index.
  pose proof (len_nonneg pre). pose proof (len_nonneg x).
  pose proof (len_nonneg post).
  destruct (Z.ltb_spec (len pre) 0) as [?|_]; [lia|].
  destruct (Z.ltb_spec (len (pre ++ x ++ c :: post)) (len pre)) as [Hc|_].
  { rewrite !len_app, len_cons in Hc. lia. }
  unfold len at 1. rewrite Nat2Z.id.
  rewrite skipn_app, skipn_all, Nat.sub_diag. simpl skipn. simpl app.
  rewrite find_sub_byte_skip by exact Hnin.
  rewrite find_sub_byte_here. reflexivity.
Qed.

(** [index] raises [ValueError] when the byte does not occur from the
    start position on. *)
Lemma py_index_absent (pre x : bytes) (c : byte) :
  ~ In c x ->
  py_index (pre ++ x) [c] (len pre) = Raise ValueError.
Proof.
  intros Hnin. unfold py_index. pose proof (len_nonneg pre).
  destruct (Z.ltb_spec (len pre) 0) as [?|_]; [lia|].
  destruct (Z.ltb_spec (len (pre ++ x)) (len pre)) as [|_]; [reflexivity|].
  unfold len at 1. rewrite Nat2Z.id.
  rewrite skipn_app, skipn_all, Nat.sub_diag. simpl.
  rewrite find_sub_byte_none by exact Hnin. reflexivity.
Qed.

Lemma py_index_beyond (data sub : bytes) (i : Z) :
  len data < i -> py_index data sub i = Raise ValueError.
Proof.
  intros Hi. unfold py_index. pose proof (len_nonneg data).
  destruct (Z.ltb_spec i 0) as [?|_]; [lia|].
  destruct (Z.ltb_spec (len data) i) as [_|?]; [reflexivity|lia].
Qed.

(** ** [str(int)] and [int(bytes)] *)

Lemma str_encode_ascii (s : list Z) :
  Forall is_ascii s -> str_encode s = Ok (map octet s).
Proof.
  induction 1 as [|c s Hc _ IH]; [reflexivity|].
  cbn [str_encode map]. unfold utf8_cp. red in Hc.
  destruct (Z.ltb_spec c 128); [|lia].
  rewrite IH. reflexivity.
Qed.

Lemma uint_digits_ascii (d : Decimal.uint) : Forall is_ascii (uint_digits d).
Proof.
  induction d; cbn [uint_digits]; constructor; auto; red; lia.
Qed.

Lemma py_str_ascii (z : Z) : Forall is_ascii (py_str z).
Proof.
  unfold py_str. destruct (Z.to_int z).
  - apply uint_digits_ascii.
  - constructor; [red; lia | apply uint_digits_ascii].
Qed.

Lemma str_encode_py_str (z : Z) : str_encode (py_str z) = Ok (int_bytes z).
Proof. apply str_encode_ascii, py_str_ascii. Qed.

Lemma _encode_int_eq (z : Z) :
  _encode_int z = Ok (INTEGER ++ int_bytes z ++ END).
Proof. unfold _encode_int. rewrite str_encode_py_str. reflexivity. Qed.

Lemma _encode_bytes_eq (b : bytes) :
  _encode_bytes b = Ok (int_bytes (len b) ++ COLON ++ b).
Proof. unfold _encode_bytes. rewrite str_encode_py_str. reflexivity. Qed.

Lemma uint_val_lu (d : Decimal.uint) (acc : N) :
  uint_val (Z.of_N acc) d =
  Z.of_N (DecimalPos.Unsigned.of_lu (Decimal.rev d)
          + acc * 10 ^ DecimalPos.Unsigned.usize d).
Proof.
  revert acc.
  induction d as [|d IH|d IH|d IH|d IH|d IH|d IH|d IH|d IH|d IH|d IH];
    intros acc; cbn [uint_val];
    [ cbn; f_equal; lia | .. ];
    unfold Decimal.rev; cbn [Decimal.revapp];
    rewrite DecimalPos.Unsigned.of_lu_revapp; fold (Decimal.rev d);
    cbn [DecimalPos.Unsigned.usize DecimalPos.Unsigned.of_lu];
    rewrite N.pow_succ_r';
    match goal with
    | |- uint_val (10 * Z.of_N acc + ?k) d = _ =>
        replace (10 * Z.of_N acc + k) with (Z.of_N (10 * acc + Z.to_N k))
          by lia
    end;
    rewrite IH; f_equal;
    change (Z.to_N 0) with 0%N; change (Z.to_N 1) with 1%N;
    change (Z.to_N 2) with 2%N; change (Z.to_N 3) with 3%N;
    change (Z.to_N 4) with 4%N; change (Z.to_N 5) with 5%N;
    change (Z.to_N 6) with 6%N; change (Z.to_N 7) with 7%N;
    change (Z.to_N 8) with 8%N; change (Z.to_N 9) with 9%N;
    lia.
Qed.

Lemma uint_val_of_uint (d : Decimal.uint) : uint_val 0 d = Z.of_uint d.
Proof.
  change 0 with (Z.of_N 0). rewrite uint_val_lu.
  unfold Z.of_uint. rewrite DecimalPos.Unsigned.of_uint_alt.
  f_equal. lia.
Qed.

Lemma is_digit_octet (k : Z) :
  48 <= k <= 57 -> is_digit (octet k) = true /\ digit_val (octet k) = k - 48.
Proof.
  intros Hk. unfold is_digit, digit_val. rewrite ord_octet by lia.
  split; [|reflexivity].
  apply andb_true_iff. split; apply Z.leb_le; lia.
Qed.

Lemma uint_bytes_digits (d : Decimal.uint) :
  Forall (fun b => is_digit b = true) (uint_bytes d).
Proof.
  unfold uint_bytes.
  induction d; cbn [uint_digits map]; constructor; auto;
    apply is_digit_octet; lia.
Qed.

Lemma int_digits_end (acc : Z) (rest : bytes) :
  digits_end rest -> int_digits acc rest = Some (acc, rest).
Proof.
  destruct rest as [|b r]; [reflexivity|].
  intros [Hd Hu]. cbn [int_digits]. rewrite Hd.
  apply byte_eqb_neq in Hu. rewrite Hu. reflexivity.
Qed.

Lemma int_digits_uint (d : Decimal.uint) (acc : Z) (rest : bytes) :
  digits_end rest ->
  int_digits acc (uint_bytes d ++ rest) = Some (uint_val acc d, rest).
Proof.
  intros Hrest. revert acc. unfold uint_bytes.
  induction d as [|d IH|d IH|d IH|d IH|d IH|d IH|d IH|d IH|d IH|d IH];
    intros acc; cbn [uint_digits map app uint_val];
    [ apply int_digits_end, Hrest | .. ];
    cbn [int_digits];
    match goal with
    | |- context [is_digit (octet ?k)] =>
        destruct (is_digit_octet k ltac:(lia)) as [-> ->]
    end;
    rewrite IH; reflexivity.
Qed.

Lemma uint_bytes_nonnil (d : Decimal.uint) :
  d <> Decimal.Nil ->
  exists k d', 48 <= k <= 57 /\ uint_bytes d = octet k :: uint_bytes d' /\
               uint_val 0 d = uint_val (k - 48) d'.
Proof.
  intros Hd. unfold uint_bytes.
  destruct d; [congruence | ..]; cbn [uint_digits map uint_val];
    eexists _, _; (split; [|split; [reflexivity|reflexivity]]); lia.
Qed.

Lemma lstrip_spaces (ws rest : bytes) :
  forallb is_space ws = true ->
  lstrip (ws ++ rest) = lstrip rest.
Proof.
  induction ws as [|b ws IH]; [reflexivity|].
  cbn [forallb app lstrip]. intros H. apply andb_true_iff in H as [Hb Hws].
  rewrite Hb. apply IH, Hws.
Qed.

Lemma lstrip_nonspace (b : byte) (rest : bytes) :
  is_space b = false -> lstrip (b :: rest) = b :: rest.
Proof. intros H. cbn [lstrip]. rewrite H. reflexivity. Qed.

Lemma spaces_digits_end (ws : bytes) :
  forallb is_space ws = true -> digits_end ws.
Proof.
  destruct ws as [|b ws]; [exact (fun _ => I)|].
  cbn [forallb digits_end]. intros H. apply andb_true_iff in H as [Hb _].
  unfold is_space in Hb. unfold is_digit.
  split.
  - apply andb_false_iff.
    destruct (Z.leb_spec 48 (ord b)); [right|left; reflexivity].
    apply Z.leb_gt. apply orb_true_iff in Hb as [Hb|Hb].
    + apply Z.eqb_eq in Hb. lia.
    + apply andb_true_iff in Hb as [_ Hb]. apply Z.leb_le in Hb. lia.
  - intros ->. vm_compute in Hb. discriminate.
Qed.

Lemma is_space_digit (b : byte) : is_digit b = true -> is_space b = false.
Proof.
  unfold is_digit, is_space. intros H.
  apply andb_true_iff in H as [H1 H2].
  apply Z.leb_le in H1. apply Z.leb_le in H2.
  apply orb_false_iff. split.
  - apply Z.eqb_neq. lia.
  - apply andb_false_iff. right. apply Z.leb_gt. lia.
Qed.

(** The literals [int] accepts, among them: white space, a sign, any
    digit string (leading zeros included), white space. *)
Lemma py_int_literal (ws1 sign : bytes) (d : Decimal.uint) (ws2 : bytes) :
  forallb is_space ws1 = true ->
  forallb is_space ws2 = true ->
  d <> Decimal.Nil ->
  sign = [] \/ sign = B "+" \/ sign = B "-" ->
  py_int (ws1 ++ sign ++ uint_bytes d ++ ws2) =
  Ok (if bytes_eqb sign (B "-") then - Z.of_uint d else Z.of_uint d).
Proof.
  intros Hws1 Hws2 Hd Hsign.
  destruct (uint_bytes_nonnil d Hd) as (k & d' & Hk & Hb & Hv).
  destruct (is_digit_octet k Hk) as [Hdig Hval].
  rewrite <- uint_val_of_uint, Hv, Hb.
  assert (Hk' : Byte.eqb (octet k) "+" = false /\ Byte.eqb (octet k) "-" = false).
  { split; apply byte_eqb_neq; intros E; rewrite E in Hdig; discriminate. }
  destruct Hk' as [Hp Hm].
  unfold py_int. rewrite lstrip_spaces by exact Hws1.
  change (B "+") with ["+"%byte] in *. change (B "-") with ["-"%byte] in *.
  destruct Hsign as [-> | [-> | ->]]; cbn [app];
    [ rewrite lstrip_nonspace by (apply is_space_digit, Hdig)
    | rewrite lstrip_nonspace by reflexivity
    | rewrite lstrip_nonspace by reflexivity ];
    cbv beta iota; rewrite ?Hp, ?Hm; cbn [bytes_eqb];
    rewrite ?byte_eqb_refl;
    change (Byte.eqb "+" "-") with false;
    change (Byte.eqb "-" "+") with false;
    cbv beta iota; cbn [andb];
    rewrite Hdig, Hval, int_digits_uint by (apply spaces_digits_end, Hws2);
    rewrite Hws2; reflexivity.
Qed.

Lemma to_int_nonnil (z : Z) :
  match Z.to_int z with
  | Decimal.Pos d | Decimal.Neg d => d <> Decimal.Nil
  end.
Proof.
  destruct z as [|p|p]; cbn.
  - discriminate.
  - apply DecimalPos.Unsigned.to_uint_nonnil.
  - apply DecimalPos.Unsigned.to_uint_nonnil.
Qed.

Lemma int_bytes_eq (z : Z) :
  int_bytes z =
  match Z.to_int z with
  | Decimal.Pos d => uint_bytes d
  | Decimal.Neg d => "-"%byte :: uint_bytes d
  end.
Proof.
  unfold int_bytes, py_str, uint_bytes. destruct (Z.to_int z); reflexivity.
Qed.

(** [int] reads back what [str] wrote. *)
Lemma py_int_int_bytes (z : Z) : py_int (int_bytes z) = Ok z.
Proof.
  rewrite int_bytes_eq. pose proof (to_int_nonnil z) as Hn.
  pose proof (DecimalZ.of_to z) as Hz. unfold Z.of_int in Hz.
  destruct (Z.to_int z) as [d|d].
  - pose proof (py_int_literal [] [] d [] eq_refl eq_refl Hn
                  (or_introl eq_refl)) as H.
    cbn [app] in H. rewrite List.app_nil_r in H. rewrite H.
    change (B "-") with ["-"%byte]. cbn [bytes_eqb]. congruence.
  - pose proof (py_int_literal [] (B "-") d [] eq_refl eq_refl Hn
                  (or_intror (or_intror eq_refl))) as H.
    change (B "-") with ["-"%byte] in H.
    cbn [app] in H. rewrite List.app_nil_r in H. rewrite H.
    rewrite bytes_eqb_refl. congruence.
Qed.

(** ** The UTF-8 codec *)

Ltac Zify.zify_post_hook ::= Z.div_mod_to_equations.

Ltac cases_Z :=
  repeat match goal with
    | |- context [?a <? ?b] => destruct (Z.ltb_spec a b); try lia
    | |- context [?a <=? ?b] => destruct (Z.leb_spec a b); try lia
    | H : context [?a <? ?b] |- _ => destruct (Z.ltb_spec a b); try lia
    | H : context [?a <=? ?b] |- _ => destruct (Z.leb_spec a b); try lia
    end.

Lemma cont_octet (x : Z) : 0 <= x < 64 -> cont (octet (0x80 + x)) = Some x.
Proof.
  intros Hx. unfold cont. rewrite ord_octet by lia.
  cases_Z. cbn [andb]. f_equal. lia.
Qed.

Lemma cont_inv (b : byte) (x : Z) :
  cont b = Some x -> 0 <= x < 64 /\ b = octet (0x80 + x).
Proof.
  unfold cont. pose proof (ord_range b).
  destruct (Z.leb_spec 0x80 (ord b)); [|discriminate].
  destruct (Z.ltb_spec (ord b) 0xC0); [|discriminate].
  cbn [andb]. intros [= <-]. split; [lia|].
  replace (0x80 + (ord b - 0x80)) with (ord b) by lia.
  symmetry. apply octet_ord.
Qed.

Lemma is_surrogate_false (c : Z) :
  is_surrogate c = false <-> c < 0xD800 \/ 0xDFFF < c.
Proof.
  unfold is_surrogate. rewrite andb_false_iff, Z.leb_gt, Z.leb_gt. tauto.
Qed.

Lemma bytes_decode_cons (b0 : byte) (r0 : bytes) :
  bytes_decode (b0 :: r0) =
  let x0 := ord b0 in
  if x0 <? 0x80 then cons_cp x0 (bytes_decode r0)
  else if x0 <? 0xC0 then None
  else if x0 <? 0xE0 then
    match r0 with
    | b1 :: r1 =>
        match cont b1 with
        | Some x1 =>
            let c := (x0 - 0xC0) * 64 + x1 in
            if 0x80 <=? c then cons_cp c (bytes_decode r1) else None
        | None => None
        end
    | _ => None
    end
  else if x0 <? 0xF0 then
    match r0 with
    | b1 :: b2 :: r2 =>
        match cont b1, cont b2 with
        | Some x1, Some x2 =>
            let c := (x0 - 0xE0) * 4096 + x1 * 64 + x2 in
            if (0x800 <=? c) && negb (is_surrogate c)
            then cons_cp c (bytes_decode r2) else None
        | _, _ => None
        end
    | _ => None
    end
  else if x0 <? 0xF8 then
    match r0 with
    | b1 :: b2 :: b3 :: r3 =>
        match cont b1, cont b2, cont b3 with
        | Some x1, Some x2, Some x3 =>
            let c := (x0 - 0xF0) * 262144 + x1 * 4096 + x2 * 64 + x3 in
            if (0x10000 <=? c) && (c <=? 0x10FFFF)
            then cons_cp c (bytes_decode r3) else None
        | _, _, _ => None
        end
    | _ => None
    end
  else None.
Proof. reflexivity. Qed.

(** Decoding the encoding of one code point gives it back. *)
Lemma bytes_decode_utf8_cp_match (c : Z) (r : bytes) :
  codepoint c ->
  match utf8_cp c with
  | Some e => bytes_decode (e ++ r) = cons_cp c (bytes_decode r)
  | None => True
  end.
Proof.
  unfold codepoint, utf8_cp. intros Hc.
  destruct (Z.ltb_spec c 0x80).
  { cbn [app]; rewrite bytes_decode_cons; cbv zeta.
    rewrite ord_octet by lia. cases_Z. reflexivity. }
  destruct (Z.ltb_spec c 0x800).
  { cbn [app]; rewrite bytes_decode_cons; cbv zeta.
    rewrite ord_octet by lia.
    rewrite cont_octet by lia.
    replace ((0xC0 + c / 64 - 0xC0) * 64 + c mod 64) with c by lia.
    cases_Z. reflexivity. }
  destruct (Z.ltb_spec c 0x10000).
  { destruct (is_surrogate c) eqn:Hs; [exact I|].
    cbn [app]; rewrite bytes_decode_cons; cbv zeta.
    rewrite ord_octet by lia.
    rewrite !cont_octet by lia.
    replace ((0xE0 + c / 4096 - 0xE0) * 4096 + (c / 64) mod 64 * 64
             + c mod 64) with c by lia.
    rewrite Hs. cases_Z. reflexivity. }
  cbn [app]; rewrite bytes_decode_cons; cbv zeta.
  rewrite ord_octet by lia.
  rewrite !cont_octet by lia.
  replace ((0xF0 + c / 262144 - 0xF0) * 262144 + (c / 4096) mod 64 * 4096
           + (c / 64) mod 64 * 64 + c mod 64) with c by lia.
  cases_Z. reflexivity.
Qed.

Lemma bytes_decode_utf8_cp (c : Z) (e r : bytes) :
  codepoint c -> utf8_cp c = Some e ->
  bytes_decode (e ++ r) = cons_cp c (bytes_decode r).
Proof.
  intros Hc He. pose proof (bytes_decode_utf8_cp_match c r Hc) as H.
  rewrite He in H. exact H.
Qed.

(** [bytes.decode] undoes [str.encode]. *)
Lemma bytes_decode_str_encode (s : list Z) (b : bytes) :
  Forall codepoint s -> str_encode s = Ok b -> bytes_decode b = Some s.
Proof.
  intros Hs. revert b. induction Hs as [|c s Hc _ IH]; intros b.
  - intros [= <-]. reflexivity.
  - cbn [str_encode]. destruct (utf8_cp c) as [e|] eqn:He; [|discriminate].
    destruct (str_encode s) as [r|] eqn:Hr; [|discriminate].
    intros [= <-]. rewrite (bytes_decode_utf8_cp c e r Hc He).
    rewrite (IH r eq_refl). reflexivity.
Qed.

Lemma cons_cp_inv (c : Z) (o : option (list Z)) (s : list Z) :
  cons_cp c o = Some s -> exists s', o = Some s' /\ s = c :: s'.
Proof.
  destruct o as [s'|]; cbn [cons_cp]; [|discriminate].
  intros H. exists s'. split; [reflexivity|]. congruence.
Qed.

(** One step of the decoder: the first code point, its encoding, and the
    bytes left. *)
Lemma bytes_decode_step (b0 : byte) (r0 : bytes) (s : list Z) :
  bytes_decode (b0 :: r0) = Some s ->
  exists c e r s',
    s = c :: s' /\ b0 :: r0 = e ++ r /\ utf8_cp c = Some e /\ scalar c /\
    bytes_decode r = Some s' /\ (length r <= length r0)%nat.
Proof.
  rewrite bytes_decode_cons. cbv zeta.
  pose proof (ord_range b0) as Hb0.
  destruct (Z.ltb_spec (ord b0) 0x80) as [H1|H1].
  { intros H. apply cons_cp_inv in H as (s' & Hr & ->).
    exists (ord b0), [b0], r0, s'. repeat split; auto; try lia.
    - unfold utf8_cp. cases_Z. rewrite octet_ord. reflexivity.
    - apply is_surrogate_false. lia. }
  destruct (Z.ltb_spec (ord b0) 0xC0) as [H2|H2]; [discriminate|].
  destruct (Z.ltb_spec (ord b0) 0xE0) as [H3|H3].
  { destruct r0 as [|b1 r1]; [discriminate|].
    destruct (cont b1) as [x1|] eqn:E1; [|discriminate].
    apply cont_inv in E1 as [Hx1 ->].
    set (c := (ord b0 - 0xC0) * 64 + x1).
    destruct (Z.leb_spec 0x80 c) as [Hc|Hc]; [|discriminate].
    intros H. apply cons_cp_inv in H as (s' & Hr & ->).
    exists c, [b0; octet (0x80 + x1)], r1, s'.
    repeat split; auto; try (subst c; lia); try (cbn; lia).
    - unfold utf8_cp. cases_Z; try (subst c; lia).
      replace (0xC0 + c / 64) with (ord b0) by (subst c; lia).
      replace (c mod 64) with x1 by (subst c; lia).
      rewrite octet_ord. reflexivity.
    - apply is_surrogate_false. subst c; lia. }
  destruct (Z.ltb_spec (ord b0) 0xF0) as [H4|H4].
  { destruct r0 as [|b1 [|b2 r2]]; try discriminate.
    destruct (cont b1) as [x1|] eqn:E1; [|discriminate].
    destruct (cont b2) as [x2|] eqn:E2; [|discriminate].
    apply cont_inv in E1 as [Hx1 ->]. apply cont_inv in E2 as [Hx2 ->].
    set (c := (ord b0 - 0xE0) * 4096 + x1 * 64 + x2).
    destruct (Z.leb_spec 0x800 c) as [Hc|Hc]; [|discriminate].
    destruct (is_surrogate c) eqn:Hs; [discriminate|]. cbn [negb andb].
    intros H. apply cons_cp_inv in H as (s' & Hr & ->).
    exists c, [b0; octet (0x80 + x1); octet (0x80 + x2)], r2, s'.
    repeat split; auto; try (subst c; lia); try (cbn; lia).
    unfold utf8_cp. rewrite Hs. cases_Z; try (subst c; lia).
    replace (0xE0 + c / 4096) with (ord b0) by (subst c; lia).
    replace ((c / 64) mod 64) with x1 by (subst c; lia).
    replace (c mod 64) with x2 by (subst c; lia).
    rewrite octet_ord. reflexivity. }
  destruct (Z.ltb_spec (ord b0) 0xF8) as [H5|H5]; [|discriminate].
  destruct r0 as [|b1 [|b2 [|b3 r3]]]; try discriminate.
  destruct (cont b1) as [x1|] eqn:E1; [|discriminate].
  destruct (cont b2) as [x2|] eqn:E2; [|discriminate].
  destruct (cont b3) as [x3|] eqn:E3; [|discriminate].
  apply cont_inv in E1 as [Hx1 ->]. apply cont_inv in E2 as [Hx2 ->].
  apply cont_inv in E3 as [Hx3 ->].
  set (c := (ord b0 - 0xF0) * 262144 + x1 * 4096 + x2 * 64 + x3).
  destruct (Z.leb_spec 0x10000 c) as [Hc|Hc]; [|discriminate].
  destruct (Z.leb_spec c 0x10FFFF) as [Hc'|Hc']; [|discriminate].
  cbn [andb].
  intros H. apply cons_cp_inv in H as (s' & Hr & ->).
  exists c, [b0; octet (0x80 + x1); octet (0x80 + x2); octet (0x80 + x3)],
    r3, s'.
  repeat split; auto; try lia; try (cbn; lia).
  - unfold utf8_cp. cases_Z.
    replace (0xF0 + c / 262144) with (ord b0) by (subst c; lia).
    replace ((c / 4096) mod 64) with x1 by (subst c; lia).
    replace ((c / 64) mod 64) with x2 by (subst c; lia).
    replace (c mod 64) with x3 by (subst c; lia).
    rewrite octet_ord. reflexivity.
  - apply is_surrogate_false. lia.
Qed.

(** [str.encode] undoes [bytes.decode], and a decoded [str] holds no
    surrogate. *)
Lemma str_encode_bytes_decode (b : bytes) (s : list Z) :
  bytes_decode b = Some s -> str_encode s = Ok b /\ Forall scalar s.
Proof.
  remember (length b) as n eqn:Hn.
  revert b s Hn. induction n as [n IH] using lt_wf_ind. intros b s Hn H.
  destruct b as [|b0 r0].
  - cbn in H. injection H as <-. split; [reflexivity|constructor].
  - apply bytes_decode_step in H
      as (c & e & r & s' & -> & Hb & He & Hc & Hr & Hlen).
    destruct (IH (length r) ltac:(subst n; cbn [length]; lia) r s' eq_refl Hr)
      as [Henc Hsc].
    split; [|constructor; assumption].
    cbn [str_encode]. rewrite He, Henc. cbn [bind]. rewrite Hb. reflexivity.
Qed.

(** ** [sorted] *)

Section SortedFacts.
Context {A : Type} (lt : A -> A -> res bool).

Lemma insert_sorted_perm (x : A) (l r : list A) :
  insert_sorted lt x l = Ok r -> Permutation (x :: l) r.
Proof.
  revert r. induction l as [|y l IH]; intros r; cbn [insert_sorted].
  - intros [= <-]. apply Permutation_refl.
  - destruct (lt y x) as [[|]|e]; cbn [bind]; [| |discriminate].
    + destruct (insert_sorted lt x l) as [r'|e]; cbn [bind];
        [|discriminate].
      intros [= <-]. rewrite perm_swap. apply perm_skip, IH. reflexivity.
    + intros [= <-]. apply Permutation_refl.
Qed.

Lemma py_sorted_perm (l r : list A) :
  py_sorted lt l = Ok r -> Permutation l r.
Proof.
  revert r. induction l as [|x l IH]; intros r; cbn [py_sorted].
  - intros [= <-]. apply perm_nil.
  - destruct (py_sorted lt l) as [s|e]; cbn [bind]; [|discriminate].
    intros H. apply insert_sorted_perm in H.
    rewrite <- H. apply perm_skip, IH. reflexivity.
Qed.

(** Sorting under a map that keeps the order. *)
Context {C : Type} (lt' : C -> C -> res bool) (f : A -> C).
Hypothesis lt_f : forall x y, lt' (f x) (f y) = lt x y.

Lemma insert_sorted_map (x : A) (l : list A) :
  insert_sorted lt' (f x) (map f l) = res_map (map f) (insert_sorted lt x l).
Proof.
  induction l as [|y l IH]; cbn [insert_sorted map]; [reflexivity|].
  rewrite lt_f. destruct (lt y x) as [[|]|e]; cbn [bind res_map];
    try reflexivity.
  rewrite IH. destruct (insert_sorted lt x l); reflexivity.
Qed.

Lemma py_sorted_map (l : list A) :
  py_sorted lt' (map f l) = res_map (map f) (py_sorted lt l).
Proof.
  induction l as [|x l IH]; cbn [py_sorted map]; [reflexivity|].
  rewrite IH. destruct (py_sorted lt l) as [s|e]; cbn [bind res_map];
    [|reflexivity].
  apply insert_sorted_map.
Qed.
End SortedFacts.

(** ** The encoder, as the source writes it *)

Lemma encode_list_eq (l : list value) :
  encode (VList l) =
  (body <- join (map encode l);; Ok (LIST ++ body ++ END)).
Proof. reflexivity. Qed.

(** [_encode_dict]: sort the items, then encode key and value of each in
    that order. *)
Lemma encode_dict_eq (d : list (value * value)) :
  encode (VDict d) =
  (sorted_dict <- py_sorted item_lt d;;
   body <- encode_items sorted_dict;;
   Ok (DICT ++ body ++ END)).
Proof.
  cbn [encode]. unfold _encode_dict.
  rewrite (py_sorted_map (@item_lt value) (@item_lt (res bytes * res bytes))
             (fun '(key, item) => (key, (encode key, encode item)))).
  2: { intros [k1 v1] [k2 v2]. reflexivity. }
  destruct (py_sorted item_lt d) as [s|e]; cbn [bind res_map]; [|reflexivity].
  unfold encode_items.
  rewrite !flat_map_concat_map, map_map.
  rewrite (map_ext _ (fun '(key, item) => [encode key; encode item]));
    [reflexivity|].
  intros [k v]. reflexivity.
Qed.

Lemma join_app (a b : list (res bytes)) :
  join (a ++ b) = (x <- join a;; y <- join b;; Ok (x ++ y)).
Proof.
  induction a as [|p a IH]; cbn [app join bind].
  - destruct (join b); reflexivity.
  - destruct p as [e|e]; cbn [bind]; [|reflexivity].
    rewrite IH. destruct (join a); cbn [bind]; [|reflexivity].
    destruct (join b); cbn [bind]; [|reflexivity].
    rewrite app_assoc. reflexivity.
Qed.

Lemma encode_items_cons (k v : value) (items : list (value * value)) :
  encode_items ((k, v) :: items) =
  (ek <- encode k;; ev <- encode v;; r <- encode_items items;;
   Ok (ek ++ ev ++ r)).
Proof.
  unfold encode_items. cbn [flat_map app join].
  destruct (encode k); cbn [bind]; [|reflexivity].
  destruct (encode v); cbn [bind]; [|reflexivity].
  destruct (join _); cbn [bind]; [|reflexivity].
  rewrite app_assoc. reflexivity.
Qed.

(** ** The order on keys *)

Lemma str_ltb_irrefl (a : list Z) : str_ltb a a = false.
Proof.
  induction a as [|x a IH]; [reflexivity|].
  cbn [str_ltb]. rewrite Z.ltb_irrefl. exact IH.
Qed.

Lemma str_ltb_trans (a b c : list Z) :
  str_ltb a b = true -> str_ltb b c = true -> str_ltb a c = true.
Proof.
  revert b c. induction a as [|x a IH]; intros [|y b] [|z c];
    cbn [str_ltb]; try discriminate; try reflexivity.
  destruct (Z.ltb_spec x y), (Z.ltb_spec y x), (Z.ltb_spec y z),
    (Z.ltb_spec z y), (Z.ltb_spec x z), (Z.ltb_spec z x);
    try lia; try discriminate; try reflexivity.
  apply IH.
Qed.

Lemma str_ltb_total (a b : list Z) :
  str_ltb a b = false -> str_ltb b a = false -> a = b.
Proof.
  revert b. induction a as [|x a IH]; intros [|y b]; cbn [str_ltb];
    try discriminate; try reflexivity.
  destruct (Z.ltb_spec x y), (Z.ltb_spec y x); try lia; try discriminate.
  intros H1 H2. f_equal; [lia|]. apply IH; assumption.
Qed.

Lemma bytes_ltb_ord (a b : bytes) :
  bytes_ltb a b = str_ltb (map ord a) (map ord b).
Proof.
  revert b. induction a as [|x a IH]; intros [|y b]; cbn [bytes_ltb str_ltb map];
    try reflexivity.
  rewrite IH. reflexivity.
Qed.

Lemma map_ord_inj (a b : bytes) : map ord a = map ord b -> a = b.
Proof.
  revert b. induction a as [|x a IH]; intros [|y b]; cbn [map];
    try discriminate; try reflexivity.
  intros [= Hxy Hab]. f_equal; [apply ord_inj, Hxy | apply IH, Hab].
Qed.

Lemma bytes_ltb_irrefl (a : bytes) : bytes_ltb a a = false.
Proof. rewrite bytes_ltb_ord. apply str_ltb_irrefl. Qed.

Lemma bytes_ltb_trans (a b c : bytes) :
  bytes_ltb a b = true -> bytes_ltb b c = true -> bytes_ltb a c = true.
Proof. rewrite !bytes_ltb_ord. apply str_ltb_trans. Qed.

Lemma bytes_ltb_total (a b : bytes) :
  bytes_ltb a b = false -> bytes_ltb b a = false -> a = b.
Proof.
  rewrite !bytes_ltb_ord. intros H1 H2. apply map_ord_inj.
  apply str_ltb_total; assumption.
Qed.

(** A comparison of keys succeeds exactly when both are of one kind. *)
Lemma key_lt_kind (a b : value) :
  match key_lt a b with
  | Ok _ => exists k, kind_of a = Some k /\ kind_of b = Some k
  | Raise e => e = TypeError /\ (kind_of a <> kind_of b \/ kind_of a = None)
  end.
Proof.
  destruct a, b; cbn; try (split; [reflexivity|]);
    try (left; discriminate); try (right; reflexivity); eauto.
Qed.

Lemma key_lt_same_kind (a b : value) (k : key_kind) :
  kind_of a = Some k -> kind_of b = Some k ->
  key_lt a b = Ok (key_ltb a b).
Proof.
  unfold key_ltb. destruct a, b; cbn; try discriminate; try reflexivity;
    intros; congruence.
Qed.

Lemma key_ltb_irrefl (a : value) : key_ltb a a = false.
Proof.
  unfold key_ltb. destruct a; cbn; try reflexivity;
    auto using Z.ltb_irrefl, bytes_ltb_irrefl, str_ltb_irrefl.
Qed.

Lemma key_ltb_trans (a b c : value) :
  key_ltb a b = true -> key_ltb b c = true -> key_ltb a c = true.
Proof.
  unfold key_ltb.
  destruct a, b; cbn; try discriminate; destruct c; cbn; try discriminate;
    try (intros H1 H2; apply Z.ltb_lt in H1; apply Z.ltb_lt in H2;
         apply Z.ltb_lt; lia);
    eauto using bytes_ltb_trans, str_ltb_trans.
Qed.

(** Of two unequal keys of one kind, one is below the other. *)
Lemma key_lt_total (a b : value) :
  key_lt a b = Ok false -> key_norm a <> key_norm b -> key_lt b a = Ok true.
Proof.
  destruct a, b; cbn; try discriminate; intros [= H] Hne; f_equal;
    try (apply Z.ltb_ge in H; apply Z.ltb_lt;
         assert (forall x y : Z, VInt x <> VInt y -> x <> y)
           as Hn by (intros ? ? ? ->; congruence);
         apply Hn in Hne; lia).
  - match goal with |- ?g = true => destruct g eqn:E; [reflexivity|] end.
    exfalso. apply Hne. f_equal. apply bytes_ltb_total; assumption.
  - match goal with |- ?g = true => destruct g eqn:E; [reflexivity|] end.
    exfalso. apply Hne. f_equal. apply str_ltb_total; assumption.
Qed.

(** ** Sorting the items of a dict *)

Section SortedItems.
Context {A : Type}.
Implicit Types (x y : value * A) (l r d : list (value * A)).

Lemma item_below_trans x y z :
  item_below x y -> item_below y z -> item_below x z.
Proof. apply key_ltb_trans. Qed.

Lemma item_below_irrefl x : ~ item_below x x.
Proof. unfold item_below. rewrite key_ltb_irrefl. discriminate. Qed.

Lemma insert_sorted_strict x l r :
  StronglySorted item_below l ->
  ~ In (key_norm (fst x)) (map (fun y => key_norm (fst y)) l) ->
  insert_sorted item_lt x l = Ok r ->
  StronglySorted item_below r.
Proof.
  intros Hl. revert r.
  induction Hl as [|y l Hl IH Hy]; intros r Hx; cbn [insert_sorted].
  - intros [= <-]. repeat constructor.
  - unfold item_lt at 1.
    destruct (key_lt (fst y) (fst x)) as [[|]|e] eqn:E; cbn [bind];
      [| |discriminate].
    + destruct (insert_sorted item_lt x l) as [r'|e] eqn:Er; cbn [bind];
        [|discriminate].
      intros [= <-]. constructor.
      * apply IH; [|reflexivity]. intros Hin. apply Hx. right. exact Hin.
      * apply insert_sorted_perm in Er.
        apply Forall_forall. intros z Hz.
        apply (Permutation_in _ (Permutation_sym Er)) in Hz.
        destruct Hz as [<-|Hz].
        -- unfold item_below, key_ltb. rewrite E. reflexivity.
        -- rewrite Forall_forall in Hy. apply Hy, Hz.
    + intros [= <-].
      assert (Hxy : item_below x y).
      { unfold item_below, key_ltb. rewrite (key_lt_total _ _ E); auto.
        intros Heq. apply Hx. left. exact Heq. }
      constructor; [constructor; assumption|].
      constructor; [exact Hxy|].
      eapply Forall_impl; [|exact Hy].
      intros z Hz. eapply item_below_trans; eassumption.
Qed.

(** When [sorted] returns, the keys go strictly up. *)
Lemma py_sorted_strict d r :
  keys_nodup d ->
  py_sorted item_lt d = Ok r ->
  StronglySorted item_below r.
Proof.
  unfold keys_nodup. revert r.
  induction d as [|x d IH]; intros r Hnd; cbn [py_sorted].
  - intros [= <-]. constructor.
  - cbn [map] in Hnd. apply NoDup_cons_iff in Hnd as [Hx Hnd].
    destruct (py_sorted item_lt d) as [s|e] eqn:Es; cbn [bind];
      [|discriminate].
    apply insert_sorted_strict; [apply IH; auto|].
    intros Hin. apply Hx.
    apply py_sorted_perm in Es.
    eapply Permutation_in; [|exact Hin].
    apply Permutation_map, Permutation_sym, Es.
Qed.

(** Two strictly sorted lists with the same items are equal. *)
Lemma sorted_perm_unique l r :
  StronglySorted item_below l -> StronglySorted item_below r ->
  Permutation l r -> l = r.
Proof.
  intros Hl. revert r.
  induction Hl as [|x l Hl IH Hx]; intros r Hr Hp.
  - apply Permutation_nil in Hp. congruence.
  - destruct Hr as [|y r Hr Hy].
    { apply Permutation_sym, Permutation_nil in Hp. discriminate. }
    assert (x = y) as <-.
    { assert (Hin1 : In x (y :: r))
        by (eapply Permutation_in; [exact Hp | left; reflexivity]).
      assert (Hin2 : In y (x :: l))
        by (eapply Permutation_in;
            [apply Permutation_sym, Hp | left; reflexivity]).
      destruct Hin1 as [->|Hin1]; [reflexivity|].
      destruct Hin2 as [->|Hin2]; [reflexivity|].
      rewrite Forall_forall in Hx, Hy.
      exfalso. apply (item_below_irrefl x).
      eapply item_below_trans; eauto. }
    f_equal. apply IH; [exact Hr|]. eapply Permutation_cons_inv, Hp.
Qed.

Lemma insert_sorted_homogeneous k x l :
  kind_of (fst x) = Some k ->
  Forall (fun y => kind_of (fst y) = Some k) l ->
  exists r, insert_sorted item_lt x l = Ok r.
Proof.
  intros Hx Hl. induction Hl as [|y l Hy Hl IH]; cbn [insert_sorted].
  - eauto.
  - unfold item_lt at 1. rewrite (key_lt_same_kind _ _ k Hy Hx).
    cbn [bind]. destruct (key_ltb (fst y) (fst x)); [|eauto].
    destruct IH as [r ->]. cbn [bind]. eauto.
Qed.

(** [sorted] returns when all keys are of one kind. *)
Lemma py_sorted_homogeneous d :
  homogeneous d -> exists r, py_sorted item_lt d = Ok r.
Proof.
  intros [k Hk]. induction Hk as [|x d Hx Hd IH]; cbn [py_sorted].
  - eauto.
  - destruct IH as [s Hs]. rewrite Hs. cbn [bind].
    apply (insert_sorted_homogeneous k); [exact Hx|].
    apply py_sorted_perm in Hs.
    eapply Permutation_Forall; eassumption.
Qed.

Lemma insert_sorted_raise x l e :
  insert_sorted item_lt x l = Raise e -> e = TypeError.
Proof.
  induction l as [|y l IH]; cbn [insert_sorted]; [discriminate|].
  unfold item_lt at 1. pose proof (key_lt_kind (fst y) (fst x)) as Hk.
  destruct (key_lt (fst y) (fst x)) as [[|]|e']; cbn [bind].
  - destruct (insert_sorted item_lt x l); cbn [bind]; [discriminate|].
    intros [= <-]. apply IH. reflexivity.
  - discriminate.
  - intros [= <-]. apply Hk.
Qed.

(** The only exception [sorted] raises is the [TypeError] of a
    comparison. *)
Lemma py_sorted_raise d e :
  py_sorted item_lt d = Raise e -> e = TypeError.
Proof.
  induction d as [|x d IH]; cbn [py_sorted]; [discriminate|].
  destruct (py_sorted item_lt d) as [s|e']; cbn [bind].
  - apply insert_sorted_raise.
  - intros [= <-]. apply IH. reflexivity.
Qed.

(** When [sorted] returns, there was at most one item or all keys were
    of one kind. *)
Lemma py_sorted_ok_inv d r :
  py_sorted item_lt d = Ok r -> (length d <= 1)%nat \/ homogeneous d.
Proof.
  revert r. induction d as [|x d IH]; intros r; cbn [py_sorted].
  - intros _. left. cbn. lia.
  - destruct (py_sorted item_lt d) as [s|e] eqn:Es; cbn [bind];
      [|discriminate].
    intros Hins. destruct d as [|y d]; [left; cbn; lia|]. right.
    pose proof (py_sorted_perm _ _ _ Es) as Hp.
    destruct s as [|z s].
    { apply Permutation_sym, Permutation_nil in Hp. discriminate. }
    cbn [insert_sorted] in Hins. unfold item_lt at 1 in Hins.
    pose proof (key_lt_kind (fst z) (fst x)) as Hk.
    destruct (key_lt (fst z) (fst x)) as [c|e]; [|discriminate].
    destruct Hk as (k & Hz & Hx).
    exists k. constructor; [exact Hx|].
    destruct (IH _ eq_refl) as [Hlen|[k' Hk']].
    + destruct d; [|cbn in Hlen; lia].
      apply Permutation_length_1_inv in Hp. injection Hp as <- _.
      constructor; [exact Hz|constructor].
    + assert (Hz' : kind_of (fst z) = Some k').
      { rewrite Forall_forall in Hk'. apply Hk'.
        eapply Permutation_in; [apply Permutation_sym, Hp|left; reflexivity]. }
      assert (k' = k) as -> by congruence. exact Hk'.
Qed.

(** The result of [sorted] does not depend on the order of the items. *)
Lemma py_sorted_permutation d1 d2 :
  keys_nodup d1 -> Permutation d1 d2 ->
  py_sorted item_lt d1 = py_sorted item_lt d2.
Proof.
  intros Hnd Hp.
  assert (Hnd2 : keys_nodup d2).
  { unfold keys_nodup in *. eapply Permutation_NoDup; [|exact Hnd].
    apply Permutation_map, Hp. }
  assert (Hok : forall (a b ra : list (value * A)),
            keys_nodup a -> keys_nodup b ->
            Permutation a b -> py_sorted item_lt a = Ok ra ->
            py_sorted item_lt b = Ok ra).
  { intros a b ra Ha Hb Hab Hra.
    destruct (py_sorted_ok_inv _ _ Hra) as [Hlen|[k Hk]].
    - destruct a as [|x [|y a]]; [| |cbn in Hlen; lia].
      + apply Permutation_nil in Hab. subst b. exact Hra.
      + apply Permutation_length_1_inv in Hab. subst b. exact Hra.
    - destruct (py_sorted_homogeneous b) as [rb Hrb].
      { exists k. eapply Permutation_Forall; eassumption. }
      rewrite Hrb. f_equal. symmetry.
      apply sorted_perm_unique.
      + apply (py_sorted_strict a); assumption.
      + apply (py_sorted_strict b); assumption.
      + rewrite <- (py_sorted_perm _ _ _ Hra), <- (py_sorted_perm _ _ _ Hrb).
        exact Hab. }
  destruct (py_sorted item_lt d1) as [r1|e1] eqn:E1.
  - symmetry. eapply Hok; eauto.
  - destruct (py_sorted item_lt d2) as [r2|e2] eqn:E2.
    + rewrite (Hok d2 d1 r2 Hnd2 Hnd (Permutation_sym Hp) E2) in E1.
      discriminate.
    + apply py_sorted_raise in E1, E2. congruence.
Qed.
End SortedItems.

(** ** Decoding an integer and a byte string *)

Create Rewrite HintDb len.
#[local] Hint Rewrite @len_app @len_cons @len_nil : len.

Ltac lens := autorewrite with len in *; lia.

Lemma uint_bytes_In (d : Decimal.uint) (c : byte) :
  In c (uint_bytes d) -> is_digit c = true.
Proof.
  intros H. pose proof (uint_bytes_digits d) as Hd.
  rewrite Forall_forall in Hd. apply Hd, H.
Qed.

Lemma int_bytes_In (z : Z) (c : byte) :
  In c (int_bytes z) -> is_digit c = true \/ c = "-"%byte.
Proof.
  rewrite int_bytes_eq. destruct (Z.to_int z) as [d|d].
  - intros H. left. eapply uint_bytes_In, H.
  - intros [<-|H]; [right; reflexivity|]. left. eapply uint_bytes_In, H.
Qed.

Lemma int_bytes_no_end (z : Z) : ~ In "e"%byte (int_bytes z).
Proof. intros H. apply int_bytes_In in H as [H|H]; discriminate. Qed.

Lemma int_bytes_no_colon (z : Z) : ~ In ":"%byte (int_bytes z).
Proof. intros H. apply int_bytes_In in H as [H|H]; discriminate. Qed.

(** The decimal form of a number that is not negative starts with a
    digit. *)
Lemma int_bytes_nonneg (z : Z) :
  0 <= z -> exists c r, int_bytes z = c :: r /\ is_digit c = true.
Proof.
  intros Hz. rewrite int_bytes_eq. pose proof (to_int_nonnil z) as Hn.
  destruct z as [|p|p]; [| |lia]; cbn [Z.to_int] in *.
  - exists "0"%byte, []. split; reflexivity.
  - destruct (uint_bytes_nonnil _ Hn) as (k & d' & Hk & -> & _).
    eexists _, _. split; [reflexivity|]. apply is_digit_octet, Hk.
Qed.

(** [_decode_int] reads back an integer that [_encode_int] wrote, wherever
    it stands in the buffer. *)
Lemma _decode_int_encoded (z : Z) (pre post : bytes) :
  _decode_int (pre ++ (INTEGER ++ int_bytes z ++ END) ++ post) (len pre) =
  Ok (VInt z, len pre + len (INTEGER ++ int_bytes z ++ END)).
Proof.
  unfold _decode_int.
  change INTEGER with ["i"%byte]. change END with ["e"%byte].
  cbn [app]. rewrite <- !app_assoc. cbn [app].
  replace (pre ++ "i"%byte :: int_bytes z ++ "e"%byte :: post)
    with ((pre ++ ["i"%byte]) ++ int_bytes z ++ "e"%byte :: post)
    by (rewrite <- app_assoc; reflexivity).
  replace (len pre + 1) with (len (pre ++ ["i"%byte]))
    by (rewrite len_app; reflexivity).
  rewrite py_index_segment by apply int_bytes_no_end.
  cbn [bind]. rewrite py_slice_segment, py_int_int_bytes. cbn [bind].
  do 2 f_equal. lens.
Qed.

(** [_decode_str] reads back a byte string that [_encode_bytes] wrote. *)
Lemma _decode_str_encoded (w pre post : bytes) :
  _decode_str (pre ++ (int_bytes (len w) ++ COLON ++ w) ++ post) (len pre) =
  Ok (surface w, len pre + len (int_bytes (len w) ++ COLON ++ w)).
Proof.
  unfold _decode_str. change COLON with [":"%byte].
  rewrite <- !app_assoc. cbn [app].
  rewrite py_index_segment by apply int_bytes_no_colon.
  cbn [bind]. rewrite py_slice_segment, py_int_int_bytes. cbn [bind].
  replace (pre ++ int_bytes (len w) ++ ":"%byte :: w ++ post)
    with ((pre ++ int_bytes (len w) ++ [":"%byte]) ++ w ++ post)
    by (rewrite <- !app_assoc; reflexivity).
  replace (len pre + len (int_bytes (len w)) + 1)
    with (len (pre ++ int_bytes (len w) ++ [":"%byte]))
    by lens.
  rewrite py_slice_segment. unfold surface.
  do 2 f_equal. lens.
Qed.

(** ** The decoder: one step, and more fuel *)

Lemma _decode_S (fuel : nat) (encoded : bytes) (i : Z) :
  _decode (S fuel) encoded i =
  let char := py_slice encoded i (i + 1) in
  if bytes_eqb char INTEGER then Some (_decode_int encoded i)
  else if isdigit char then Some (_decode_str encoded i)
  else if bytes_eqb char DICT then _decode_dict fuel encoded i
  else if bytes_eqb char LIST then _decode_list fuel encoded i
  else Some (Raise BencodeDecodeError).
Proof. reflexivity. Qed.

Lemma _decode_dict_loop_S (fuel : nat) (data : bytes) (i : Z)
  (result : list (value * value)) :
  _decode_dict_loop (S fuel) data i result =
  if negb (bytes_eqb (py_slice data i (i + 1)) END) then
    match _decode_str data i with
    | Raise e => Some (Raise e)
    | Ok (key, i1) =>
        match _decode fuel data i1 with
        | None => None
        | Some (Raise e) => Some (Raise e)
        | Some (Ok (v, i2)) =>
            _decode_dict_loop fuel data i2 (dict_set result key v)
        end
    end
  else Some (Ok (VDict result, i + 1)).
Proof. reflexivity. Qed.

Lemma _decode_list_loop_S (fuel : nat) (data : bytes) (i : Z)
  (items : list value) :
  _decode_list_loop (S fuel) data i items =
  if negb (bytes_eqb (py_slice data i (i + 1)) END) then
    match _decode fuel data i with
    | None => None
    | Some (Raise e) => Some (Raise e)
    | Some (Ok (item, i1)) =>
        _decode_list_loop fuel data i1 (items ++ [item])
    end
  else Some (Ok (VList items, i + 1)).
Proof. reflexivity. Qed.

(** A run that ended ends the same way with one more unit of fuel. *)
Lemma fuel_succ (n : nat) :
  (forall data i r, _decode n data i = Some r ->
                    _decode (S n) data i = Some r) /\
  (forall data i d r, _decode_dict_loop n data i d = Some r ->
                      _decode_dict_loop (S n) data i d = Some r) /\
  (forall data i l r, _decode_list_loop n data i l = Some r ->
                      _decode_list_loop (S n) data i l = Some r).
Proof.
  induction n as [|n (IHv & IHd & IHl)].
  - repeat split; intros; discriminate.
  - repeat split.
    + intros data i r. rewrite (_decode_S (S n)), (_decode_S n). cbv zeta.
      unfold _decode_dict, _decode_list.
      destruct (bytes_eqb _ INTEGER); [auto|].
      destruct (isdigit _); [auto|].
      destruct (bytes_eqb _ DICT); [apply IHd|].
      destruct (bytes_eqb _ LIST); [apply IHl|]. auto.
    + intros data i d r.
      rewrite (_decode_dict_loop_S (S n)), (_decode_dict_loop_S n).
      destruct (negb _); [|auto].
      destruct (_decode_str data i) as [[key i1]|e]; [|auto].
      destruct (_decode n data i1) as [[[v i2]|e]|] eqn:E; [| |discriminate].
      * rewrite (IHv _ _ _ E). apply IHd.
      * rewrite (IHv _ _ _ E). auto.
    + intros data i l r.
      rewrite (_decode_list_loop_S (S n)), (_decode_list_loop_S n).
      destruct (negb _); [|auto].
      destruct (_decode n data i) as [[[v i2]|e]|] eqn:E; [| |discriminate].
      * rewrite (IHv _ _ _ E). apply IHl.
      * rewrite (IHv _ _ _ E). auto.
Qed.

Lemma _decode_fuel_mono (n m : nat) (data : bytes) (i : Z)
  (r : res (value * Z)) :
  (n <= m)%nat -> _decode n data i = Some r -> _decode m data i = Some r.
Proof.
  induction 1 as [|m _ IH]; [auto|].
  intros H. apply fuel_succ, IH, H.
Qed.

Lemma _decode_list_loop_fuel_mono (n m : nat) (data : bytes) (i : Z)
  (l : list value) (r : res (value * Z)) :
  (n <= m)%nat ->
  _decode_list_loop n data i l = Some r ->
  _decode_list_loop m data i l = Some r.
Proof.
  induction 1 as [|m _ IH]; [auto|].
  intros H. apply fuel_succ, IH, H.
Qed.

Lemma _decode_dict_loop_fuel_mono (n m : nat) (data : bytes) (i : Z)
  (d : list (value * value)) (r : res (value * Z)) :
  (n <= m)%nat ->
  _decode_dict_loop n data i d = Some r ->
  _decode_dict_loop m data i d = Some r.
Proof.
  induction 1 as [|m _ IH]; [auto|].
  intros H. apply fuel_succ, IH, H.
Qed.

Lemma decode_fuel_mono (n m : nat) (data : bytes_or_str) (r : res value) :
  (n <= m)%nat -> decode n data = Some r -> decode m data = Some r.
Proof.
  intros Hnm. unfold decode.
  destruct (match data with Str s => str_encode s | Bytes b => Ok b end)
    as [b|e]; [|auto].
  destruct (_decode n b 0) as [r0|] eqn:E; [|discriminate].
  rewrite (_decode_fuel_mono n m b 0 r0 Hnm E). auto.
Qed.

(** ** The loops of the decoder over encoded elements *)

Lemma reads_mono (b : bytes) (v : value) (n m : nat) :
  (n <= m)%nat -> reads b v n -> reads b v m.
Proof. intros Hnm H pre post fuel Hf. apply H. lia. Qed.

Lemma opens_not_end (b pre post : bytes) :
  opens b ->
  negb (bytes_eqb (py_slice (pre ++ b ++ post) (len pre) (len pre + 1)) END)
  = true.
Proof.
  destruct b as [|c b]; [contradiction|]. cbn [opens app]. intros Hc.
  rewrite py_slice_byte. change END with ["e"%byte]. cbn [bytes_eqb].
  apply byte_eqb_neq in Hc. rewrite Hc. reflexivity.
Qed.

Lemma at_end (pre post : bytes) :
  negb (bytes_eqb (py_slice (pre ++ END ++ post) (len pre) (len pre + 1)) END)
  = false.
Proof.
  change END with ["e"%byte]. cbn [app]. rewrite py_slice_byte.
  reflexivity.
Qed.

Lemma bytes_enc_opens (w : bytes) : opens (bytes_enc w).
Proof.
  unfold bytes_enc.
  destruct (int_bytes_nonneg (len w) (len_nonneg w)) as (c & r & -> & Hc).
  cbn [app opens]. intros ->. discriminate.
Qed.

(** The loop of [_decode_list] over the encodings of [elts], up to the end
    marker. *)
Lemma _decode_list_loop_reads (n : nat) (elts : list (bytes * value)) :
  Forall (fun e => opens (fst e) /\ reads (fst e) (snd e) n) elts ->
  forall pre post items fuel,
    (n + length elts + 1 <= fuel)%nat ->
    _decode_list_loop fuel
      (pre ++ (concat (map fst elts) ++ END) ++ post) (len pre) items =
    Some (Ok (VList (items ++ map snd elts),
              len pre + len (concat (map fst elts) ++ END))).
Proof.
  induction 1 as [|[b v] elts [Hb Hr] _ IH]; intros pre post items fuel Hf.
  - destruct fuel as [|fuel]; [cbn in Hf; lia|].
    rewrite _decode_list_loop_S. cbn [map concat app].
    rewrite at_end, List.app_nil_r. reflexivity.
  - destruct fuel as [|fuel]; [cbn in Hf; lia|].
    rewrite _decode_list_loop_S. cbn [map concat fst snd] in *.
    rewrite <- !app_assoc. rewrite opens_not_end by exact Hb.
    rewrite Hr by (cbn [length] in Hf; lia).
    replace (pre ++ b ++ concat (map fst elts) ++ END ++ post)
      with ((pre ++ b) ++ (concat (map fst elts) ++ END) ++ post)
      by (rewrite <- !app_assoc; reflexivity).
    replace (len pre + len b) with (len (pre ++ b)) by lens.
    rewrite IH by (cbn [length] in Hf; lia).
    rewrite <- app_assoc. cbn [app]. do 3 f_equal. lens.
Qed.

(** The loop of [_decode_dict] over encoded keys and values, up to the end
    marker: each pair is stored in the order of the buffer. *)
Lemma _decode_dict_loop_reads (n : nat) (elts : list (bytes * (bytes * value))) :
  Forall (fun e => opens (fst (snd e)) /\
                   reads (fst (snd e)) (snd (snd e)) n) elts ->
  forall pre post result fuel,
    (n + length elts + 1 <= fuel)%nat ->
    _decode_dict_loop fuel
      (pre ++ (concat (map (fun e => bytes_enc (fst e) ++ fst (snd e)) elts)
               ++ END) ++ post) (len pre) result =
    Some (Ok (VDict (fold_left
                       (fun r e => dict_set r (surface (fst e)) (snd (snd e)))
                       elts result),
              len pre +
              len (concat (map (fun e => bytes_enc (fst e) ++ fst (snd e)) elts)
                   ++ END))).
Proof.
  induction 1 as [|[w [b v]] elts [Hb Hr] _ IH];
    intros pre post result fuel Hf.
  - destruct fuel as [|fuel]; [cbn in Hf; lia|].
    rewrite _decode_dict_loop_S. cbn [map concat app fold_left].
    rewrite at_end. reflexivity.
  - destruct fuel as [|fuel]; [cbn in Hf; lia|].
    rewrite _decode_dict_loop_S. cbn [map concat fst snd fold_left] in *.
    rewrite <- !app_assoc.
    rewrite opens_not_end by apply bytes_enc_opens.
    replace (pre ++ bytes_enc w ++ b ++
             concat (map (fun e => bytes_enc (fst e) ++ fst (snd e)) elts) ++
             END ++ post)
      with (pre ++ bytes_enc w ++
            (b ++ concat (map (fun e => bytes_enc (fst e) ++ fst (snd e)) elts)
             ++ END ++ post)) by reflexivity.
    unfold bytes_enc at 1 2. rewrite _decode_str_encoded.
    fold (bytes_enc w).
    replace (pre ++ bytes_enc w ++ b ++
             concat (map (fun e => bytes_enc (fst e) ++ fst (snd e)) elts) ++
             END ++ post)
      with ((pre ++ bytes_enc w) ++ b ++
            (concat (map (fun e => bytes_enc (fst e) ++ fst (snd e)) elts)
             ++ END ++ post)) by (rewrite <- !app_assoc; reflexivity).
    replace (len pre + len (bytes_enc w)) with (len (pre ++ bytes_enc w))
      by lens.
    rewrite Hr by (cbn [length] in Hf; lia).
    replace ((pre ++ bytes_enc w) ++ b ++
             concat (map (fun e => bytes_enc (fst e) ++ fst (snd e)) elts) ++
             END ++ post)
      with (((pre ++ bytes_enc w) ++ b) ++
            (concat (map (fun e => bytes_enc (fst e) ++ fst (snd e)) elts)
             ++ END) ++ post) by (rewrite <- !app_assoc; reflexivity).
    replace (len (pre ++ bytes_enc w) + len b)
      with (len ((pre ++ bytes_enc w) ++ b)) by lens.
    rewrite IH by (cbn [length] in Hf; lia).
    do 3 f_equal. lens.
Qed.

(** ** Facts about the value model *)

Lemma scalarb_scalar (c : Z) : scalarb c = true <-> scalar c.
Proof.
  unfold scalarb, scalar, codepoint.
  rewrite !andb_true_iff, negb_true_iff, !Z.leb_le. tauto.
Qed.

Lemma forallb_scalarb (s : list Z) :
  forallb scalarb s = true <-> Forall scalar s.
Proof.
  rewrite forallb_forall, Forall_forall.
  split; intros H c Hc; apply scalarb_scalar, H, Hc.
Qed.

Lemma utf8_cp_scalar (c : Z) : scalar c -> exists e, utf8_cp c = Some e.
Proof.
  intros [_ Hs]. unfold utf8_cp. rewrite Hs.
  destruct (c <? 128), (c <? 2048), (c <? 65536); eauto.
Qed.

(** The strict encoder accepts a [str] without surrogates. *)
Lemma str_encode_scalar (s : list Z) :
  Forall scalar s -> exists w, str_encode s = Ok w.
Proof.
  induction 1 as [|c s Hc _ [w IH]]; cbn [str_encode]; [eauto|].
  destruct (utf8_cp_scalar c Hc) as [e ->]. rewrite IH. cbn [bind]. eauto.
Qed.

Lemma scalar_codepoint (s : list Z) : Forall scalar s -> Forall codepoint s.
Proof. apply Forall_impl. intros c [H _]. exact H. Qed.

(** A byte string of the model encodes as its bytes after their length. *)
Lemma encode_bytestring (k : value) :
  (is_bytes k || is_str k) = true -> in_model k = true ->
  exists w, wire_bytes k = Some w /\ encode k = Ok (bytes_enc w).
Proof.
  destruct k; try discriminate; intros _ Hm.
  - exists b. split; [reflexivity|]. apply _encode_bytes_eq.
  - cbn [in_model] in Hm. apply forallb_scalarb in Hm.
    destruct (str_encode_scalar s Hm) as [w Hw].
    exists w. cbn [wire_bytes encode]. unfold _encode_str. rewrite Hw.
    split; [reflexivity|]. apply _encode_bytes_eq.
Qed.

Lemma wire_bytes_surface (w : bytes) : wire_bytes (surface w) = Some w.
Proof.
  unfold surface. destruct (bytes_decode w) as [s|] eqn:E; [|reflexivity].
  apply str_encode_bytes_decode in E as [E _]. cbn. rewrite E. reflexivity.
Qed.

(** A [str] of the model shows again as itself. *)
Lemma surface_str (s : list Z) (w : bytes) :
  Forall scalar s -> str_encode s = Ok w -> surface w = VStr s.
Proof.
  intros Hs Hw. unfold surface.
  rewrite (bytes_decode_str_encode s w (scalar_codepoint s Hs) Hw).
  reflexivity.
Qed.

Lemma same_value_surface (k : value) (w : bytes) :
  wire_bytes k = Some w -> same_value k (surface w).
Proof.
  intros H. apply (same_bytestring _ _ w H), wire_bytes_surface.
Qed.

Lemma reads_int (z : Z) : reads (INTEGER ++ int_bytes z ++ END) (VInt z) 1.
Proof.
  intros pre post [|fuel] Hf; [lia|].
  rewrite _decode_S. cbv zeta.
  assert (Hch : py_slice (pre ++ (INTEGER ++ int_bytes z ++ END) ++ post)
                  (len pre) (len pre + 1) = ["i"%byte])
    by apply py_slice_byte.
  rewrite Hch. change (bytes_eqb ["i"%byte] INTEGER) with true. cbv iota.
  rewrite _decode_int_encoded. reflexivity.
Qed.

Lemma reads_bytes (w : bytes) : reads (bytes_enc w) (surface w) 1.
Proof.
  intros pre post [|fuel] Hf; [lia|].
  rewrite _decode_S. cbv zeta. unfold bytes_enc.
  destruct (int_bytes_nonneg (len w) (len_nonneg w)) as (c & r & Hcr & Hc).
  assert (Hch : py_slice (pre ++ (int_bytes (len w) ++ COLON ++ w) ++ post)
                  (len pre) (len pre + 1) = [c]).
  { rewrite Hcr. apply py_slice_byte. }
  rewrite Hch.
  assert (Hi : bytes_eqb [c] INTEGER = false).
  { apply bytes_eqb_neq. intros [= ->]. discriminate. }
  rewrite Hi. cbn [isdigit forallb]. rewrite Hc. cbn [andb].
  rewrite _decode_str_encoded. reflexivity.
Qed.

(** ** Round trip *)

Lemma Forall_exists_Forall2 {A C} (R : A -> C -> Prop) (l : list A) :
  Forall (fun x => exists y, R x y) l -> exists l', Forall2 R l l'.
Proof.
  induction 1 as [|x l [y Hy] _ [l' IH]].
  - exists []. constructor.
  - exists (y :: l'). constructor; assumption.
Qed.

Lemma roundtrip_int (z : Z) : roundtrips (VInt z).
Proof.
  exists (INTEGER ++ int_bytes z ++ END), (VInt z).
  split; [apply _encode_int_eq|]. split; [discriminate|].
  split; [constructor | apply reads_int].
Qed.

Lemma roundtrip_bytestring (k : value) :
  (is_bytes k || is_str k) = true -> in_model k = true -> roundtrips k.
Proof.
  intros Hk Hm. destruct (encode_bytestring k Hk Hm) as (w & Hw & He).
  exists (bytes_enc w), (surface w).
  split; [exact He|]. split; [apply bytes_enc_opens|].
  split; [apply same_value_surface, Hw|].
  eapply reads_mono; [|apply reads_bytes]. destruct k; cbn; lia.
Qed.

Lemma elts_join (l : list value) (elts : list (bytes * value)) :
  Forall2 elt_ok l elts ->
  join (map encode l) = Ok (concat (map fst elts)).
Proof.
  induction 1 as [|x e l elts (He & _) _ IH]; [reflexivity|].
  cbn [map join concat]. rewrite He, IH. reflexivity.
Qed.

Lemma elts_reads (l : list value) (elts : list (bytes * value)) :
  Forall2 elt_ok l elts ->
  Forall (fun e => opens (fst e) /\
                   reads (fst e) (snd e) (list_sum (map weight l))) elts.
Proof.
  induction 1 as [|x e l elts (_ & Ho & _ & Hr) _ IH]; [constructor|].
  change (list_sum (map weight (x :: l)))
    with (weight x + list_sum (map weight l))%nat.
  constructor.
  - split; [exact Ho|]. eapply reads_mono; [|exact Hr]. lia.
  - eapply Forall_impl; [|exact IH]. intros e' [Ho' Hr'].
    split; [exact Ho'|]. eapply reads_mono; [|exact Hr']. lia.
Qed.

Lemma elts_same (l : list value) (elts : list (bytes * value)) :
  Forall2 elt_ok l elts -> Forall2 same_value l (map snd elts).
Proof.
  induction 1 as [|x e l elts (_ & _ & Hs & _) _ IH]; constructor; auto.
Qed.

Lemma roundtrip_list (l : list value) :
  Forall roundtrips l -> roundtrips (VList l).
Proof.
  intros Hl.
  assert (exists elts, Forall2 elt_ok l elts) as [elts He].
  { apply Forall_exists_Forall2. eapply Forall_impl; [|exact Hl].
    intros x (b & v' & H). exists (b, v'). exact H. }
  exists (LIST ++ concat (map fst elts) ++ END), (VList (map snd elts)).
  split. { rewrite encode_list_eq, (elts_join l elts He). reflexivity. }
  split. { discriminate. }
  split. { constructor. apply elts_same, He. }
  intros pre post [|fuel] Hf; [cbn in Hf; lia|].
  rewrite _decode_S. cbv zeta.
  assert (Hch : py_slice (pre ++ (LIST ++ concat (map fst elts) ++ END) ++ post)
                  (len pre) (len pre + 1) = ["l"%byte])
    by apply py_slice_byte.
  rewrite Hch.
  change (bytes_eqb ["l"%byte] INTEGER) with false.
  change (isdigit ["l"%byte]) with false.
  change (bytes_eqb ["l"%byte] DICT) with false.
  change (bytes_eqb ["l"%byte] LIST) with true. cbv iota.
  unfold _decode_list.
  replace (pre ++ (LIST ++ concat (map fst elts) ++ END) ++ post)
    with ((pre ++ LIST) ++ (concat (map fst elts) ++ END) ++ post)
    by (rewrite <- !app_assoc; reflexivity).
  replace (len pre + 1) with (len (pre ++ LIST)) by (change LIST with ["l"%byte]; lens).
  rewrite (_decode_list_loop_reads (list_sum (map weight l)) elts
             (elts_reads l elts He)).
  - cbn [app]. do 3 f_equal. change LIST with ["l"%byte]. lens.
  - cbn [weight] in Hf. rewrite <- (Forall2_length He). lia.
Qed.

(** *** Keys that are byte strings *)

Lemma key_eqb_bytestring (a b : value) :
  is_bytestring a = true -> (key_eqb a b = true <-> a = b).
Proof.
  destruct a; try discriminate; intros _; destruct b; cbn;
    try (split; [discriminate | discriminate]).
  - rewrite bytes_eqb_eq. split; congruence.
  - destruct (list_eq_dec Z.eq_dec s s0); split; congruence.
Qed.

Lemma surface_bytestring (w : bytes) : is_bytestring (surface w) = true.
Proof. unfold surface. destruct (bytes_decode w); reflexivity. Qed.

Lemma surface_inj (w1 w2 : bytes) : surface w1 = surface w2 -> w1 = w2.
Proof.
  intros H. pose proof (wire_bytes_surface w1) as H1.
  rewrite H, wire_bytes_surface in H1. congruence.
Qed.

Lemma dict_set_fresh (result : list (value * value)) (k v : value) :
  Forall (fun kv => key_eqb (fst kv) k = false) result ->
  dict_set result k v = result ++ [(k, v)].
Proof.
  induction 1 as [|[k' x] result Hk _ IH]; [reflexivity|].
  cbn [dict_set app]. cbn [fst] in Hk. rewrite Hk, IH. reflexivity.
Qed.

(** Storing pairs with fresh keys appends them. *)
Lemma fold_dict_set_fresh (elts : list (bytes * (bytes * value)))
  (result : list (value * value)) :
  NoDup (map fst elts) ->
  Forall (fun kv => forall e, In e elts ->
                    key_eqb (fst kv) (surface (fst e)) = false) result ->
  fold_left (fun r e => dict_set r (surface (fst e)) (snd (snd e))) elts result
  = result ++ map (fun e => (surface (fst e), snd (snd e))) elts.
Proof.
  revert result. induction elts as [|e elts IH]; intros result Hnd Hres.
  - cbn. symmetry. apply List.app_nil_r.
  - cbn [fold_left map]. cbn [map] in Hnd.
    apply NoDup_cons_iff in Hnd as [He Hnd].
    rewrite dict_set_fresh.
    2: { eapply Forall_impl; [|exact Hres]. intros kv H. apply H. left.
         reflexivity. }
    rewrite IH; [rewrite <- app_assoc; reflexivity | exact Hnd |].
    apply Forall_app. split.
    + eapply Forall_impl; [|exact Hres]. intros kv H e' He'. apply H.
      right. exact He'.
    + constructor; [|constructor]. cbn [fst]. intros e' He'.
      destruct (key_eqb (surface (fst e)) (surface (fst e'))) eqn:E;
        [|reflexivity].
      apply key_eqb_bytestring in E; [|apply surface_bytestring].
      apply surface_inj in E. exfalso. apply He. rewrite E.
      apply in_map, He'.
Qed.

Lemma keys_nodupb_NoDup (d : list (value * value)) :
  forallb (fun kv => is_bytestring (fst kv)) d = true ->
  keys_nodupb d = true -> NoDup (map fst d).
Proof.
  induction d as [|[k x] d IH]; cbn [forallb keys_nodupb map fst].
  - intros _ _. constructor.
  - rewrite !andb_true_iff, negb_true_iff. intros [Hk Hd] [Hex Hnd].
    constructor; [|apply IH; assumption].
    intros Hin. apply in_map_iff in Hin as ([k' x'] & Hk' & Hin).
    cbn [fst] in Hk'. subst k'.
    assert (existsb (fun kv => key_eqb k (fst kv)) d = true); [|congruence].
    apply existsb_exists. exists (k, x'). split; [exact Hin|].
    apply key_eqb_bytestring; [exact Hk|reflexivity].
Qed.

(** Two keys of one kind in the model with the same bytes are equal. *)
Lemma wire_bytes_inj (a b : value) (w : bytes) :
  kind_of a = kind_of b -> in_model a = true -> in_model b = true ->
  wire_bytes a = Some w -> wire_bytes b = Some w -> a = b.
Proof.
  destruct a; try discriminate; destruct b; try discriminate; cbn;
    intros _ Ha Hb.
  - congruence.
  - apply forallb_scalarb, scalar_codepoint in Ha, Hb.
    destruct (str_encode s) as [w1|] eqn:E1; [|discriminate].
    destruct (str_encode s0) as [w2|] eqn:E2; [|discriminate].
    intros [= ->] [= ->].
    apply bytes_decode_str_encode in E1, E2; try assumption. congruence.
Qed.

(** *** Dicts *)

Lemma list_sum_In {A} (f : A -> nat) (x : A) (l : list A) :
  In x l -> (f x <= list_sum (map f l))%nat.
Proof.
  induction l as [|y l IH]; [contradiction|].
  change (list_sum (map f (y :: l))) with (f y + list_sum (map f l))%nat.
  intros [->|H]; [lia|]. apply IH in H. lia.
Qed.

Lemma items_join (sd : list (value * value))
  (elts : list (bytes * (bytes * value))) :
  Forall2 item_ok sd elts ->
  encode_items sd = Ok (concat (map item_enc elts)).
Proof.
  induction 1 as [|[k x] e sd elts (_ & Hk & Hx & _) _ IH]; [reflexivity|].
  rewrite encode_items_cons. cbn [fst snd] in Hk, Hx.
  rewrite Hk, Hx, IH. cbn [bind map concat]. unfold item_enc.
  rewrite <- app_assoc. reflexivity.
Qed.

Lemma items_reads (n : nat) (sd : list (value * value))
  (elts : list (bytes * (bytes * value))) :
  Forall2 item_ok sd elts ->
  Forall (fun kv => (weight (snd kv) <= n)%nat) sd ->
  Forall (fun e => opens (fst (snd e)) /\
                   reads (fst (snd e)) (snd (snd e)) n) elts.
Proof.
  induction 1 as [|kv e sd elts (_ & _ & _ & Ho & _ & Hr) _ IH];
    intros Hn; [constructor|].
  apply Forall_cons_iff in Hn as [Hkv Hn].
  constructor; [|apply IH, Hn].
  split; [exact Ho|]. eapply reads_mono; [exact Hkv | exact Hr].
Qed.

Lemma items_same (sd : list (value * value))
  (elts : list (bytes * (bytes * value))) :
  Forall2 item_ok sd elts ->
  Forall2 (fun p q => same_value (fst p) (fst q) /\
                      same_value (snd p) (snd q)) sd (map item_dec elts).
Proof.
  induction 1 as [|kv e sd elts (Hw & _ & _ & _ & Hs & _) _ IH];
    constructor; [|exact IH].
  split; [apply same_value_surface, Hw | exact Hs].
Qed.

Lemma items_In (sd : list (value * value))
  (elts : list (bytes * (bytes * value))) (e : bytes * (bytes * value)) :
  Forall2 item_ok sd elts -> In e elts ->
  exists kv, In kv sd /\ item_ok kv e.
Proof.
  induction 1 as [|kv e' sd elts He _ IH]; [contradiction|].
  intros [<-|Hin].
  - exists kv. split; [left; reflexivity | exact He].
  - destruct (IH Hin) as (kv' & Hkv' & Hok). exists kv'.
    split; [right; exact Hkv' | exact Hok].
Qed.

(** Items with different keys have different key bytes. *)
Lemma items_NoDup (sd : list (value * value))
  (elts : list (bytes * (bytes * value))) :
  Forall2 item_ok sd elts ->
  NoDup (map fst sd) ->
  (forall a b, In a sd -> In b sd ->
               wire_bytes (fst a) = wire_bytes (fst b) -> fst a = fst b) ->
  NoDup (map fst elts).
Proof.
  induction 1 as [|kv e sd elts He Hrest IH]; intros Hnd Hinj;
    [constructor|].
  cbn [map] in *. apply NoDup_cons_iff in Hnd as [Hkv Hnd].
  constructor.
  - intros Hin. apply in_map_iff in Hin as (e' & He' & Hin).
    destruct (items_In _ _ _ Hrest Hin) as (kv' & Hkv' & (Hw' & _)).
    destruct He as (Hw & _).
    apply Hkv. rewrite (Hinj kv kv'); [apply in_map, Hkv' | left; reflexivity
      | right; exact Hkv' | congruence].
  - apply IH; [exact Hnd|]. intros a b Ha Hb. apply Hinj; right; assumption.
Qed.

(** What [in_model] says of a dict. *)
Lemma in_model_dict (d : list (value * value)) :
  in_model (VDict d) = true ->
  homogeneous d /\
  NoDup (map fst d) /\
  Forall (fun kv => is_bytestring (fst kv) = true /\
                    in_model (fst kv) = true /\
                    in_model (snd kv) = true) d.
Proof.
  cbn [in_model]. rewrite !andb_true_iff, orb_true_iff.
  intros [[Hkind Hnd] Hall].
  assert (Hbs : forallb (fun kv => is_bytestring (fst kv)) d = true).
  { apply forallb_forall. intros kv Hkv. unfold is_bytestring.
    destruct Hkind as [H|H]; rewrite forallb_forall in H;
      rewrite (H kv Hkv); auto using orb_true_r. }
  split; [|split].
  - destruct Hkind as [H|H]; [exists KBytes | exists KStr];
      apply Forall_forall; intros [k x] Hkv;
      rewrite forallb_forall in H; specialize (H _ Hkv);
      destruct k; try discriminate; reflexivity.
  - apply keys_nodupb_NoDup; assumption.
  - apply Forall_forall. intros [k x] Hkv.
    rewrite forallb_forall in Hbs, Hall.
    specialize (Hbs _ Hkv). specialize (Hall _ Hkv). cbn beta iota in Hall.
    apply andb_true_iff in Hall as [Hk Hx]. auto.
Qed.

Lemma roundtrip_dict (d : list (value * value)) :
  in_model (VDict d) = true ->
  Forall (fun kv => in_model (snd kv) = true -> roundtrips (snd kv)) d ->
  roundtrips (VDict d).
Proof.
  intros Hm IHd.
  destruct (in_model_dict d Hm) as ([kd Hkd] & Hnd & Hall).
  destruct (py_sorted_homogeneous d (ex_intro _ kd Hkd)) as [sd Hs].
  pose proof (py_sorted_perm _ _ _ Hs) as Hp.
  set (n := list_sum (map (fun '(_, x) => weight x) d)).
  (* the sorted items and what they encode and decode to *)
  assert (exists elts, Forall2 item_ok sd elts) as [elts He].
  { apply Forall_exists_Forall2.
    apply (Permutation_Forall Hp).
    rewrite Forall_forall in *. intros [k x] Hkv.
    destruct (Hall _ Hkv) as (Hbs & Hk & Hx). cbn [fst snd] in *.
    destruct (encode_bytestring k Hbs Hk) as (w & Hw & Hek).
    destruct (IHd _ Hkv Hx) as (b & v' & Hx').
    exists (w, (b, v')). repeat split; try assumption; apply Hx'. }
  assert (Hnd' : NoDup (map fst elts)).
  { apply (items_NoDup sd elts He).
    - eapply Permutation_NoDup; [apply Permutation_map, Hp | exact Hnd].
    - intros a b Ha Hb Hab.
      apply (Permutation_in _ (Permutation_sym Hp)) in Ha, Hb.
      rewrite Forall_forall in Hall, Hkd.
      destruct (Hall _ Ha) as (Hbsa & Hma & _).
      destruct (Hall _ Hb) as (_ & Hmb & _).
      destruct (encode_bytestring _ Hbsa Hma) as (w & Hw & _).
      apply (wire_bytes_inj _ _ w); try assumption; try congruence.
      rewrite (Hkd _ Ha), (Hkd _ Hb). reflexivity. }
  exists (DICT ++ concat (map item_enc elts) ++ END),
    (VDict (map item_dec elts)).
  split.
  { rewrite encode_dict_eq, Hs. cbn [bind].
    rewrite (items_join sd elts He). reflexivity. }
  split. { discriminate. }
  split.
  { apply (same_dict d sd (map item_dec elts) _ Hp);
      [apply items_same, He | apply Permutation_refl]. }
  intros pre post [|fuel] Hf; [cbn in Hf; lia|].
  rewrite _decode_S. cbv zeta.
  assert (Hch : py_slice (pre ++ (DICT ++ concat (map item_enc elts) ++ END)
                          ++ post) (len pre) (len pre + 1) = ["d"%byte])
    by apply py_slice_byte.
  rewrite Hch.
  change (bytes_eqb ["d"%byte] INTEGER) with false.
  change (isdigit ["d"%byte]) with false.
  change (bytes_eqb ["d"%byte] DICT) with true. cbv iota.
  unfold _decode_dict.
  replace (pre ++ (DICT ++ concat (map item_enc elts) ++ END) ++ post)
    with ((pre ++ DICT) ++ (concat (map item_enc elts) ++ END) ++ post)
    by (rewrite <- !app_assoc; reflexivity).
  replace (len pre + 1) with (len (pre ++ DICT))
    by (change DICT with ["d"%byte]; lens).
  unfold item_enc.
  rewrite (_decode_dict_loop_reads n elts).
  - rewrite fold_dict_set_fresh by (try exact Hnd'; constructor).
    cbn [app]. do 2 f_equal. apply f_equal2; [reflexivity|].
    change (len (pre ++ DICT) + len (concat (map item_enc elts) ++ END) =
            len pre + len (DICT ++ concat (map item_enc elts) ++ END)).
    change DICT with ["d"%byte]. lens.
  - apply (items_reads n sd elts He).
    apply Forall_forall. intros [k x] Hkv.
    apply (Permutation_in _ (Permutation_sym Hp)) in Hkv.
    apply (list_sum_In (fun '(_, x) => weight x) (k, x) d Hkv).
  - cbn [weight] in Hf. fold n in Hf.
    rewrite <- (Forall2_length He), <- (Permutation_length Hp). lia.
Qed.

(** Every value of the model encodes, and its encoding decodes to an equal
    value. *)
Lemma roundtrip_in_model (v : value) : in_model v = true -> roundtrips v.
Proof.
  induction v as [| | | | |l IH|d IH] using value_ind'; try discriminate.
  - intros _. apply roundtrip_int.
  - apply roundtrip_bytestring. reflexivity.
  - apply roundtrip_bytestring. reflexivity.
  - cbn [in_model]. intros Hl. apply roundtrip_list.
    rewrite forallb_forall in Hl. rewrite Forall_forall in *.
    intros x Hx. apply IH; auto.
  - intros Hm. apply roundtrip_dict; [exact Hm|].
    eapply Forall_impl; [|exact IH]. intros kv [_ H]. exact H.
Qed.

(** What [decode] makes of a run of [_decode] from cursor 0. *)
Lemma decode_bytes_eq (fuel : nat) (data : bytes) :
  decode fuel (Bytes data) =
  match _decode fuel data 0 with
  | None => None
  | Some (Raise e) => Some (Raise e)
  | Some (Ok (result, length)) =>
      if negb (len data =? length) then Some (Raise BencodeDecodeError)
      else Some (Ok result)
  end.
Proof. reflexivity. Qed.

Lemma reads_decode (b : bytes) (v : value) (n : nat) :
  reads b v n ->
  forall fuel, (n <= fuel)%nat -> decode fuel (Bytes b) = Some (Ok v).
Proof.
  intros Hr fuel Hf. rewrite decode_bytes_eq.
  specialize (Hr [] [] fuel Hf). cbn [app] in Hr.
  change (len (@nil byte)) with 0 in Hr.
  rewrite List.app_nil_r, Z.add_0_l in Hr. rewrite Hr.
  rewrite Z.eqb_refl. reflexivity.
Qed.

Lemma reads_decode_trailing (b extra : bytes) (v : value) (n : nat) :
  reads b v n -> extra <> [] ->
  forall fuel, (n <= fuel)%nat ->
    decode fuel (Bytes (b ++ extra)) = Some (Raise BencodeDecodeError).
Proof.
  intros Hr Hx fuel Hf. rewrite decode_bytes_eq.
  specialize (Hr [] extra fuel Hf). cbn [app] in Hr.
  change (len (@nil byte)) with 0 in Hr. rewrite Z.add_0_l in Hr.
  rewrite Hr.
  destruct (Z.eqb_spec (len (b ++ extra)) (len b)) as [E|E]; [|reflexivity].
  destruct extra as [|c extra]; [congruence|].
  pose proof (len_nonneg extra). lens.
Qed.

(** C2.  Round trip: every value of the model (integers, byte strings,
    lists and dicts, nested at will) encodes to bytes, and [decode] of
    these bytes returns, given enough fuel, a value that equals the
    original one when a byte string and the [str] that encodes to it are
    taken as equal. *)
Theorem roundtrip (v : value) :
  in_model v = true ->
  exists b v' n,
    encode v = Ok b /\
    (forall fuel, (n <= fuel)%nat -> decode fuel (Bytes b) = Some (Ok v')) /\
    same_value v v'.
Proof.
  intros Hm. destruct (roundtrip_in_model v Hm) as (b & v' & He & _ & Hs & Hr).
  exists b, v', (weight v). split; [exact He|]. split; [|exact Hs].
  apply (reads_decode b v' (weight v) Hr).
Qed.

Lemma roundtrip_witness :
  in_model (VDict [(VBytes (B "foo"), VInt 42);
                   (VBytes (B "bar"), VList [VBytes (B "spam"); VInt (-1)])])
  = true /\
  exists b v' n,
    encode (VDict [(VBytes (B "foo"), VInt 42);
                   (VBytes (B "bar"), VList [VBytes (B "spam"); VInt (-1)])])
    = Ok b /\
    (forall fuel, (n <= fuel)%nat -> decode fuel (Bytes b) = Some (Ok v')) /\
    same_value
      (VDict [(VBytes (B "foo"), VInt 42);
              (VBytes (B "bar"), VList [VBytes (B "spam"); VInt (-1)])]) v'.
Proof.
  split; [reflexivity|]. apply roundtrip. reflexivity.
Defined.

(** The relation [same_value] tells values apart: numbers by their value,
    byte strings by their bytes, containers by their kind and content. *)
Example same_value_distinguishes :
  ~ same_value (VInt 1) (VInt 2) /\
  ~ same_value (VBytes (B "a")) (VStr [98]) /\
  ~ same_value (VInt 1) (VBytes (B "1")) /\
  ~ same_value (VList [VInt 1]) (VList [VInt 1; VInt 2]) /\
  ~ same_value (VList []) (VDict []).
Proof.
  repeat split; intros H; inversion H; subst;
    try discriminate;
    try match goal with
      | H1 : wire_bytes _ = Some ?w, H2 : wire_bytes _ = Some ?w |- _ =>
          cbn in H1, H2; congruence
      end.
  match goal with H' : Forall2 _ _ _ |- _ => inversion H'; subst end.
  match goal with H' : Forall2 _ [] _ |- _ => inversion H' end.
Qed.

(** A value and what comes back: the [bytes] that are valid UTF-8 come
    back as [str], the others as [bytes], and the items of the dict in
    the order of their keys. *)
Example roundtrip_example :
  encode (VDict [(VBytes (B "k"), VBytes [xff; xfe]);
                 (VBytes (B "a"), VList [VInt (-7); VBytes (B "spam")])])
  = Ok (B "d1:al" ++ B "i-7e4:spame1:k2:" ++ [xff; xfe] ++ B "e") /\
  decode 10 (Bytes (B "d1:al" ++ B "i-7e4:spame1:k2:" ++ [xff; xfe] ++ B "e"))
  = Some (Ok (VDict [(VStr [97], VList [VInt (-7); VStr [115; 112; 97; 109]]);
                     (VStr [107], VBytes [xff; xfe])])).
Proof. split; reflexivity. Qed.

(** ** The decoder reads well-formed encodings *)

(** [_decode_int] on a payload that [int] accepts and that holds no
    [e]. *)
Lemma _decode_int_payload (p : bytes) (z : Z) (pre post : bytes) :
  ~ In "e"%byte p -> py_int p = Ok z ->
  _decode_int (pre ++ (INTEGER ++ p ++ END) ++ post) (len pre) =
  Ok (VInt z, len pre + len (INTEGER ++ p ++ END)).
Proof.
  intros Hp Hz. unfold _decode_int.
  change INTEGER with ["i"%byte]. change END with ["e"%byte].
  cbn [app]. rewrite <- !app_assoc. cbn [app].
  replace (pre ++ "i"%byte :: p ++ "e"%byte :: post)
    with ((pre ++ ["i"%byte]) ++ p ++ "e"%byte :: post)
    by (rewrite <- app_assoc; reflexivity).
  replace (len pre + 1) with (len (pre ++ ["i"%byte])) by lens.
  rewrite py_index_segment by exact Hp.
  cbn [bind]. rewrite py_slice_segment, Hz. cbn [bind].
  do 2 f_equal. lens.
Qed.

Lemma reads_int_payload (p : bytes) (z : Z) :
  ~ In "e"%byte p -> py_int p = Ok z ->
  reads (INTEGER ++ p ++ END) (VInt z) 1.
Proof.
  intros Hp Hz pre post [|fuel] Hf; [lia|].
  rewrite _decode_S. cbv zeta.
  assert (Hch : py_slice (pre ++ (INTEGER ++ p ++ END) ++ post)
                  (len pre) (len pre + 1) = ["i"%byte])
    by apply py_slice_byte.
  rewrite Hch. change (bytes_eqb ["i"%byte] INTEGER) with true. cbv iota.
  rewrite (_decode_int_payload p z) by assumption. reflexivity.
Qed.

Lemma reads_wint (neg : bool) (d : Decimal.uint) :
  uint_is_nil d = false ->
  reads (render (WInt neg d)) (denote (WInt neg d)) 1.
Proof.
  intros Hd. cbn [render denote]. apply reads_int_payload.
  - intros Hin. apply in_app_or in Hin as [Hin|Hin].
    + destruct neg; cbn in Hin; [|contradiction].
      destruct Hin as [Hin|[]]. discriminate.
    + apply uint_bytes_In in Hin. discriminate.
  - pose proof (py_int_literal [] (sign_bytes neg) d [] eq_refl eq_refl) as H.
    cbn [app] in H. rewrite List.app_nil_r in H. rewrite H.
    + destruct neg; reflexivity.
    + destruct d; [discriminate|..]; discriminate.
    + destruct neg; cbn; auto.
Qed.

Lemma wire_items_fold (items : list (bytes * wire)) (r : list (value * value)) :
  fold_left (fun r '(w, t) => dict_set r (surface w) (denote t)) items r =
  fold_left (fun r e => dict_set r (surface (fst e)) (snd (snd e)))
    (map wire_item items) r.
Proof.
  revert r. induction items as [|[w x] items IH]; intros r; [reflexivity|].
  cbn [fold_left map]. apply IH.
Qed.

Lemma wire_items_body (items : list (bytes * wire)) :
  concat (map (fun '(w, t) => bytes_enc w ++ render t) items) =
  concat (map item_enc (map wire_item items)).
Proof.
  rewrite map_map. f_equal. apply map_ext. intros [w x]. reflexivity.
Qed.

(** The decoder reads every well-formed encoding, wherever it stands in
    the buffer, and returns the value it stands for. *)
Lemma wire_reads (t : wire) :
  wire_wf t = true ->
  opens (render t) /\ reads (render t) (denote t) (wire_weight t).
Proof.
  induction t as [neg d|w|elts IH|items IH] using wire_ind'; intros Hwf.
  - split; [discriminate|]. apply reads_wint.
    cbn [wire_wf] in Hwf. destruct (uint_is_nil d); [discriminate|reflexivity].
  - split; [apply bytes_enc_opens | apply reads_bytes].
  - split; [discriminate|]. cbn [wire_wf] in Hwf.
    set (n := list_sum (map wire_weight elts)).
    assert (Hr : Forall (fun e => opens (fst e) /\ reads (fst e) (snd e) n)
                   (map (fun t => (render t, denote t)) elts)).
    { apply Forall_map. rewrite forallb_forall in Hwf.
      rewrite Forall_forall in *. intros x Hx. cbn [fst snd].
      destruct (IH x Hx (Hwf x Hx)) as [Ho Hrx].
      split; [exact Ho|]. eapply reads_mono; [|exact Hrx].
      apply (list_sum_In wire_weight x elts Hx). }
    intros pre post [|fuel] Hf; [cbn in Hf; lia|].
    rewrite _decode_S. cbv zeta. cbn [render denote].
    assert (Hch : py_slice (pre ++ (LIST ++ concat (map render elts) ++ END)
                            ++ post) (len pre) (len pre + 1) = ["l"%byte])
      by apply py_slice_byte.
    rewrite Hch.
    change (bytes_eqb ["l"%byte] INTEGER) with false.
    change (isdigit ["l"%byte]) with false.
    change (bytes_eqb ["l"%byte] DICT) with false.
    change (bytes_eqb ["l"%byte] LIST) with true. cbv iota.
    unfold _decode_list.
    replace (pre ++ (LIST ++ concat (map render elts) ++ END) ++ post)
      with ((pre ++ LIST) ++ (concat (map render elts) ++ END) ++ post)
      by (rewrite <- !app_assoc; reflexivity).
    replace (len pre + 1) with (len (pre ++ LIST))
      by (change LIST with ["l"%byte]; lens).
    pose proof (_decode_list_loop_reads n _ Hr (pre ++ LIST) post [] fuel)
      as Hloop.
    rewrite !map_map in Hloop. cbn [fst snd] in Hloop.
    change (map (fun x : wire => render x) elts) with (map render elts)
      in Hloop.
    change (map (fun x : wire => denote x) elts) with (map denote elts)
      in Hloop.
    rewrite Hloop.
    + cbn [app]. do 2 f_equal. apply f_equal2; [reflexivity|].
      change LIST with ["l"%byte]. lens.
    + rewrite length_map. cbn [wire_weight] in Hf. fold n in Hf. lia.
  - split; [discriminate|]. cbn [wire_wf] in Hwf.
    set (n := list_sum (map (fun '(_, t) => wire_weight t) items)).
    set (f := wire_item).
    assert (Hr : Forall (fun e => opens (fst (snd e)) /\
                                  reads (fst (snd e)) (snd (snd e)) n)
                   (map f items)).
    { apply Forall_map. rewrite forallb_forall in Hwf.
      rewrite Forall_forall in *. intros [w x] Hx. unfold f, wire_item. cbn [fst snd].
      destruct (IH _ Hx (Hwf _ Hx)) as [Ho Hrx].
      split; [exact Ho|]. eapply reads_mono; [|exact Hrx].
      apply (list_sum_In (fun '(_, t) => wire_weight t) (w, x) items Hx). }
    intros pre post [|fuel] Hf; [cbn in Hf; lia|].
    rewrite _decode_S. cbv zeta. cbn [render denote].
    rewrite wire_items_body, wire_items_fold. fold f.
    assert (Hch : py_slice (pre ++ (DICT ++ concat (map item_enc (map f items))
                                    ++ END) ++ post)
                    (len pre) (len pre + 1) = ["d"%byte])
      by apply py_slice_byte.
    rewrite Hch.
    change (bytes_eqb ["d"%byte] INTEGER) with false.
    change (isdigit ["d"%byte]) with false.
    change (bytes_eqb ["d"%byte] DICT) with true. cbv iota.
    unfold _decode_dict.
    replace (pre ++ (DICT ++ concat (map item_enc (map f items)) ++ END) ++ post)
      with ((pre ++ DICT) ++ (concat (map item_enc (map f items)) ++ END)
            ++ post) by (rewrite <- !app_assoc; reflexivity).
    replace (len pre + 1) with (len (pre ++ DICT))
      by (change DICT with ["d"%byte]; lens).
    pose proof (_decode_dict_loop_reads n _ Hr (pre ++ DICT) post [] fuel)
      as Hloop.
    etransitivity; [apply Hloop|].
    + rewrite length_map. cbn [wire_weight] in Hf. fold n in Hf. lia.
    + do 2 f_equal. apply f_equal2; [reflexivity|].
      change (len (pre ++ DICT) + len (concat (map item_enc (map f items))
                                       ++ END) =
              len pre + len (DICT ++ concat (map item_enc (map f items))
                             ++ END)).
      change DICT with ["d"%byte]. lens.
Qed.

(** ** What [encode] writes is a well-formed encoding *)

Lemma int_bytes_wire (z : Z) :
  exists neg d, uint_is_nil d = false /\
                int_bytes z = sign_bytes neg ++ uint_bytes d.
Proof.
  rewrite int_bytes_eq. pose proof (to_int_nonnil z) as Hn.
  destruct (Z.to_int z) as [d|d]; [exists false, d | exists true, d];
    (split; [destruct d; [congruence|reflexivity..] | reflexivity]).
Qed.

Lemma wire_elts_join (l : list value) (ts : list wire) :
  Forall2 (fun x t => wire_wf t = true /\ encode x = Ok (render t)) l ts ->
  forallb wire_wf ts = true /\
  join (map encode l) = Ok (concat (map render ts)).
Proof.
  induction 1 as [|x t l ts [Hwf He] _ [IHwf IHj]]; [split; reflexivity|].
  cbn [forallb map join concat]. rewrite Hwf, IHwf, He, IHj.
  split; reflexivity.
Qed.

Lemma wire_items_join (sd : list (value * value)) (items : list (bytes * wire)) :
  Forall2 (fun kv e => encode (fst kv) = Ok (bytes_enc (fst e)) /\
                       wire_wf (snd e) = true /\
                       encode (snd kv) = Ok (render (snd e))) sd items ->
  forallb (fun '(_, t) => wire_wf t) items = true /\
  encode_items sd =
  Ok (concat (map (fun '(w, t) => bytes_enc w ++ render t) items)).
Proof.
  induction 1 as [|[k x] [w t] sd items (Hk & Hwf & Hx) _ [IHwf IHj]];
    [split; reflexivity|].
  cbn [fst snd] in *. rewrite encode_items_cons.
  cbn [forallb map concat]. rewrite Hwf, IHwf, Hk, Hx, IHj. cbn [bind].
  rewrite <- app_assoc. split; reflexivity.
Qed.

(** For every value of the model, [encode] returns a well-formed
    encoding. *)
Lemma encode_wire (v : value) :
  in_model v = true -> exists t, wire_wf t = true /\ encode v = Ok (render t).
Proof.
  induction v as [| | | | |l IH|d IH] using value_ind'; try discriminate.
  - intros _. destruct (int_bytes_wire z) as (neg & dg & Hd & Hb).
    exists (WInt neg dg). cbn [wire_wf render encode]. rewrite Hd.
    split; [reflexivity|]. rewrite _encode_int_eq, Hb. reflexivity.
  - intros _. exists (WBytes b). split; [reflexivity|]. apply _encode_bytes_eq.
  - intros Hm. destruct (encode_bytestring (VStr s) eq_refl Hm) as (w & _ & He).
    exists (WBytes w). split; [reflexivity | exact He].
  - cbn [in_model]. intros Hl.
    assert (exists ts, Forall2 (fun x t => wire_wf t = true /\
                                           encode x = Ok (render t)) l ts)
      as [ts Hts].
    { apply Forall_exists_Forall2. rewrite forallb_forall in Hl.
      rewrite Forall_forall in *. intros x Hx. apply IH; auto. }
    destruct (wire_elts_join l ts Hts) as [Hwf Hj].
    exists (WList ts). split; [exact Hwf|].
    rewrite encode_list_eq, Hj. reflexivity.
  - intros Hm. destruct (in_model_dict d Hm) as (Hhom & _ & Hall).
    destruct (py_sorted_homogeneous d Hhom) as [sd Hs].
    pose proof (py_sorted_perm _ _ _ Hs) as Hp.
    assert (exists items,
              Forall2 (fun kv e => encode (fst kv) = Ok (bytes_enc (fst e)) /\
                                   wire_wf (snd e) = true /\
                                   encode (snd kv) = Ok (render (snd e)))
                sd items) as [items Hi].
    { apply Forall_exists_Forall2. apply (Permutation_Forall Hp).
      rewrite Forall_forall in *. intros [k x] Hkv.
      destruct (Hall _ Hkv) as (Hbs & Hk & Hx). cbn [fst snd] in *.
      destruct (encode_bytestring k Hbs Hk) as (w & _ & Hek).
      destruct (proj2 (IH _ Hkv) Hx) as (t & Hwf & Het).
      exists (w, t). auto. }
    destruct (wire_items_join sd items Hi) as [Hwf Hj].
    exists (WDict items). split; [exact Hwf|].
    rewrite encode_dict_eq, Hs. cbn [bind]. rewrite Hj. reflexivity.
Qed.

(** ** Trailing bytes *)

(** C3.  Trailing data: when the buffer is one complete well-formed
    encoding (any encoding of the wire format, or the output of [encode]
    for a value of the model) followed by at least one more byte,
    [decode] raises [BencodeDecodeError]: the cursor after the value is
    not the length of the buffer. *)
Theorem decode_trailing_bytes :
  (forall (t : wire) (extra : bytes) (fuel : nat),
      wire_wf t = true -> extra <> [] -> (wire_weight t <= fuel)%nat ->
      decode fuel (Bytes (render t ++ extra))
      = Some (Raise BencodeDecodeError)) /\
  (forall (v : value) (extra : bytes),
      in_model v = true -> extra <> [] ->
      exists b n,
        encode v = Ok b /\
        forall fuel, (n <= fuel)%nat ->
          decode fuel (Bytes (b ++ extra)) = Some (Raise BencodeDecodeError)).
Proof.
  split.
  - intros t extra fuel Hwf Hx Hf.
    destruct (wire_reads t Hwf) as [_ Hr].
    apply (reads_decode_trailing _ extra _ _ Hr Hx fuel Hf).
  - intros v extra Hm Hx.
    destruct (roundtrip_in_model v Hm) as (b & v' & He & _ & _ & Hr).
    exists b, (weight v). split; [exact He|].
    apply (reads_decode_trailing _ extra _ _ Hr Hx).
Qed.

Lemma decode_trailing_bytes_witness :
  decode 10 (Bytes (render (WList [WInt false (Decimal.D4 (Decimal.D2 Decimal.Nil));
                                  WBytes (B "spam")]) ++ B "x"))
  = Some (Raise BencodeDecodeError) /\
  exists b n,
    encode (VList [VInt 42; VBytes (B "spam")]) = Ok b /\
    forall fuel, (n <= fuel)%nat ->
      decode fuel (Bytes (b ++ B "i0e")) = Some (Raise BencodeDecodeError).
Proof.
  split.
  - apply (proj1 decode_trailing_bytes); [reflexivity | discriminate |].
    vm_compute. lia.
  - apply (proj2 decode_trailing_bytes); [reflexivity | discriminate].
Defined.

(** ** Repeated keys *)

Lemma key_eqb_norm (a b : value) :
  key_eqb a b = true -> key_norm a = key_norm b.
Proof.
  destruct a, b; cbn; try discriminate; try reflexivity;
    try (intros H; apply Z.eqb_eq in H; congruence).
  - rewrite bytes_eqb_eq. congruence.
  - destruct (list_eq_dec Z.eq_dec s s0); [congruence|discriminate].
Qed.

Lemma key_eqb_key_norm_l (a c : value) :
  key_eqb a c = key_eqb (key_norm a) c.
Proof. destruct a, c; reflexivity. Qed.

Lemma key_eqb_key_norm_r (a c : value) :
  key_eqb c a = key_eqb c (key_norm a).
Proof. destruct a, c; reflexivity. Qed.

Lemma key_eqb_norm_l (a b c : value) :
  key_norm a = key_norm b -> key_eqb a c = key_eqb b c.
Proof.
  intros E. rewrite (key_eqb_key_norm_l a), (key_eqb_key_norm_l b), E.
  reflexivity.
Qed.

Lemma key_eqb_norm_r (a b c : value) :
  key_norm a = key_norm b -> key_eqb c a = key_eqb c b.
Proof.
  intros E. rewrite (key_eqb_key_norm_r a), (key_eqb_key_norm_r b), E.
  reflexivity.
Qed.

(** Reading a dict after a store. *)
Lemma dict_get_set (r : list (value * value)) (k v k' : value) :
  dict_get (dict_set r k v) k' =
  if key_eqb k k' then Some v else dict_get r k'.
Proof.
  induction r as [|[k0 x] r IH]; cbn [dict_set dict_get]; [reflexivity|].
  destruct (key_eqb k0 k) eqn:E0; cbn [dict_get].
  - apply key_eqb_norm in E0. rewrite (key_eqb_norm_l k0 k k' E0).
    destruct (key_eqb k k'); reflexivity.
  - rewrite IH. destruct (key_eqb k0 k') eqn:E1; [|reflexivity].
    destruct (key_eqb k k') eqn:E2; [|reflexivity].
    exfalso. pose proof E1 as N1. pose proof E2 as N2.
    apply key_eqb_norm in N1, N2.
    rewrite (key_eqb_norm_r k k' k0 N2), E1 in E0. discriminate.
Qed.

Lemma key_eqb_surface (a b : bytes) :
  key_eqb (surface a) (surface b) = bytes_eqb a b.
Proof.
  destruct (bytes_eqb a b) eqn:E.
  - apply bytes_eqb_eq in E. subst b.
    apply key_eqb_bytestring; [apply surface_bytestring | reflexivity].
  - destruct (key_eqb (surface a) (surface b)) eqn:K; [|reflexivity].
    apply key_eqb_bytestring in K; [|apply surface_bytestring].
    apply surface_inj in K. apply bytes_eqb_neq in E. contradiction.
Qed.

(** After the items are stored one after the other, a key holds the value
    of its last item. *)
Lemma fold_dict_get (items : list (bytes * wire)) (r : list (value * value))
  (w : bytes) :
  dict_get
    (fold_left (fun r '(w, t) => dict_set r (surface w) (denote t)) items r)
    (surface w) =
  match last_value items w with
  | Some v => Some v
  | None => dict_get r (surface w)
  end.
Proof.
  induction items as [|[w' t] items IH] using rev_ind; [reflexivity|].
  rewrite fold_left_app. cbn [fold_left].
  rewrite dict_get_set, key_eqb_surface, IH.
  unfold last_value. rewrite rev_unit. cbn [find fst snd].
  destruct (bytes_eqb w' w); reflexivity.
Qed.

(** C10.  A well-formed encoding of a dict decodes without error however
    often a key occurs in it, and in the dict that [decode] returns a key
    holds the value of its last occurrence in the buffer: later pairs
    overwrite earlier ones. *)
Theorem decode_dict_repeated_keys (items : list (bytes * wire)) :
  wire_wf (WDict items) = true ->
  exists d,
    (forall fuel, (wire_weight (WDict items) <= fuel)%nat ->
       decode fuel (Bytes (render (WDict items))) = Some (Ok (VDict d))) /\
    (forall w, dict_get d (surface w) = last_value items w).
Proof.
  intros Hwf. destruct (wire_reads _ Hwf) as [_ Hr].
  eexists. split.
  - apply (reads_decode _ _ _ Hr).
  - intros w. rewrite fold_dict_get. cbn [dict_get].
    destruct (last_value items w); reflexivity.
Qed.

Lemma decode_dict_repeated_keys_witness :
  wire_wf (WDict [(B "a", WInt false (Decimal.D1 Decimal.Nil));
                  (B "b", WBytes (B "x"));
                  (B "a", WInt false (Decimal.D2 Decimal.Nil))]) = true /\
  exists d,
    (forall fuel,
       (wire_weight (WDict [(B "a", WInt false (Decimal.D1 Decimal.Nil));
                            (B "b", WBytes (B "x"));
                            (B "a", WInt false (Decimal.D2 Decimal.Nil))])
        <= fuel)%nat ->
       decode fuel (Bytes (B "d1:ai1e1:b1:x1:ai2ee")) = Some (Ok (VDict d))) /\
    (forall w,
       dict_get d (surface w) =
       last_value [(B "a", WInt false (Decimal.D1 Decimal.Nil));
                   (B "b", WBytes (B "x"));
                   (B "a", WInt false (Decimal.D2 Decimal.Nil))] w).
Proof.
  split; [reflexivity|].
  apply (decode_dict_repeated_keys
           [(B "a", WInt false (Decimal.D1 Decimal.Nil));
            (B "b", WBytes (B "x"));
            (B "a", WInt false (Decimal.D2 Decimal.Nil))]).
  reflexivity.
Defined.

Example last_value_repeated :
  last_value [(B "a", WInt false (Decimal.D1 Decimal.Nil));
              (B "b", WBytes (B "x"));
              (B "a", WInt false (Decimal.D2 Decimal.Nil))] (B "a")
  = Some (VInt 2).
Proof. reflexivity. Qed.

(** ** Containers without their end marker *)

(** The loop of [_decode_list] over the encodings of [elts]: it goes on
    at the cursor after them. *)
Lemma _decode_list_loop_progress (n : nat) (elts : list (bytes * value)) :
  Forall (fun e => opens (fst e) /\ reads (fst e) (snd e) n) elts ->
  forall pre post items fuel,
    (n <= fuel)%nat ->
    _decode_list_loop (length elts + fuel)
      (pre ++ concat (map fst elts) ++ post) (len pre) items =
    _decode_list_loop fuel
      (pre ++ concat (map fst elts) ++ post)
      (len pre + len (concat (map fst elts))) (items ++ map snd elts).
Proof.
  induction 1 as [|[b v] elts [Hb Hr] _ IH]; intros pre post items fuel Hf.
  - cbn [map concat length Nat.add app]. rewrite List.app_nil_r.
    f_equal; lens.
  - cbn [length Nat.add]. rewrite _decode_list_loop_S.
    cbn [map concat fst snd] in *. rewrite <- !app_assoc.
    rewrite opens_not_end by exact Hb.
    rewrite Hr by lia.
    replace (pre ++ b ++ concat (map fst elts) ++ post)
      with ((pre ++ b) ++ concat (map fst elts) ++ post)
      by (rewrite <- !app_assoc; reflexivity).
    replace (len pre + len b) with (len (pre ++ b)) by lens.
    rewrite IH by exact Hf.
    f_equal; [lens | rewrite <- app_assoc; reflexivity].
Qed.

Lemma _decode_str_bytes_enc (w pre post : bytes) :
  _decode_str (pre ++ bytes_enc w ++ post) (len pre) =
  Ok (surface w, len pre + len (bytes_enc w)).
Proof.
  pose proof (_decode_str_encoded w pre post) as H. fold (bytes_enc w) in H.
  exact H.
Qed.

Lemma _decode_dict_loop_progress (n : nat)
  (elts : list (bytes * (bytes * value))) :
  Forall (fun e => opens (fst (snd e)) /\
                   reads (fst (snd e)) (snd (snd e)) n) elts ->
  forall pre post result fuel,
    (n <= fuel)%nat ->
    _decode_dict_loop (length elts + fuel)
      (pre ++ concat (map item_enc elts) ++ post) (len pre) result =
    _decode_dict_loop fuel
      (pre ++ concat (map item_enc elts) ++ post)
      (len pre + len (concat (map item_enc elts)))
      (fold_left (fun r e => dict_set r (surface (fst e)) (snd (snd e)))
         elts result).
Proof.
  induction 1 as [|[w [b v]] elts [Hb Hr] _ IH];
    intros pre post result fuel Hf.
  - cbn [map concat length Nat.add app fold_left]. f_equal; lens.
  - cbn [length Nat.add]. rewrite _decode_dict_loop_S.
    cbn [map concat fst snd fold_left] in *.
    change (item_enc (w, (b, v))) with (bytes_enc w ++ b).
    rewrite <- !app_assoc.
    rewrite opens_not_end by apply bytes_enc_opens.
    rewrite _decode_str_bytes_enc.
    replace (pre ++ bytes_enc w ++ b ++ concat (map item_enc elts) ++ post)
      with ((pre ++ bytes_enc w) ++ b ++ (concat (map item_enc elts) ++ post))
      by (rewrite <- !app_assoc; reflexivity).
    replace (len pre + len (bytes_enc w)) with (len (pre ++ bytes_enc w))
      by lens.
    rewrite Hr by lia.
    replace ((pre ++ bytes_enc w) ++ b ++ concat (map item_enc elts) ++ post)
      with (((pre ++ bytes_enc w) ++ b) ++ concat (map item_enc elts) ++ post)
      by (rewrite <- !app_assoc; reflexivity).
    replace (len (pre ++ bytes_enc w) + len b)
      with (len ((pre ++ bytes_enc w) ++ b)) by lens.
    rewrite IH by exact Hf. f_equal; lens.
Qed.

(** At the end of the buffer [_decode] sees no type tag. *)
Lemma _decode_at_end (fuel : nat) (data : bytes) (i : Z) :
  len data <= i -> _decode (S fuel) data i = Some (Raise BencodeDecodeError).
Proof.
  intros Hi. rewrite _decode_S. cbv zeta. rewrite py_slice_end by exact Hi.
  reflexivity.
Qed.

(** At the end of the buffer [_decode_str] finds no colon. *)
Lemma _decode_str_at_end (data : bytes) :
  _decode_str data (len data) = Raise ValueError.
Proof.
  unfold _decode_str. change COLON with [":"%byte].
  rewrite <- (List.app_nil_r data) at 1.
  rewrite py_index_absent by (intros []). reflexivity.
Qed.

Lemma wire_elts_reads (elts : list wire) :
  forallb wire_wf elts = true ->
  Forall (fun e => opens (fst e) /\
                   reads (fst e) (snd e) (list_sum (map wire_weight elts)))
    (map (fun t => (render t, denote t)) elts).
Proof.
  intros Hwf. apply Forall_map. rewrite forallb_forall in Hwf.
  apply Forall_forall. intros x Hx. cbn [fst snd].
  destruct (wire_reads x (Hwf x Hx)) as [Ho Hr].
  split; [exact Ho|]. eapply reads_mono; [|exact Hr].
  apply (list_sum_In wire_weight x elts Hx).
Qed.

Lemma wire_items_reads (items : list (bytes * wire)) :
  forallb (fun '(_, t) => wire_wf t) items = true ->
  Forall (fun e => opens (fst (snd e)) /\
                   reads (fst (snd e)) (snd (snd e))
                     (list_sum (map (fun '(_, t) => wire_weight t) items)))
    (map wire_item items).
Proof.
  intros Hwf. apply Forall_map. rewrite forallb_forall in Hwf.
  apply Forall_forall. intros [w x] Hx. unfold wire_item. cbn [fst snd].
  destruct (wire_reads x (Hwf _ Hx)) as [Ho Hr].
  split; [exact Ho|]. eapply reads_mono; [|exact Hr].
  apply (list_sum_In (fun '(_, t) => wire_weight t) (w, x) items Hx).
Qed.

(** C6.  A container without its end marker: when the buffer ends after
    the complete elements of a list, [decode] raises
    [BencodeDecodeError]; when it ends after the complete items of a
    dict, [decode] raises [ValueError], the failure of [bytes.index] in
    [_decode_str], and not [BencodeDecodeError]. *)
Theorem decode_unterminated_container :
  (forall (elts : list wire) (fuel : nat),
      forallb wire_wf elts = true ->
      (wire_weight (WList elts) + 1 <= fuel)%nat ->
      decode fuel (Bytes (LIST ++ concat (map render elts)))
      = Some (Raise BencodeDecodeError)) /\
  (forall (items : list (bytes * wire)) (fuel : nat),
      forallb (fun '(_, t) => wire_wf t) items = true ->
      (wire_weight (WDict items) <= fuel)%nat ->
      decode fuel
        (Bytes (DICT ++
                concat (map (fun '(w, t) => bytes_enc w ++ render t) items)))
      = Some (Raise ValueError)).
Proof.
  split.
  - intros elts fuel Hwf Hf. rewrite decode_bytes_eq.
    destruct fuel as [|fuel]; [lia|]. rewrite _decode_S. cbv zeta.
    change (py_slice (LIST ++ concat (map render elts)) 0 (0 + 1))
      with (py_slice ([] ++ "l"%byte :: concat (map render elts))
              (len (@nil byte)) (len (@nil byte) + 1)).
    rewrite py_slice_byte.
    change (bytes_eqb ["l"%byte] INTEGER) with false.
    change (isdigit ["l"%byte]) with false.
    change (bytes_eqb ["l"%byte] DICT) with false.
    change (bytes_eqb ["l"%byte] LIST) with true. cbv iota.
    unfold _decode_list. cbn [wire_weight] in Hf.
    set (n := list_sum (map wire_weight elts)) in *.
    pose proof (_decode_list_loop_progress n _ (wire_elts_reads elts Hwf)
                  LIST [] [] (fuel - length elts)) as Hloop.
    rewrite length_map, !map_map in Hloop. cbn [fst snd app] in Hloop.
    change (map (fun x : wire => render x) elts) with (map render elts)
      in Hloop.
    rewrite List.app_nil_r in Hloop.
    replace (length elts + (fuel - length elts))%nat with fuel in Hloop
      by lia.
    change (0 + 1) with (len LIST). rewrite Hloop by lia.
    destruct (fuel - length elts)%nat as [|[|f]] eqn:Ef; [lia|lia|].
    rewrite _decode_list_loop_S.
    replace (len LIST + len (concat (map render elts)))
      with (len (LIST ++ concat (map render elts))) by lens.
    rewrite py_slice_end by lia. cbn [bytes_eqb negb].
    change (bytes_eqb [] END) with false. cbn [negb].
    rewrite _decode_at_end by lia. reflexivity.
  - intros items fuel Hwf Hf. rewrite decode_bytes_eq.
    destruct fuel as [|fuel]; [cbn in Hf; lia|]. rewrite _decode_S. cbv zeta.
    rewrite wire_items_body.
    change (py_slice (DICT ++ concat (map item_enc (map wire_item items)))
              0 (0 + 1))
      with (py_slice ([] ++ "d"%byte ::
                      concat (map item_enc (map wire_item items)))
              (len (@nil byte)) (len (@nil byte) + 1)).
    rewrite py_slice_byte.
    change (bytes_eqb ["d"%byte] INTEGER) with false.
    change (isdigit ["d"%byte]) with false.
    change (bytes_eqb ["d"%byte] DICT) with true. cbv iota.
    unfold _decode_dict. cbn [wire_weight] in Hf.
    set (n := list_sum (map (fun '(_, t) => wire_weight t) items)) in *.
    pose proof (_decode_dict_loop_progress n _ (wire_items_reads items Hwf)
                  DICT [] [] (fuel - length items)) as Hloop.
    rewrite length_map in Hloop. rewrite List.app_nil_r in Hloop.
    replace (length items + (fuel - length items))%nat with fuel in Hloop
      by lia.
    change (0 + 1) with (len DICT). rewrite Hloop by lia.
    destruct (fuel - length items)%nat as [|f] eqn:Ef; [lia|].
    rewrite _decode_dict_loop_S.
    replace (len DICT + len (concat (map item_enc (map wire_item items))))
      with (len (DICT ++ concat (map item_enc (map wire_item items))))
      by lens.
    rewrite py_slice_end by lia.
    change (bytes_eqb [] END) with false. cbn [negb].
    rewrite _decode_str_at_end. reflexivity.
Qed.

Lemma decode_unterminated_container_witness :
  decode 10 (Bytes (B "li42e4:spam")) = Some (Raise BencodeDecodeError) /\
  decode 10 (Bytes (B "d3:fooi42e")) = Some (Raise ValueError).
Proof.
  split.
  - apply (proj1 decode_unterminated_container
             [WInt false (Decimal.D4 (Decimal.D2 Decimal.Nil));
              WBytes (B "spam")] 10%nat); [reflexivity | vm_compute; lia].
  - apply (proj2 decode_unterminated_container
             [(B "foo", WInt false (Decimal.D4 (Decimal.D2 Decimal.Nil)))]
             10%nat); [reflexivity | vm_compute; lia].
Defined.

(** ** Integers without their terminator *)

Lemma existsb_eqb_In (c : byte) (l : bytes) :
  existsb (Byte.eqb c) l = false -> ~ In c l.
Proof.
  intros H Hin.
  assert (existsb (Byte.eqb c) l = true); [|congruence].
  apply existsb_exists. exists c. split; [exact Hin | apply byte_eqb_refl].
Qed.

(** [_decode] on an integer that no [e] ends. *)
Lemma _decode_int_absent (pre rest : bytes) (fuel : nat) :
  ~ In "e"%byte rest ->
  _decode (S fuel) (pre ++ INTEGER ++ rest) (len pre)
  = Some (Raise ValueError).
Proof.
  intros Hrest. rewrite _decode_S. cbv zeta.
  change INTEGER with ["i"%byte]. cbn [app]. rewrite py_slice_byte.
  rewrite bytes_eqb_refl. unfold _decode_int.
  replace (pre ++ "i"%byte :: rest) with ((pre ++ ["i"%byte]) ++ rest)
    by (rewrite <- app_assoc; reflexivity).
  replace (len pre + 1) with (len (pre ++ ["i"%byte])) by lens.
  change END with ["e"%byte]. rewrite py_index_absent by exact Hrest.
  reflexivity.
Qed.

Lemma decode_int_absent (rest : bytes) (fuel : nat) :
  ~ In "e"%byte rest ->
  decode (S fuel) (Bytes (INTEGER ++ rest)) = Some (Raise ValueError).
Proof.
  intros Hrest. rewrite decode_bytes_eq.
  pose proof (_decode_int_absent [] rest fuel Hrest) as H.
  cbn [app] in H. change (len (@nil byte)) with 0 in H. rewrite H.
  reflexivity.
Qed.

(** C5.  An integer without its terminator: when the byte at the cursor
    is [i] and no [e] follows in the buffer, [_decode] (and [decode], when
    the cursor is 0) raises the [ValueError] of the failed [bytes.index],
    as it is; the exception is not [BencodeDecodeError]. *)
Theorem decode_int_unterminated (pre rest : bytes) (fuel : nat) :
  existsb (Byte.eqb "e") rest = false ->
  _decode (S fuel) (pre ++ INTEGER ++ rest) (len pre)
  = Some (Raise ValueError) /\
  decode (S fuel) (Bytes (INTEGER ++ rest)) = Some (Raise ValueError).
Proof.
  intros Hrest. apply existsb_eqb_In in Hrest.
  split; [apply _decode_int_absent | apply decode_int_absent]; exact Hrest.
Qed.

Lemma decode_int_unterminated_witness :
  existsb (Byte.eqb "e") (B "42") = false /\
  _decode 1 (B "li1e" ++ INTEGER ++ B "42") (len (B "li1e"))
  = Some (Raise ValueError) /\
  decode 1 (Bytes (INTEGER ++ B "42")) = Some (Raise ValueError).
Proof.
  split; [reflexivity|].
  apply (decode_int_unterminated (B "li1e") (B "42") 0). reflexivity.
Defined.

(** ** The exceptions of the decoder *)

Lemma py_index_raise (data sub : bytes) (i : Z) (e : exn) :
  py_index data sub i = Raise e -> e = ValueError.
Proof.
  unfold py_index. destruct (_ <? _); [congruence|].
  destruct (find_sub _ _ _); [discriminate|congruence].
Qed.

Lemma py_int_raise (bs : bytes) (e : exn) :
  py_int bs = Raise e -> e = ValueError.
Proof.
  unfold py_int.
  destruct (match lstrip bs with
            | [] => (false, [])
            | b :: r => _
            end) as [neg s].
  destruct s as [|d r]; [congruence|].
  destruct (is_digit d); [|congruence].
  destruct (int_digits _ _) as [[n rest]|]; [|congruence].
  destruct (forallb is_space rest); [discriminate|congruence].
Qed.

Lemma _decode_int_raise (data : bytes) (i : Z) (e : exn) :
  _decode_int data i = Raise e -> e = ValueError.
Proof.
  unfold _decode_int.
  destruct (py_index data END (i + 1)) as [j|e'] eqn:E; cbn [bind].
  - destruct (py_int _) as [n|e'] eqn:E'; cbn [bind]; [discriminate|].
    intros [= <-]. eapply py_int_raise, E'.
  - intros [= <-]. eapply py_index_raise, E.
Qed.

Lemma _decode_str_raise (data : bytes) (i : Z) (e : exn) :
  _decode_str data i = Raise e -> e = ValueError.
Proof.
  unfold _decode_str.
  destruct (py_index data COLON i) as [j|e'] eqn:E; cbn [bind].
  - destruct (py_int _) as [n|e'] eqn:E'; cbn [bind]; [discriminate|].
    intros [= <-]. eapply py_int_raise, E'.
  - intros [= <-]. eapply py_index_raise, E.
Qed.

(** The exceptions of [_decode] are [BencodeDecodeError] and the
    [ValueError] of [bytes.index] and [int]. *)
Lemma _decode_raise (n : nat) :
  (forall data i e, _decode n data i = Some (Raise e) ->
                    e = BencodeDecodeError \/ e = ValueError) /\
  (forall data i d e, _decode_dict_loop n data i d = Some (Raise e) ->
                      e = BencodeDecodeError \/ e = ValueError) /\
  (forall data i l e, _decode_list_loop n data i l = Some (Raise e) ->
                      e = BencodeDecodeError \/ e = ValueError).
Proof.
  induction n as [|n (IHv & IHd & IHl)].
  - repeat split; intros; discriminate.
  - repeat split.
    + intros data i e. rewrite _decode_S. cbv zeta.
      unfold _decode_dict, _decode_list.
      destruct (bytes_eqb _ INTEGER).
      { intros [= H]. right. eapply _decode_int_raise, H. }
      destruct (isdigit _).
      { intros [= H]. right. eapply _decode_str_raise, H. }
      destruct (bytes_eqb _ DICT); [apply IHd|].
      destruct (bytes_eqb _ LIST); [apply IHl|].
      intros [= <-]. left. reflexivity.
    + intros data i d e. rewrite _decode_dict_loop_S.
      destruct (negb _); [|discriminate].
      destruct (_decode_str data i) as [[key i1]|e'] eqn:Es.
      * destruct (_decode n data i1) as [[[v i2]|e']|] eqn:E;
          [apply IHd | | discriminate].
        intros [= <-]. eapply IHv, E.
      * intros [= <-]. right. eapply _decode_str_raise, Es.
    + intros data i l e. rewrite _decode_list_loop_S.
      destruct (negb _); [|discriminate].
      destruct (_decode n data i) as [[[v i2]|e']|] eqn:E;
        [apply IHl | | discriminate].
      intros [= <-]. eapply IHv, E.
Qed.

(** When [decode] raises on a [bytes] buffer, the exception is
    [BencodeDecodeError] or [ValueError]. *)
Lemma decode_raise (fuel : nat) (data : bytes) (e : exn) :
  decode fuel (Bytes data) = Some (Raise e) ->
  e = BencodeDecodeError \/ e = ValueError.
Proof.
  rewrite decode_bytes_eq.
  destruct (_decode fuel data 0) as [[[v j]|e']|] eqn:E; [| |discriminate].
  - destruct (negb _); [|discriminate]. intros [= <-]. left. reflexivity.
  - intros [= <-]. eapply (proj1 (_decode_raise fuel)), E.
Qed.

(** ** What [decode] can do besides returning or raising
    [BencodeDecodeError] *)

(** The dict [d0:i0e-6:] sends the cursor back: after the pair of the key
    [0:] and the value [i0e], the key [-6:] has length -6 and ends at
    cursor 3, where [i0e] is read again, up to cursor 6, and so on. *)
Lemma decode_loops_forever (fuel : nat) :
  decode fuel (Bytes (B "d0:i0e-6:")) = None.
Proof.
  set (data := B "d0:i0e-6:").
  assert (Hloop : forall n result, _decode_dict_loop n data 6 result = None).
  { induction n as [|n IH]; intros result; [reflexivity|].
    rewrite _decode_dict_loop_S.
    change (negb (bytes_eqb (py_slice data 6 (6 + 1)) END)) with true.
    cbv iota.
    change (_decode_str data 6) with (@Ok (value * Z) (VStr [], 3)).
    cbv iota.
    destruct n as [|n]; [reflexivity|].
    change (_decode (S n) data 3) with (Some (@Ok (value * Z) (VInt 0, 6))).
    cbv iota. apply IH. }
  rewrite decode_bytes_eq.
  destruct fuel as [|[|[|fuel]]]; try reflexivity.
  rewrite _decode_S. cbv zeta.
  change (bytes_eqb (py_slice data 0 (0 + 1)) INTEGER) with false.
  change (isdigit (py_slice data 0 (0 + 1))) with false.
  change (bytes_eqb (py_slice data 0 (0 + 1)) DICT) with true.
  cbv iota. unfold _decode_dict. rewrite _decode_dict_loop_S.
  change (negb (bytes_eqb (py_slice data (0 + 1) (0 + 1 + 1)) END)) with true.
  cbv iota.
  change (_decode_str data (0 + 1)) with (@Ok (value * Z) (VStr [], 3)).
  cbv iota.
  change (_decode (S fuel) data 3) with (Some (@Ok (value * Z) (VInt 0, 6))).
  cbv iota. rewrite Hloop. reflexivity.
Qed.

(** The dict [d-4:] sends the cursor back to 0: the key [-4:] has length
    -4 and ends at cursor 0, where the value is the dict itself, without
    end. *)
Lemma decode_recurses_forever (fuel : nat) :
  decode fuel (Bytes (B "d-4:")) = None.
Proof.
  set (data := B "d-4:").
  assert (Hrec : forall n, _decode n data 0 = None).
  { induction n as [|n IH]; [reflexivity|].
    rewrite _decode_S. cbv zeta.
    change (bytes_eqb (py_slice data 0 (0 + 1)) INTEGER) with false.
    change (isdigit (py_slice data 0 (0 + 1))) with false.
    change (bytes_eqb (py_slice data 0 (0 + 1)) DICT) with true.
    cbv iota. unfold _decode_dict.
    destruct n as [|n]; [reflexivity|].
    rewrite _decode_dict_loop_S.
    change (negb (bytes_eqb (py_slice data (0 + 1) (0 + 1 + 1)) END))
      with true.
    cbv iota.
    change (_decode_str data (0 + 1)) with (@Ok (value * Z) (VStr [], 0)).
    cbv iota.
    assert (Hn : _decode n data 0 = None).
    { destruct n as [|n']; [reflexivity|].
      pose proof (fuel_succ (S n')) as (Hv & _).
      destruct (_decode (S n') data 0) as [r|] eqn:E; [|reflexivity].
      rewrite (Hv _ _ _ E) in IH. discriminate. }
    rewrite Hn. reflexivity. }
  rewrite decode_bytes_eq, Hrec. reflexivity.
Qed.

(** C4.  [decode] does not always return a value or raise
    [BencodeDecodeError]: on [i5], an integer without terminator, it
    raises [ValueError]; on [d0:i0e-6:] it does not return at all,
    whatever the fuel. *)
Theorem decode_not_only_DecodeError :
  (forall fuel, decode (S fuel) (Bytes (B "i5")) = Some (Raise ValueError)) /\
  (forall fuel, decode fuel (Bytes (B "d0:i0e-6:")) = None).
Proof.
  split.
  - intros fuel. apply (decode_int_absent (B "5") fuel).
    apply existsb_eqb_In. reflexivity.
  - apply decode_loops_forever.
Qed.

(** ** Integers written in other ways *)

Lemma nzhead_not_D0 (d : Decimal.uint) :
  match Decimal.nzhead d with Decimal.D0 _ => False | _ => True end.
Proof. induction d; cbn; auto. Qed.

Lemma to_uint_leading (p : positive) :
  match Pos.to_uint p with
  | Decimal.Nil | Decimal.D0 _ => False
  | _ => True
  end.
Proof.
  pose proof (DecimalPos.Unsigned.to_of (Pos.to_uint p)) as H.
  rewrite DecimalPos.Unsigned.of_to in H. cbn [N.to_uint] in H.
  pose proof (DecimalPos.Unsigned.to_uint_nonzero p) as Hz.
  pose proof (DecimalPos.Unsigned.to_uint_nonnil p) as Hn.
  destruct (Pos.to_uint p) as [|d'| | | | | | | | |]; try exact I.
  - congruence.
  - unfold Decimal.unorm in H. cbn [Decimal.nzhead] in H.
    pose proof (nzhead_not_D0 d') as Hd.
    destruct (Decimal.nzhead d'); try discriminate H; try contradiction.
Qed.

Lemma uint_bytes_canonical (p : positive) :
  digits_canonical (uint_bytes (Pos.to_uint p)) = true.
Proof.
  pose proof (to_uint_leading p) as Hl.
  pose proof (uint_bytes_digits (Pos.to_uint p)) as Hd.
  rewrite Forall_forall in Hd. apply forallb_forall in Hd.
  unfold digits_canonical.
  destruct (Pos.to_uint p); try contradiction;
    unfold uint_bytes in *; cbn [uint_digits map] in *; rewrite Hd;
    reflexivity.
Qed.

(** [str] writes integers in canonical form. *)
Lemma int_bytes_canonical (z : Z) : canonical_int (int_bytes z) = true.
Proof.
  rewrite int_bytes_eq. destruct z as [|p|p]; cbn [Z.to_int].
  - reflexivity.
  - pose proof (uint_bytes_canonical p) as H. unfold canonical_int.
    destruct (uint_bytes (Pos.to_uint p)) as [|c r] eqn:E; [discriminate|].
    assert (Hc : is_digit c = true).
    { apply (uint_bytes_In (Pos.to_uint p)). rewrite E. left. reflexivity. }
    assert (Hm : Byte.eqb c "-" = false).
    { apply byte_eqb_neq. intros ->. discriminate. }
    rewrite Hm, H. apply orb_true_r.
  - unfold canonical_int. rewrite byte_eqb_refl. apply uint_bytes_canonical.
Qed.

Lemma spaces_no_end (ws : bytes) :
  forallb is_space ws = true -> ~ In "e"%byte ws.
Proof.
  intros H Hin. rewrite forallb_forall in H. apply H in Hin. discriminate.
Qed.

(** C9.  The decoder accepts integers written in ways [encode] never
    writes them: with white space around the number, with a [+] sign,
    with leading zeros.  [decode] returns the number the digits stand
    for.  What [encode] writes for an integer is always in canonical
    form. *)
Theorem decode_noncanonical_int :
  (forall (ws1 sign : bytes) (d : Decimal.uint) (ws2 : bytes) (fuel : nat),
      forallb is_space ws1 = true ->
      forallb is_space ws2 = true ->
      uint_is_nil d = false ->
      sign = [] \/ sign = B "+" \/ sign = B "-" ->
      decode (S fuel)
        (Bytes (INTEGER ++ (ws1 ++ sign ++ uint_bytes d ++ ws2) ++ END))
      = Some (Ok (VInt (if bytes_eqb sign (B "-") then - Z.of_uint d
                        else Z.of_uint d)))) /\
  (forall z : Z,
      exists p, encode (VInt z) = Ok (INTEGER ++ p ++ END) /\
                canonical_int p = true).
Proof.
  split.
  - intros ws1 sign d ws2 fuel H1 H2 Hd Hs.
    apply (reads_decode _ _ 1%nat); [|lia].
    apply reads_int_payload.
    + intros Hin. apply in_app_or in Hin as [Hin|Hin];
        [exact (spaces_no_end ws1 H1 Hin)|].
      apply in_app_or in Hin as [Hin|Hin].
      { destruct Hs as [-> | [-> | ->]]; cbn in Hin; intuition discriminate. }
      apply in_app_or in Hin as [Hin|Hin];
        [|exact (spaces_no_end ws2 H2 Hin)].
      apply uint_bytes_In in Hin. discriminate.
    + apply py_int_literal; try assumption.
      destruct d; [discriminate|..]; discriminate.
  - intros z. exists (int_bytes z).
    split; [apply _encode_int_eq | apply int_bytes_canonical].
Qed.

Lemma decode_noncanonical_int_witness :
  decode 1 (Bytes (B "i007e")) = Some (Ok (VInt 7)) /\
  decode 1 (Bytes (B "i+5e")) = Some (Ok (VInt 5)) /\
  decode 1 (Bytes (B "i -12 e")) = Some (Ok (VInt (-12))).
Proof.
  split; [|split].
  - apply (proj1 decode_noncanonical_int [] []
             (Decimal.D0 (Decimal.D0 (Decimal.D7 Decimal.Nil))) [] 0%nat);
      try reflexivity. left. reflexivity.
  - apply (proj1 decode_noncanonical_int [] (B "+")
             (Decimal.D5 Decimal.Nil) [] 0%nat);
      try reflexivity. right. left. reflexivity.
  - apply (proj1 decode_noncanonical_int (B " ") (B "-")
             (Decimal.D1 (Decimal.D2 Decimal.Nil)) (B " ") 0%nat);
      try reflexivity. right. right. reflexivity.
Defined.

Example canonical_int_rejects :
  canonical_int (B "007") = false /\ canonical_int (B "+5") = false /\
  canonical_int (B " 5") = false /\ canonical_int (B "-0") = false.
Proof. repeat split. Qed.

(** ** The order of insertion *)

Lemma key_eqb_refl (a : value) : hashableb a = true -> key_eqb a a = true.
Proof.
  destruct a; try discriminate; intros _; cbn;
    auto using Z.eqb_refl, bytes_eqb_refl.
  destruct (list_eq_dec Z.eq_dec s s); congruence.
Qed.

Lemma dict_keys_ok_nodup (d : list (value * value)) :
  dict_keys_ok d = true -> keys_nodup d.
Proof.
  unfold dict_keys_ok, keys_nodup. rewrite andb_true_iff. intros [Hh Hn].
  induction d as [|[k x] d IH]; cbn [map fst]; [constructor|].
  cbn [forallb keys_nodupb fst] in Hh, Hn.
  apply andb_true_iff in Hh as [Hk Hh].
  apply andb_true_iff in Hn as [Hex Hn]. apply negb_true_iff in Hex.
  constructor; [|apply IH; assumption].
  intros Hin. apply in_map_iff in Hin as ([k' x'] & Hk' & Hin).
  cbn [fst] in Hk'.
  assert (existsb (fun kv => key_eqb k (fst kv)) d = true); [|congruence].
  apply existsb_exists. exists (k', x'). split; [exact Hin|]. cbn [fst].
  rewrite (key_eqb_norm_r k' k k Hk'). apply key_eqb_refl, Hk.
Qed.

(** The order of the items of a dict does not change what [encode]
    returns. *)
Lemma encode_dict_permutation (d1 d2 : list (value * value)) :
  dict_keys_ok d1 = true -> Permutation d1 d2 ->
  encode (VDict d1) = encode (VDict d2).
Proof.
  intros Hok Hp. rewrite !encode_dict_eq.
  rewrite (py_sorted_permutation d1 d2 (dict_keys_ok_nodup d1 Hok) Hp).
  reflexivity.
Qed.

(** C1.  Canonical form: two dicts with the same items, inserted in
    different orders, encode to the same bytes (or raise the same
    exception). *)
Theorem encode_dict_insertion_order (d1 d2 : list (value * value)) :
  dict_keys_ok d1 = true ->
  Permutation d1 d2 ->
  encode (VDict d1) = encode (VDict d2).
Proof.
  intros Hok Hp. rewrite !encode_dict_eq.
  pose proof (dict_keys_ok_nodup d1 Hok) as Hnd.
  rewrite (py_sorted_permutation d1 d2 Hnd Hp).
  destruct (py_sorted item_lt d2) as [sd|e]; reflexivity.
Qed.

Lemma encode_dict_insertion_order_witness :
  dict_keys_ok [(VBytes (B "foo"), VInt 42); (VBytes (B "bar"), VBytes (B "spam"))]
  = true /\
  Permutation
    [(VBytes (B "foo"), VInt 42); (VBytes (B "bar"), VBytes (B "spam"))]
    [(VBytes (B "bar"), VBytes (B "spam")); (VBytes (B "foo"), VInt 42)] /\
  encode (VDict [(VBytes (B "foo"), VInt 42);
                 (VBytes (B "bar"), VBytes (B "spam"))]) =
  encode (VDict [(VBytes (B "bar"), VBytes (B "spam"));
                 (VBytes (B "foo"), VInt 42)]).
Proof.
  split; [reflexivity|]. split; [apply perm_swap|].
  apply encode_dict_insertion_order; [reflexivity | apply perm_swap].
Defined.

Lemma join_map_ext (l1 l2 : list value) :
  Forall2 (fun x y => encode x = encode y) l1 l2 ->
  join (map encode l1) = join (map encode l2).
Proof.
  induction 1 as [|x y l1 l2 Hxy _ IH]; [reflexivity|].
  cbn [map join]. rewrite Hxy, IH. reflexivity.
Qed.

(** Two lists of items with the same keys, side by side. *)
Lemma Forall2_zip (d1 d2 : list (value * value)) (R : value -> value -> Prop) :
  Forall2 (fun p q => fst p = fst q /\ R (snd p) (snd q)) d1 d2 ->
  exists z : list (value * (value * value)),
    d1 = map (fun e => (fst e, fst (snd e))) z /\
    d2 = map (fun e => (fst e, snd (snd e))) z /\
    Forall (fun e => R (fst (snd e)) (snd (snd e))) z.
Proof.
  induction 1 as [|[k1 x1] [k2 x2] d1 d2 [Hk Hx] _ (z & -> & -> & Hz)].
  - exists []. repeat split. constructor.
  - cbn [fst snd] in *. subst k2. exists ((k1, (x1, x2)) :: z).
    repeat split. constructor; assumption.
Qed.

Lemma encode_items_zip (z : list (value * (value * value))) :
  Forall (fun e => encode (fst (snd e)) = encode (snd (snd e))) z ->
  encode_items (map (fun e => (fst e, fst (snd e))) z) =
  encode_items (map (fun e => (fst e, snd (snd e))) z).
Proof.
  induction 1 as [|[k [x1 x2]] z Hx _ IH]; [reflexivity|].
  cbn [map fst snd] in *. rewrite !encode_items_cons, Hx, IH. reflexivity.
Qed.

(** X14.  Canonical form at every depth: two values that differ only in
    the order of the items of their dicts, however deep, encode to the
    same bytes (or raise the same exception). *)
Theorem encode_reordered (v1 : value) :
  dicts_ok v1 = true -> forall v2, reordered v1 v2 -> encode v1 = encode v2.
Proof.
  induction v1 as [| | | | |l IH|d IH] using value_ind'; intros Hok v2 Hr;
    inversion Hr; subst; try reflexivity.
  - rewrite !encode_list_eq. cbn [dicts_ok] in Hok.
    rewrite forallb_forall in Hok.
    erewrite join_map_ext; [reflexivity|].
    match goal with H : Forall2 reordered _ _ |- _ => rename H into H2 end.
    clear Hr. induction H2 as [|x y l1 l2 Hxy _ IH2]; constructor.
    + apply (Forall_inv IH); [apply Hok; left; reflexivity | exact Hxy].
    + apply IH2; [eapply Forall_inv_tail, IH|].
      intros x' Hx'. apply Hok. right. exact Hx'.
  - cbn [dicts_ok] in Hok. apply andb_true_iff in Hok as [Hkeys Hvals].
    rewrite forallb_forall in Hvals.
    match goal with H : Permutation d _ |- _ => rename H into Hp end.
    match goal with H : Forall2 _ _ _ |- _ => rename H into H2 end.
    rewrite (encode_dict_permutation d d1' Hkeys Hp).
    destruct (Forall2_zip _ _ _ H2) as (z & -> & -> & Hz).
    rewrite !encode_dict_eq.
    rewrite (py_sorted_map (@item_lt (value * value)) (@item_lt value)
               (fun e => (fst e, fst (snd e)))) by reflexivity.
    rewrite (py_sorted_map (@item_lt (value * value)) (@item_lt value)
               (fun e => (fst e, snd (snd e)))) by reflexivity.
    destruct (py_sorted item_lt z) as [sz|e] eqn:Es; cbn [bind res_map];
      [|reflexivity].
    rewrite (encode_items_zip sz); [reflexivity|].
    pose proof (py_sorted_perm _ _ _ Es) as Hpz.
    apply (Permutation_Forall Hpz).
    rewrite Forall_forall in *. intros [k [x1 x2]] He. cbn [fst snd].
    assert (Hin : In (k, x1) d).
    { apply (Permutation_in _ (Permutation_sym Hp)).
      apply in_map_iff. exists (k, (x1, x2)). split; [reflexivity | exact He]. }
    apply (proj2 (IH _ Hin)); [exact (Hvals _ Hin) | exact (Hz _ He)].
Qed.

Lemma encode_reordered_witness :
  encode (VList [VDict [(VStr [97], VInt 1); (VStr [98], VInt 2)]]) =
  encode (VList [VDict [(VStr [98], VInt 2); (VStr [97], VInt 1)]]).
Proof.
  apply (encode_reordered
           (VList [VDict [(VStr [97], VInt 1); (VStr [98], VInt 2)]])
           eq_refl).
  apply reordered_list. constructor; [|constructor].
  apply (reordered_dict _ [(VStr [98], VInt 2); (VStr [97], VInt 1)]).
  - apply perm_swap.
  - repeat constructor.
Defined.

(** ** The types [encode] knows *)

Lemma str_encode_ok_iff (s : list Z) :
  (exists b, str_encode s = Ok b) <->
  forallb (fun c => negb (is_surrogate c)) s = true.
Proof.
  induction s as [|c s IH]; cbn [str_encode forallb].
  - split; eauto.
  - rewrite andb_true_iff, <- IH. unfold utf8_cp.
    destruct (is_surrogate c) eqn:Hs; cbn [negb].
    + unfold is_surrogate in Hs. apply andb_true_iff in Hs as [H1 H2].
      apply Z.leb_le in H1. apply Z.leb_le in H2.
      destruct (Z.ltb_spec c 128); [lia|].
      destruct (Z.ltb_spec c 2048); [lia|].
      destruct (Z.ltb_spec c 65536); [|lia].
      split; [intros [b Hb]; discriminate | intros [Hb _]; discriminate].
    + destruct (c <? 128), (c <? 2048), (c <? 65536);
        (split; [intros [b H]; split; [reflexivity|];
                 destruct (str_encode s); [eauto | discriminate]
                | intros [_ [b ->]]; cbn [bind]; eauto]).
Qed.

Lemma join_ok_iff (parts : list (res bytes)) :
  (exists b, join parts = Ok b) <-> Forall (fun p => exists b, p = Ok b) parts.
Proof.
  induction parts as [|p parts IH]; cbn [join].
  - split; [constructor | eauto].
  - rewrite Forall_cons_iff, <- IH.
    destruct p as [e|e]; cbn [bind].
    + destruct (join parts); cbn [bind]; split; eauto;
        try (intros [b H]; discriminate);
        try (intros [_ [b H]]; discriminate).
    + split; [intros [b H]; discriminate | intros [[b H] _]; discriminate].
Qed.

Lemma keys_comparable_iff (d : list (value * value)) :
  keys_comparable d = true <-> (length d <= 1)%nat \/ homogeneous d.
Proof.
  unfold keys_comparable, homogeneous.
  rewrite !orb_true_iff, Nat.leb_le, !forallb_forall.
  split.
  - intros [[[H|H]|H]|H]; [left; exact H | right..];
      [exists KNumber | exists KBytes | exists KStr];
      apply Forall_forall; intros [k x] Hkv; specialize (H _ Hkv);
      destruct k; try discriminate; reflexivity.
  - intros [H|[k H]]; [auto|]. rewrite Forall_forall in H.
    destruct k; [left; left; right | left; right | right];
      intros [k x] Hkv; specialize (H _ Hkv); destruct k; try discriminate;
      reflexivity.
Qed.

Lemma py_sorted_ok_iff (d : list (value * value)) :
  (exists sd, py_sorted item_lt d = Ok sd) <-> keys_comparable d = true.
Proof.
  rewrite keys_comparable_iff. split.
  - intros [sd H]. eapply py_sorted_ok_inv, H.
  - intros [H|H]; [|apply py_sorted_homogeneous, H].
    destruct d as [|x [|y d]]; [eexists; reflexivity.. | cbn in H; lia].
Qed.

Lemma encode_items_ok_iff (items : list (value * value)) :
  (exists b, encode_items items = Ok b) <->
  Forall (fun kv => (exists b, encode (fst kv) = Ok b) /\
                    (exists b, encode (snd kv) = Ok b)) items.
Proof.
  unfold encode_items. rewrite join_ok_iff.
  induction items as [|[k x] items IH]; cbn [flat_map app].
  - split; constructor.
  - rewrite !Forall_cons_iff, IH. cbn [fst snd]. tauto.
Qed.

(** [encode] returns bytes exactly for the encodable objects. *)
Lemma encode_ok_iff (v : value) :
  (exists b, encode v = Ok b) <-> encodable v = true.
Proof.
  induction v as [|b|z|b|s|l IH|d IH] using value_ind'.
  - split; [intros [b H]; discriminate | discriminate].
  - cbn [encode encodable]. unfold _encode_bool. rewrite _encode_int_eq.
    split; eauto.
  - cbn [encode encodable]. rewrite _encode_int_eq. split; eauto.
  - cbn [encode encodable]. rewrite _encode_bytes_eq. split; eauto.
  - cbn [encode encodable]. rewrite <- str_encode_ok_iff.
    unfold _encode_str. destruct (str_encode s) as [w|e]; cbn [bind].
    + rewrite _encode_bytes_eq. split; eauto.
    + split; intros [b H]; discriminate.
  - rewrite encode_list_eq. cbn [encodable].
    rewrite forallb_forall, <- Forall_forall.
    assert (Hj : (exists b, join (map encode l) = Ok b) <->
                 Forall (fun x => encodable x = true) l).
    { rewrite join_ok_iff, Forall_map. split; intros H;
        (eapply Forall_impl; [|apply Forall_and; [exact IH | exact H]]);
        intros x [Hx H']; apply Hx, H'. }
    rewrite <- Hj. destruct (join (map encode l)); cbn [bind];
      split; eauto; intros [b H]; discriminate.
  - rewrite encode_dict_eq. cbn [encodable].
    rewrite andb_true_iff, <- py_sorted_ok_iff.
    assert (Hd : Forall (fun kv => (exists b, encode (fst kv) = Ok b) /\
                                   (exists b, encode (snd kv) = Ok b)) d <->
                 forallb (fun '(k, x) => encodable k && encodable x) d = true).
    { rewrite forallb_forall, <- Forall_forall. split; intros H;
        (eapply Forall_impl; [|apply Forall_and; [exact IH | exact H]]).
      - intros [k x] [[Hk Hx] [Hk' Hx']]. cbn [fst snd] in *.
        apply andb_true_iff. split; [apply Hk, Hk' | apply Hx, Hx'].
      - intros [k x] [[Hk Hx] H']. cbn [fst snd] in *.
        apply andb_true_iff in H' as [Hk' Hx'].
        split; [apply Hk, Hk' | apply Hx, Hx']. }
    rewrite <- Hd.
    destruct (py_sorted item_lt d) as [sd|e] eqn:Es; cbn [bind].
    + pose proof (py_sorted_perm _ _ _ Es) as Hp.
      assert (Hi : (exists b, encode_items sd = Ok b) <->
                   Forall (fun kv => (exists b, encode (fst kv) = Ok b) /\
                                     (exists b, encode (snd kv) = Ok b)) d).
      { rewrite encode_items_ok_iff. split; apply Permutation_Forall;
          [apply Permutation_sym, Hp | exact Hp]. }
      rewrite <- Hi. destruct (encode_items sd); cbn [bind].
      * split; eauto.
      * split; [intros [b H]; discriminate | intros [_ [b H]]; discriminate].
    + split; [intros [b H]; discriminate | intros [[sd H] _]; discriminate].
Qed.

(** C8 as the specification states it fails: a list is of a recognized
    type, and [encode] raises on a list that holds an object of an
    unknown type. *)
Lemma encode_recognized_counterexample :
  recognized (VList [VNone]) = true /\
  encode (VList [VNone]) = Raise BencodeEncodeError.
Proof. split; reflexivity. Qed.

(** Two more objects of recognized types on which [encode] raises, and
    not [BencodeEncodeError]: a [str] with a surrogate, and a dict with
    a [bytes] key and a [str] key. *)
Example encode_surrogate :
  encode (VStr [0xD800]) = Raise UnicodeEncodeError.
Proof. reflexivity. Qed.

Example encode_mixed_keys :
  encode (VDict [(VBytes (B "a"), VInt 1); (VStr [98], VInt 2)])
  = Raise TypeError.
Proof. reflexivity. Qed.

(** C8, amended.  For an object of a type [encode] does not know,
    [encode] raises [BencodeEncodeError].  For an object that is built,
    at every depth, from integers, booleans, [bytes], [str] without
    surrogates, lists, and dicts with comparable keys, [encode] returns
    bytes. *)
Theorem encode_unsupported_type :
  (forall v, recognized v = false -> encode v = Raise BencodeEncodeError) /\
  (forall v, encodable v = true -> exists b, encode v = Ok b).
Proof.
  split.
  - intros v Hv. destruct v; try discriminate. reflexivity.
  - intros v Hv. apply encode_ok_iff, Hv.
Qed.

Lemma encode_unsupported_type_witness :
  encode VNone = Raise BencodeEncodeError /\
  exists b,
    encode (VDict [(VStr [102; 111; 111], VList [VBool true; VInt 42]);
                   (VStr [98; 97; 114], VBytes (B "spam"))]) = Ok b.
Proof.
  split.
  - apply (proj1 encode_unsupported_type VNone). reflexivity.
  - apply (proj2 encode_unsupported_type). reflexivity.
Defined.

(** ** UTF-8 keeps the order of code points *)

Lemma utf8_cp_vals (c : Z) (e : bytes) :
  codepoint c -> utf8_cp c = Some e -> map ord e = utf8_vals c.
Proof.
  unfold codepoint, utf8_cp, utf8_vals. intros Hc.
  destruct (Z.ltb_spec c 0x80).
  { intros [= <-]. cbn [map]. rewrite ord_octet by lia. reflexivity. }
  destruct (Z.ltb_spec c 0x800).
  { intros H'. apply (f_equal (fun o => match o with Some x => map ord x
                                              | None => [] end)) in H'.
    rewrite <- H'. cbn [map]. rewrite !ord_octet by lia. reflexivity. }
  destruct (Z.ltb_spec c 0x10000).
  { destruct (is_surrogate c); [discriminate|].
    intros H'. apply (f_equal (fun o => match o with Some x => map ord x
                                              | None => [] end)) in H'.
    rewrite <- H'. cbn [map]. rewrite !ord_octet by lia. reflexivity. }
  intros H'. apply (f_equal (fun o => match o with Some x => map ord x
                                            | None => [] end)) in H'.
  rewrite <- H'. cbn [map]. rewrite !ord_octet by lia. reflexivity.
Qed.

Lemma str_ltb_cons (x y : Z) (a b : list Z) :
  str_ltb (x :: a) (y :: b) =
  if x <? y then true else if y <? x then false else str_ltb a b.
Proof. reflexivity. Qed.

(** The encoding of a smaller code point is below that of a larger one,
    whatever follows. *)
Lemma utf8_vals_lt (c1 c2 : Z) (t1 t2 : list Z) :
  codepoint c1 -> codepoint c2 -> c1 < c2 ->
  str_ltb (utf8_vals c1 ++ t1) (utf8_vals c2 ++ t2) = true.
Proof.
  unfold codepoint, utf8_vals. intros H1 H2 Hlt.
  destruct (Z.ltb_spec c1 0x80); destruct (Z.ltb_spec c2 0x80); try lia;
    destruct (Z.ltb_spec c1 0x800); destruct (Z.ltb_spec c2 0x800); try lia;
    destruct (Z.ltb_spec c1 0x10000); destruct (Z.ltb_spec c2 0x10000);
    try lia; cbn [app]; rewrite ?str_ltb_cons;
    repeat match goal with
      | |- (if ?a <? ?b then _ else _) = true =>
          destruct (Z.ltb_spec a b); [reflexivity|]
      | |- (if ?a <? ?b then false else _) = true =>
          destruct (Z.ltb_spec a b); [lia|]
      end; try lia; rewrite ?str_ltb_cons;
    repeat match goal with
      | |- (if ?a <? ?b then _ else _) = true =>
          destruct (Z.ltb_spec a b); [reflexivity|]
      end; lia.
Qed.

Lemma utf8_vals_nonempty (c : Z) : exists x r, utf8_vals c = x :: r.
Proof.
  unfold utf8_vals.
  destruct (c <? 128), (c <? 2048), (c <? 65536); eauto.
Qed.

Lemma str_ltb_prefix (p a b : list Z) :
  str_ltb (p ++ a) (p ++ b) = str_ltb a b.
Proof.
  induction p as [|x p IH]; [reflexivity|].
  cbn [app]. rewrite str_ltb_cons, Z.ltb_irrefl. exact IH.
Qed.

Lemma str_ltb_asym (a b : list Z) :
  str_ltb a b = true -> str_ltb b a = false.
Proof.
  intros H. destruct (str_ltb b a) eqn:E; [|reflexivity].
  pose proof (str_ltb_trans _ _ _ H E) as Hc.
  rewrite str_ltb_irrefl in Hc. discriminate.
Qed.

Lemma str_encode_cons_vals (c : Z) (s : list Z) (w : bytes) :
  codepoint c -> str_encode (c :: s) = Ok w ->
  exists r, str_encode s = Ok r /\ map ord w = utf8_vals c ++ map ord r.
Proof.
  intros Hc. cbn [str_encode].
  destruct (utf8_cp c) as [e|] eqn:He; [|discriminate].
  destruct (str_encode s) as [r|]; [|discriminate]. cbn [bind].
  intros [= <-]. exists r. split; [reflexivity|].
  rewrite map_app, (utf8_cp_vals c e Hc He). reflexivity.
Qed.

(** The order of two [str] is the order of their UTF-8 bytes. *)
Lemma str_encode_order (s1 s2 : list Z) (w1 w2 : bytes) :
  Forall codepoint s1 -> Forall codepoint s2 ->
  str_encode s1 = Ok w1 -> str_encode s2 = Ok w2 ->
  bytes_ltb w1 w2 = str_ltb s1 s2.
Proof.
  rewrite bytes_ltb_ord. intros H1. revert s2 w1 w2.
  induction H1 as [|c1 s1 Hc1 _ IH]; intros s2 w1 w2 H2 E1 E2.
  - injection E1 as <-. destruct H2 as [|c2 s2 Hc2 _].
    + injection E2 as <-. reflexivity.
    + destruct (str_encode_cons_vals _ _ _ Hc2 E2) as (r & _ & ->).
      destruct (utf8_vals_nonempty c2) as (x & t & ->). reflexivity.
  - destruct (str_encode_cons_vals _ _ _ Hc1 E1) as (r1 & Er1 & ->).
    destruct H2 as [|c2 s2 Hc2 H2].
    + injection E2 as <-.
      destruct (utf8_vals_nonempty c1) as (x & t & ->). reflexivity.
    + destruct (str_encode_cons_vals _ _ _ Hc2 E2) as (r2 & Er2 & ->).
      rewrite str_ltb_cons.
      destruct (Z.ltb_spec c1 c2) as [Hlt|Hge].
      { apply utf8_vals_lt; assumption. }
      destruct (Z.ltb_spec c2 c1) as [Hgt|Hle].
      { apply str_ltb_asym, utf8_vals_lt; assumption. }
      assert (c1 = c2) as -> by lia.
      rewrite str_ltb_prefix. apply (IH s2 r1 r2 H2 Er1 Er2).
Qed.

(** ** The order of the items [encode] writes *)

Lemma StronglySorted_impl_In {A} (R R' : A -> A -> Prop) (l : list A) :
  (forall a b, In a l -> In b l -> R a b -> R' a b) ->
  StronglySorted R l -> StronglySorted R' l.
Proof.
  intros Himp Hs. induction Hs as [|x l Hs IH Hx]; [constructor|].
  constructor.
  - apply IH. intros a b Ha Hb. apply Himp; right; assumption.
  - rewrite Forall_forall in *. intros y Hy.
    apply Himp; [left; reflexivity | right; exact Hy | apply Hx, Hy].
Qed.

(** On keys of the model, of one kind, [<] is the order of the raw
    bytes. *)
Lemma key_ltb_raw (a b : value) :
  kind_of a = kind_of b ->
  is_bytestring a = true -> in_model a = true -> in_model b = true ->
  key_ltb a b = true -> bytes_ltb (raw_key a) (raw_key b) = true.
Proof.
  destruct a; try discriminate; destruct b; try discriminate;
    intros _ _ Ha Hb; unfold key_ltb, raw_key; cbn [key_lt wire_bytes].
  - auto.
  - cbn [in_model] in Ha, Hb. apply forallb_scalarb in Ha, Hb.
    destruct (str_encode_scalar s Ha) as [w1 E1].
    destruct (str_encode_scalar s0 Hb) as [w2 E2].
    rewrite E1, E2.
    rewrite (str_encode_order s s0 w1 w2); auto using scalar_codepoint.
Qed.







(** Code points U+E9, U+FFFF and U+10000 as keys: the order of their
    UTF-8 bytes. *)
Example encode_dict_sorted_bytes :
  encode (VDict [(VStr [0x10000], VInt 1); (VStr [0xFFFF], VInt 2);
                 (VStr [233], VInt 3)])
  = Ok (B "d2:" ++ [xc3; xa9] ++ B "i3e3:" ++ [xef; xbf; xbf] ++
        B "i2e4:" ++ [xf0; x90; x80; x80] ++ B "i1ee").
Proof. reflexivity. Qed.

Example encode_dict_sorted_example :
  encode (VDict [(VBytes (B "foo"), VInt 42);
                 (VBytes (B "bar"), VBytes (B "spam"))])
  = Ok (B "d3:bar4:spam3:fooi42ee").
Proof. reflexivity. Qed.

(** ** The exceptions of [decode] and [encode] *)

(** The strict UTF-8 encoder raises nothing but [UnicodeEncodeError]. *)
Lemma str_encode_raise (s : list Z) (e : exn) :
  str_encode s = Raise e -> e = UnicodeEncodeError.
Proof.
  induction s as [|c s IH]; cbn [str_encode]; [discriminate|].
  destruct (utf8_cp c); [|intros [= <-]; reflexivity].
  destruct (str_encode s); cbn [bind]; [discriminate|].
  intros [= <-]. apply IH. reflexivity.
Qed.

(** An exception of [join] is the exception of one of the parts. *)
Lemma join_raise (parts : list (res bytes)) (e : exn) :
  join parts = Raise e -> In (Raise e) parts.
Proof.
  induction parts as [|p parts IH]; cbn [join]; [discriminate|].
  destruct p as [b|e']; cbn [bind].
  - destruct (join parts); cbn [bind]; [discriminate|].
    intros [= <-]. right. apply IH. reflexivity.
  - intros [= <-]. left. reflexivity.
Qed.

Lemma encode_items_raise (items : list (value * value)) (e : exn) :
  encode_items items = Raise e ->
  exists kv, In kv items /\ (encode (fst kv) = Raise e \/ encode (snd kv) = Raise e).
Proof.
  unfold encode_items. intros H. apply join_raise in H.
  apply in_flat_map in H as [[k x] [Hin [H|[H|[]]]]];
    exists (k, x); auto.
Qed.

(** X1.  The exceptions of [decode]: when [decode] raises, the exception is
    [BencodeDecodeError] or [ValueError], or it is the
    [UnicodeEncodeError] of [data.encode] for a [str] argument that UTF-8
    cannot encode.  [decode] never raises [TypeError] or
    [BencodeEncodeError]. *)
Theorem decode_raises_only (fuel : nat) (data : bytes_or_str) (e : exn) :
  decode fuel data = Some (Raise e) ->
  e = BencodeDecodeError \/ e = ValueError \/
  (e = UnicodeEncodeError /\
   exists s, data = Str s /\ str_encode s = Raise UnicodeEncodeError).
Proof.
  unfold decode. destruct data as [b|s].
  - destruct (_decode fuel b 0) as [[[v j]|e']|] eqn:E; [| |discriminate].
    + destruct (negb (len b =? j)); [|discriminate]. intros [= <-]. auto.
    + intros [= <-].
      destruct (proj1 (_decode_raise fuel) _ _ _ E); auto.
  - destruct (str_encode s) as [b|e'] eqn:Es.
    + destruct (_decode fuel b 0) as [[[v j]|e']|] eqn:E; [| |discriminate].
      * destruct (negb (len b =? j)); [|discriminate]. intros [= <-]. auto.
      * intros [= <-].
        destruct (proj1 (_decode_raise fuel) _ _ _ E); auto.
    + intros [= <-]. pose proof (str_encode_raise _ _ Es) as ->.
      right. right. split; [reflexivity|]. exists s. auto.
Qed.

Lemma decode_raises_only_witness :
  decode 1 (Str [0xDC00]) = Some (Raise UnicodeEncodeError) /\
  (UnicodeEncodeError = BencodeDecodeError \/
   UnicodeEncodeError = ValueError \/
   (UnicodeEncodeError = UnicodeEncodeError /\
    exists s, Str [0xDC00] = Str s /\ str_encode s = Raise UnicodeEncodeError)).
Proof.
  split; [reflexivity|].
  apply (decode_raises_only 1 (Str [0xDC00])). reflexivity.
Defined.

(** X2.  The exceptions of [encode]: when [encode] raises, the object is
    not encodable and the exception is [BencodeEncodeError] (an object of
    an unknown type), [TypeError] (keys that [sorted] cannot compare) or
    [UnicodeEncodeError] (a surrogate in a [str]).  [encode] never raises
    [ValueError] or [BencodeDecodeError]. *)
Theorem encode_raises_only (v : value) (e : exn) :
  encode v = Raise e ->
  encodable v = false /\
  (e = BencodeEncodeError \/ e = TypeError \/ e = UnicodeEncodeError).
Proof.
  intros H. split.
  - destruct (encodable v) eqn:Ev; [|reflexivity].
    apply encode_ok_iff in Ev as [b Hb]. congruence.
  - revert e H.
    induction v as [|b|z|b|s|l IH|d IH] using value_ind'; intros e.
    + intros [= <-]. auto.
    + cbn [encode]. unfold _encode_bool. rewrite _encode_int_eq. discriminate.
    + cbn [encode]. rewrite _encode_int_eq. discriminate.
    + cbn [encode]. rewrite _encode_bytes_eq. discriminate.
    + cbn [encode]. unfold _encode_str.
      destruct (str_encode s) as [w|e'] eqn:Es; cbn [bind].
      * rewrite _encode_bytes_eq. discriminate.
      * intros [= <-]. rewrite (str_encode_raise _ _ Es). auto.
    + rewrite encode_list_eq.
      destruct (join (map encode l)) as [w|e'] eqn:Ej; cbn [bind];
        [discriminate|]. intros [= <-].
      apply join_raise, in_map_iff in Ej as [x [Hx Hin]].
      rewrite Forall_forall in IH. apply (IH x Hin), Hx.
    + rewrite encode_dict_eq.
      destruct (py_sorted item_lt d) as [sd|e'] eqn:Es; cbn [bind].
      * destruct (encode_items sd) as [w|e'] eqn:Ei; cbn [bind];
          [discriminate|]. intros [= <-].
        apply encode_items_raise in Ei as [kv [Hin Hkv]].
        apply (Permutation_in _ (Permutation_sym (py_sorted_perm _ _ _ Es)))
          in Hin.
        rewrite Forall_forall in IH. destruct (IH kv Hin) as [Hk Hx].
        destruct Hkv; auto.
      * intros [= <-]. rewrite (py_sorted_raise _ _ Es). auto.
Qed.

Lemma encode_raises_only_witness :
  encode (VList [VInt 1; VDict [(VInt 1, VNone)]]) = Raise BencodeEncodeError /\
  encodable (VList [VInt 1; VDict [(VInt 1, VNone)]]) = false /\
  (BencodeEncodeError = BencodeEncodeError \/ BencodeEncodeError = TypeError \/
   BencodeEncodeError = UnicodeEncodeError).
Proof.
  split; [reflexivity|].
  apply (encode_raises_only (VList [VInt 1; VDict [(VInt 1, VNone)]])).
  reflexivity.
Defined.

(** ** Termination *)






Lemma starts_with_len (sub l : bytes) :
  starts_with sub l = true -> len sub <= len l.
Proof.
  revert l. induction sub as [|x sub IH]; intros l; cbn [starts_with].
  - intros _. pose proof (len_nonneg l). lens.
  - destruct l as [|y l]; [discriminate|]. intros H.
    apply andb_true_iff in H as [_ H]. apply IH in H. lens.
Qed.

(** Where [bytes.index] finds [sub]: at or after the start, and inside the
    buffer. *)
Lemma find_sub_bounds (sub l : bytes) (pos j : Z) :
  find_sub sub l pos = Some j -> pos <= j /\ j + len sub <= pos + len l.
Proof.
  revert pos. induction l as [|y l IH]; intros pos; cbn [find_sub].
  - destruct (starts_with sub []) eqn:Hs; [|discriminate].
    intros [= <-]. apply starts_with_len in Hs. lia.
  - destruct (starts_with sub (y :: l)) eqn:Hs.
    + intros [= <-]. apply starts_with_len in Hs. lia.
    + intros H. apply IH in H. lens.
Qed.








(** ** The shape of a decoded value *)

(** A decoded byte string has the shape of a decoded value. *)
Lemma decoded_surface (w : bytes) :
  is_bytestring (surface w) && decoded (surface w) = true.
Proof.
  unfold surface. destruct (bytes_decode w) as [s|] eqn:E; cbn.
  - apply forallb_scalarb. eapply str_encode_bytes_decode, E.
  - rewrite E. reflexivity.
Qed.

Lemma _decode_str_surface (data : bytes) (i j : Z) (v : value) :
  _decode_str data i = Ok (v, j) -> exists w, v = surface w.
Proof.
  unfold _decode_str. destruct (py_index data COLON i) as [c|]; cbn [bind];
    [|discriminate].
  destruct (py_int _) as [n|]; cbn [bind]; [|discriminate].
  intros [= <- _]. eexists. reflexivity.
Qed.

Lemma _decode_int_VInt (data : bytes) (i j : Z) (v : value) :
  _decode_int data i = Ok (v, j) -> exists z, v = VInt z.
Proof.
  unfold _decode_int. destruct (py_index data END (i + 1)) as [c|]; cbn [bind];
    [|discriminate].
  destruct (py_int _) as [n|]; cbn [bind]; [|discriminate].
  intros [= <- _]. eexists. reflexivity.
Qed.

Lemma existsb_dict_set (k0 k v : value) (d : list (value * value)) :
  key_eqb k0 k = false ->
  existsb (fun kv => key_eqb k0 (fst kv)) (dict_set d k v) =
  existsb (fun kv => key_eqb k0 (fst kv)) d.
Proof.
  intros Hk. induction d as [|[k1 x1] d IH]; cbn [dict_set existsb fst].
  - rewrite Hk. reflexivity.
  - destruct (key_eqb k1 k); cbn [existsb fst]; [reflexivity|].
    rewrite IH. reflexivity.
Qed.

(** [result[key] = v] keeps the keys pairwise unequal. *)
Lemma keys_nodupb_dict_set (d : list (value * value)) (k v : value) :
  keys_nodupb d = true -> keys_nodupb (dict_set d k v) = true.
Proof.
  induction d as [|[k0 x0] d IH]; cbn [dict_set keys_nodupb]; [reflexivity|].
  intros H. apply andb_true_iff in H as [H1 H2].
  destruct (key_eqb k0 k) eqn:Hk; cbn [keys_nodupb].
  - rewrite H1, H2. reflexivity.
  - rewrite existsb_dict_set, H1, (IH H2) by exact Hk. reflexivity.
Qed.

Lemma decoded_dict_set (d : list (value * value)) (k v : value) :
  decoded (VDict d) = true ->
  is_bytestring k && decoded k = true -> decoded v = true ->
  decoded (VDict (dict_set d k v)) = true.
Proof.
  cbn [decoded]. intros H Hk Hv. apply andb_true_iff in H as [H1 H2].
  apply andb_true_iff. split; [|apply keys_nodupb_dict_set, H2].
  clear H2. induction d as [|[k0 x0] d IH]; cbn [dict_set forallb].
  - rewrite Hk, Hv. reflexivity.
  - cbn [forallb] in H1. apply andb_true_iff in H1 as [H0 H1].
    destruct (key_eqb k0 k); cbn [forallb].
    + apply andb_true_iff in H0 as [H0 _]. rewrite H0, Hv, H1. reflexivity.
    + rewrite H0, (IH H1). reflexivity.
Qed.

(** The shape of the value, for [_decode] and for the two loops with the
    dict or list built so far. *)
Lemma _decode_decoded (n : nat) :
  (forall data i v j, _decode n data i = Some (Ok (v, j)) ->
                      decoded v = true) /\
  (forall data i d v j, decoded (VDict d) = true ->
                        _decode_dict_loop n data i d = Some (Ok (v, j)) ->
                        decoded v = true) /\
  (forall data i l v j, decoded (VList l) = true ->
                        _decode_list_loop n data i l = Some (Ok (v, j)) ->
                        decoded v = true).
Proof.
  induction n as [|n [IHd [IHdl IHll]]]; [repeat split; discriminate|].
  repeat split.
  - intros data i v j. rewrite _decode_S. cbv zeta.
    destruct (bytes_eqb _ INTEGER).
    { intros [= H]. apply _decode_int_VInt in H as [z ->]. reflexivity. }
    destruct (isdigit _).
    { intros [= H]. apply _decode_str_surface in H as [w ->].
      pose proof (decoded_surface w) as H. apply andb_true_iff in H. apply H. }
    destruct (bytes_eqb _ DICT); [apply IHdl; reflexivity|].
    destruct (bytes_eqb _ LIST); [apply IHll; reflexivity|].
    discriminate.
  - intros data i d v j Hd. rewrite _decode_dict_loop_S.
    destruct (negb _); [|intros [= <- _]; exact Hd].
    destruct (_decode_str data i) as [[key i1]|e] eqn:Ek; [|discriminate].
    destruct (_decode n data i1) as [[[x i2]|e]|] eqn:Ex; try discriminate.
    apply IHdl. apply _decode_str_surface in Ek as [w ->].
    apply decoded_dict_set; [exact Hd | apply decoded_surface |].
    eapply IHd, Ex.
  - intros data i l v j Hl. rewrite _decode_list_loop_S.
    destruct (negb _); [|intros [= <- _]; exact Hl].
    destruct (_decode n data i) as [[[x i1]|e]|] eqn:Ex; try discriminate.
    apply IHll. cbn [decoded] in *. rewrite forallb_app, Hl. cbn [forallb].
    rewrite (IHd _ _ _ _ Ex). reflexivity.
Qed.

(** X4.  What [decode] returns: a value built from integers, [str],
    [bytes], lists and dicts, in which every [str] holds code points that
    UTF-8 encodes, every [bytes] is not valid UTF-8 (a byte string that is
    valid UTF-8 always comes back as [str]), and the keys of every dict
    are byte strings, no two of them equal.  [decode] never returns a
    bool or an object of another type. *)
Theorem decode_decoded (fuel : nat) (data : bytes_or_str) (v : value) :
  decode fuel data = Some (Ok v) -> decoded v = true.
Proof.
  unfold decode. destruct (match data with Str s => str_encode s | Bytes b => Ok b end)
    as [b|e]; [|discriminate].
  destruct (_decode fuel b 0) as [[[x j]|e]|] eqn:E; try discriminate.
  destruct (negb _); [discriminate|]. intros [= <-].
  eapply (proj1 (_decode_decoded fuel)), E.
Qed.

Lemma decode_decoded_witness :
  decode 10 (Bytes (B "d1:al1:b2:" ++ [xff; xfe] ++ B "ee"))
  = Some (Ok (VDict [(VStr [97], VList [VStr [98]; VBytes [xff; xfe]])])) /\
  decoded (VDict [(VStr [97], VList [VStr [98]; VBytes [xff; xfe]])]) = true.
Proof.
  split; [reflexivity|].
  apply (decode_decoded 10 (Bytes (B "d1:al1:b2:" ++ [xff; xfe] ++ B "ee"))).
  reflexivity.
Defined.

(** ** Dicts with numbers as keys *)

(** [int] refuses a literal that starts with a byte that is neither white
    space, a sign nor a digit. *)
Lemma py_int_not_literal (c : byte) (r : bytes) :
  is_space c = false -> is_digit c = false ->
  c <> "+"%byte -> c <> "-"%byte ->
  py_int (c :: r) = Raise ValueError.
Proof.
  intros Hs Hd Hp Hm. unfold py_int. rewrite lstrip_nonspace by exact Hs.
  apply byte_eqb_neq in Hp, Hm. rewrite Hp, Hm, Hd. reflexivity.
Qed.

(** Where a key is expected, [_decode_str] fails on the encoding of an
    integer. *)
Lemma _decode_str_integer_key (c0 : byte) (rest : bytes) :
  _decode_str (c0 :: "i"%byte :: rest) 1 = Raise ValueError.
Proof.
  unfold _decode_str, py_index.
  pose proof (len_nonneg rest) as Hr.
  destruct (Z.ltb_spec 1 0); [lia|].
  destruct (Z.ltb_spec (len (c0 :: "i"%byte :: rest)) 1); [lens|].
  change (skipn (Z.to_nat 1) (c0 :: "i"%byte :: rest)) with ("i"%byte :: rest).
  change (find_sub COLON ("i"%byte :: rest) 1) with (find_sub COLON rest (1 + 1)).
  destruct (find_sub COLON rest (1 + 1)) as [j|] eqn:Hj; [|reflexivity].
  apply find_sub_bounds in Hj. change (len COLON) with 1 in Hj.
  cbn [bind].
  assert (Hs : exists r, py_slice (c0 :: "i"%byte :: rest) 1 j = "i"%byte :: r).
  { unfold py_slice. rewrite !clip_inside by lens.
    change (skipn (Z.to_nat 1) (c0 :: "i"%byte :: rest)) with ("i"%byte :: rest).
    replace (Z.to_nat (j - 1)) with (S (Z.to_nat (j - 2))) by lia.
    cbn [firstn]. eauto. }
  destruct Hs as [r ->]. rewrite py_int_not_literal; try reflexivity; discriminate.
Qed.

(** X5.  [encode] accepts a dict whose keys are numbers, and [decode] does
    not read what it writes: for a dict that is not empty, with integers
    or booleans as keys and encodable values, [encode] returns bytes and
    [decode] raises [ValueError] on them. *)
Theorem encode_number_keys_not_decodable (d : list (value * value)) (fuel : nat) :
  d <> [] ->
  forallb (fun kv => is_number (fst kv)) d = true ->
  forallb (fun kv => encodable (snd kv)) d = true ->
  exists b, encode (VDict d) = Ok b /\
            decode (S (S fuel)) (Bytes b) = Some (Raise ValueError).
Proof.
  intros Hne Hk Hx.
  assert (He : encodable (VDict d) = true).
  { cbn [encodable]. unfold keys_comparable. rewrite Hk, orb_true_r. cbn [orb andb].
    rewrite forallb_forall in *. intros [k x] Hin.
    specialize (Hk _ Hin). specialize (Hx _ Hin). cbn [fst snd] in *.
    rewrite Hx, andb_true_r. destruct k; try discriminate; reflexivity. }
  apply encode_ok_iff in He as [b Hb]. exists b. split; [exact Hb|].
  rewrite encode_dict_eq in Hb.
  destruct (py_sorted item_lt d) as [sd|] eqn:Es; cbn [bind] in Hb;
    [|discriminate].
  pose proof (py_sorted_perm _ _ _ Es) as Hp.
  destruct sd as [|[k x] sd].
  { apply Permutation_sym, Permutation_nil in Hp. contradiction. }
  assert (Hin : In (k, x) d).
  { eapply Permutation_in; [apply Permutation_sym, Hp | left; reflexivity]. }
  rewrite forallb_forall in Hk. specialize (Hk _ Hin). cbn [fst] in Hk.
  rewrite encode_items_cons in Hb.
  assert (Hek : exists p, encode k = Ok (INTEGER ++ p)).
  { destruct k; try discriminate; cbn [encode]; unfold _encode_bool;
      rewrite _encode_int_eq; eauto. }
  destruct Hek as [p Hek]. rewrite Hek in Hb. cbn [bind] in Hb.
  destruct (encode x) as [ex|]; cbn [bind] in Hb; [|discriminate].
  destruct (encode_items sd) as [r|]; cbn [bind] in Hb; [|discriminate].
  injection Hb as <-.
  rewrite decode_bytes_eq.
  change (DICT ++ ((INTEGER ++ p) ++ ex ++ r) ++ END)
    with ("d"%byte :: "i"%byte :: (p ++ ex ++ r) ++ END).
  rewrite _decode_S. cbv zeta.
  change (py_slice ("d"%byte :: "i"%byte :: (p ++ ex ++ r) ++ END) 0 (0 + 1))
    with (py_slice ([] ++ "d"%byte :: "i"%byte :: (p ++ ex ++ r) ++ END)
            (len (@nil byte)) (len (@nil byte) + 1)).
  rewrite py_slice_byte. cbn [bytes_eqb INTEGER DICT B list_byte_of_string Byte.eqb isdigit forallb is_digit].
  unfold _decode_dict. rewrite _decode_dict_loop_S.
  change (py_slice ("d"%byte :: "i"%byte :: (p ++ ex ++ r) ++ END) (0 + 1) (0 + 1 + 1))
    with (py_slice (["d"%byte] ++ "i"%byte :: (p ++ ex ++ r) ++ END)
            (len ["d"%byte]) (len ["d"%byte] + 1)).
  rewrite py_slice_byte.
  change (0 + 1) with 1. rewrite _decode_str_integer_key. reflexivity.
Qed.

Lemma encode_number_keys_not_decodable_witness :
  exists b,
    encode (VDict [(VInt 7, VBytes (B "a")); (VBool false, VInt 2)]) = Ok b /\
    decode 2 (Bytes b) = Some (Raise ValueError).
Proof.
  apply (encode_number_keys_not_decodable
           [(VInt 7, VBytes (B "a")); (VBool false, VInt 2)] 0);
    [discriminate | reflexivity | reflexivity].
Defined.

(** ** The length prefix of a byte string *)

(** A slice that starts inside the buffer and may end past it. *)
Lemma py_slice_truncated (pre p : bytes) (n : Z) :
  0 <= n ->
  py_slice (pre ++ p) (len pre) (len pre + n) = firstn (Z.to_nat n) p.
Proof.
  intros Hn. unfold py_slice.
  pose proof (len_nonneg pre). pose proof (len_nonneg p).
  rewrite (clip_inside (len (pre ++ p)) (len pre)) by lens.
  replace (skipn (Z.to_nat (len pre)) (pre ++ p)) with p.
  2:{ unfold len. rewrite Nat2Z.id, skipn_app, skipn_all, Nat.sub_diag.
      reflexivity. }
  unfold clip. destruct (Z.ltb_spec (len pre + n) 0); [lia|].
  destruct (Z.le_gt_cases (len pre + n) (len (pre ++ p))).
  - rewrite Z.min_l by lia. f_equal. lia.
  - rewrite Z.min_r by lia. rewrite len_app.
    replace (len pre + len p - len pre) with (len p) by lia.
    unfold len. rewrite Nat2Z.id, firstn_all.
    symmetry. apply firstn_all2. unfold len in *. rewrite length_app in *. lia.
Qed.

Lemma no_colon_prefix (d : Decimal.uint) (ws : bytes) :
  forallb is_space ws = true -> ~ In ":"%byte (uint_bytes d ++ ws).
Proof.
  intros Hws Hin. apply in_app_or in Hin as [Hin|Hin].
  - apply uint_bytes_In in Hin. discriminate.
  - rewrite forallb_forall in Hws. apply Hws in Hin. discriminate.
Qed.

(** [_decode_str] on a length written with any digits, white space before
    the colon, and any number of bytes after it. *)
Lemma _decode_str_prefixed (d : Decimal.uint) (ws p : bytes) :
  uint_is_nil d = false -> forallb is_space ws = true ->
  _decode_str (uint_bytes d ++ ws ++ COLON ++ p) 0 =
  Ok (surface (firstn (Z.to_nat (Z.of_uint d)) p),
      len (uint_bytes d ++ ws) + 1 + Z.of_uint d).
Proof.
  intros Hd Hws. unfold _decode_str. change COLON with [":"%byte].
  assert (Hnn : 0 <= Z.of_uint d).
  { unfold Z.of_uint. lia. }
  pose proof (py_index_segment [] (uint_bytes d ++ ws) ":"%byte p
                (no_colon_prefix d ws Hws)) as Hi.
  cbn [app] in Hi. rewrite <- app_assoc in Hi. change (len []) with 0 in Hi.
  cbn [app]. rewrite Hi. cbn [bind].
  pose proof (py_slice_segment [] (uint_bytes d ++ ws) (":"%byte :: p)) as Hs.
  cbn [app] in Hs. rewrite <- app_assoc in Hs. change (len []) with 0 in Hs.
  rewrite Hs.
  pose proof (py_int_literal [] [] d ws eq_refl Hws) as Hn.
  cbn [app] in Hn. change (bytes_eqb [] (B "-")) with false in Hn.
  rewrite Hn; [|destruct d; discriminate || (intros _; discriminate) | auto].
  cbn [bind].
  pose proof (py_slice_truncated ((uint_bytes d ++ ws) ++ [":"%byte]) p
                (Z.of_uint d) Hnn) as Ht.
  rewrite <- !app_assoc in Ht. cbn [app] in Ht.
  replace (len (uint_bytes d ++ ws ++ [":"%byte]))
    with (0 + len (uint_bytes d ++ ws) + 1) in Ht by lens.
  cbv zeta. rewrite Ht. unfold surface. reflexivity.
Qed.

(** X6.  The length prefix of a byte string: for a buffer made of decimal
    digits (leading zeros allowed), optional white space, a colon and a
    payload, [decode] returns the payload when its length is the number
    the digits denote, and raises [BencodeDecodeError] when the payload
    is shorter or longer. *)
Theorem decode_byte_string (d : Decimal.uint) (ws p : bytes) (fuel : nat) :
  uint_is_nil d = false -> forallb is_space ws = true ->
  decode (S fuel) (Bytes (uint_bytes d ++ ws ++ COLON ++ p)) =
  Some (if len p =? Z.of_uint d then Ok (surface p)
        else Raise BencodeDecodeError).
Proof.
  intros Hd Hws. rewrite decode_bytes_eq, _decode_S. cbv zeta.
  assert (Hd' : d <> Decimal.Nil) by (destruct d; discriminate).
  destruct (uint_bytes_nonnil d Hd') as (k & d' & Hk & Hcr & _).
  assert (Hch : py_slice (uint_bytes d ++ ws ++ COLON ++ p) 0 (0 + 1)
                = [octet k]).
  { rewrite Hcr. apply (py_slice_byte [] (octet k)). }
  rewrite Hch. destruct (is_digit_octet k Hk) as [Hc _].
  assert (Hi : bytes_eqb [octet k] INTEGER = false).
  { apply bytes_eqb_neq. intros [= E]. rewrite E in Hc. discriminate. }
  rewrite Hi. cbn [isdigit forallb]. rewrite Hc. cbn [andb].
  rewrite _decode_str_prefixed by assumption.
  change COLON with [":"%byte].
  replace (len (uint_bytes d ++ ws ++ [":"%byte] ++ p))
    with (len (uint_bytes d ++ ws) + 1 + len p) by lens.
  destruct (Z.eqb_spec (len p) (Z.of_uint d)) as [E|E].
  - rewrite <- E. rewrite Z.eqb_refl. cbn [negb].
    unfold len. rewrite Nat2Z.id, firstn_all. reflexivity.
  - replace (len (uint_bytes d ++ ws) + 1 + len p =?
             len (uint_bytes d ++ ws) + 1 + Z.of_uint d) with false; [reflexivity|].
    symmetry. apply Z.eqb_neq. lia.
Qed.

Lemma decode_byte_string_witness :
  decode 1 (Bytes (B "03 :abc")) = Some (Ok (VStr [97; 98; 99])) /\
  decode 1 (Bytes (B "5:abc")) = Some (Raise BencodeDecodeError).
Proof.
  split.
  - apply (decode_byte_string (Decimal.D0 (Decimal.D3 Decimal.Nil)) (B " ")
             (B "abc") 0); reflexivity.
  - apply (decode_byte_string (Decimal.D5 Decimal.Nil) [] (B "abc") 0);
      reflexivity.
Defined.

(** ** Equal encodings *)

Lemma Forall2_flip_in {A} (R : A -> A -> Prop) (l1 l2 : list A) :
  Forall (fun x => forall y, R x y -> R y x) l1 ->
  Forall2 R l1 l2 -> Forall2 R l2 l1.
Proof.
  intros HF H. induction H as [|x y l1 l2 Hxy H IH]; constructor.
  - inversion HF; subst. auto.
  - apply IH. inversion HF; assumption.
Qed.

Lemma Forall2_trans_in {A} (R : A -> A -> Prop) (l1 l2 l3 : list A) :
  Forall (fun x => forall y z, R x y -> R y z -> R x z) l1 ->
  Forall2 R l1 l2 -> Forall2 R l2 l3 -> Forall2 R l1 l3.
Proof.
  intros HF H. revert l3. induction H as [|x y l1 l2 Hxy H IH]; intros l3 H3.
  - inversion H3. constructor.
  - inversion H3 as [|y' z l2' l3' Hyz H3']; subst. inversion HF; subst.
    constructor; eauto.
Qed.

(** [same_value] is symmetric and transitive. *)
Lemma same_value_sym (v1 v2 : value) : same_value v1 v2 -> same_value v2 v1.
Proof.
  revert v2.
  induction v1 as [|b|z|b|s|l IH|d IH] using value_ind'; intros v2 H;
    inversion H as [z'|a b' w Ha Hb|l1 l2 Hl|d1 d1' d2' d2 Hp1 HF Hp2]; subst;
    try (eapply same_bytestring; eassumption).
  - constructor.
  - constructor. apply Forall2_flip_in; assumption.
  - apply (same_dict d2 d2' d1' d); try (apply Permutation_sym; assumption).
    apply (Forall2_flip_in
             (fun p q => same_value (fst p) (fst q) /\
                         same_value (snd p) (snd q))); [|exact HF].
    eapply Permutation_Forall; [exact Hp1|].
    eapply Forall_impl; [|exact IH].
    intros [k x] [Hk Hx] [k' x'] [H1 H2]. cbn [fst snd] in *. auto.
Qed.

Lemma same_value_trans (v1 v2 v3 : value) :
  same_value v1 v2 -> same_value v2 v3 -> same_value v1 v3.
Proof.
  revert v2 v3.
  induction v1 as [|b|z|b|s|l IH|d IH] using value_ind'; intros v2 v3 H12 H23;
    inversion H12 as [z'|a b' w Ha Hb|l1 l2 Hl|d1 d1' d2' d2 Hp1 HF Hp2]; subst;
    try (inversion H23 as [z''|a' b'' w' Ha' Hb'|l1' l2' Hl'
                          |e1 e1' e2' e2 Hq1 HG Hq2]; subst;
         try discriminate;
         try (rewrite Hb in Ha'; injection Ha' as <-;
              eapply same_bytestring; eassumption);
         try (destruct v2; discriminate)).
  - constructor.
  - constructor. eapply Forall2_trans_in; eassumption.
  - destruct (Permutation_Forall2
                (Permutation_trans (Permutation_sym Hq1) (Permutation_sym Hp2))
                HG)
      as [e' [He1 He2]].
    apply (same_dict d d1' e' e2);
      [exact Hp1 | | exact (Permutation_trans (Permutation_sym He1) Hq2)].
    apply (Forall2_trans_in
             (fun p q => same_value (fst p) (fst q) /\
                         same_value (snd p) (snd q)) d1' d2' e');
      [|exact HF|exact He2].
    eapply Permutation_Forall; [exact Hp1|].
    eapply Forall_impl; [|exact IH].
    intros [k x] [Hk Hx] [k1 x1] [k2 x2] [H1 H2] [H3 H4]. cbn [fst snd] in *.
    split; eauto.
Qed.

(** An encoding the decoder reads is not a proper prefix of another one. *)
Lemma reads_unique (b x : bytes) (v1 v2 : value) (n1 n2 : nat) :
  reads b v1 n1 -> reads (b ++ x) v2 n2 -> v1 = v2 /\ x = [].
Proof.
  intros H1 H2.
  specialize (H1 [] x (n1 + n2)%nat ltac:(lia)).
  specialize (H2 [] [] (n1 + n2)%nat ltac:(lia)).
  cbn [app] in *. rewrite List.app_nil_r in H2. rewrite H1 in H2.
  injection H2 as Hv Hl. split; [exact Hv|].
  rewrite len_app in Hl. pose proof (len_nonneg x).
  destruct x; [reflexivity|]. rewrite len_cons in Hl.
  pose proof (len_nonneg x). lia.
Qed.

(** X7.  Encodings are self-delimiting: the encoding of a value of the
    model is never a proper prefix of the encoding of another. *)
Theorem encode_prefix_free (v1 v2 : value) (b x : bytes) :
  in_model v1 = true -> in_model v2 = true ->
  encode v1 = Ok b -> encode v2 = Ok (b ++ x) -> x = [].
Proof.
  intros H1 H2 E1 E2.
  destruct (roundtrip_in_model v1 H1) as (b1 & v1' & Hb1 & _ & _ & Hr1).
  destruct (roundtrip_in_model v2 H2) as (b2 & v2' & Hb2 & _ & _ & Hr2).
  rewrite E1 in Hb1. injection Hb1 as <-.
  rewrite E2 in Hb2. injection Hb2 as <-.
  apply (reads_unique _ _ _ _ _ _ Hr1 Hr2).
Qed.

Lemma encode_prefix_free_witness :
  encode (VStr [97]) = Ok (B "1:a") /\
  encode (VBytes (B "a")) = Ok (B "1:a" ++ []) /\ @nil byte = [].
Proof.
  split; [reflexivity|]. split; [reflexivity|].
  apply (encode_prefix_free (VStr [97]) (VBytes (B "a")) (B "1:a") []);
    reflexivity.
Defined.

Lemma wire_bytes_bytestring (v : value) (w : bytes) :
  wire_bytes v = Some w -> is_bytestring v = true.
Proof. destruct v; try discriminate; reflexivity. Qed.

(** On keys of the model, of one kind, [<] is the order of the raw bytes. *)
Lemma key_ltb_raw_eq (a b : value) :
  kind_of a = kind_of b ->
  is_bytestring a = true -> in_model a = true -> in_model b = true ->
  key_ltb a b = bytes_ltb (raw_key a) (raw_key b).
Proof.
  destruct a; try discriminate; destruct b; try discriminate;
    intros _ _ Ha Hb; unfold key_ltb, raw_key; cbn [key_lt wire_bytes].
  - reflexivity.
  - cbn [in_model] in Ha, Hb. apply forallb_scalarb in Ha, Hb.
    destruct (str_encode_scalar s Ha) as [w1 E1].
    destruct (str_encode_scalar s0 Hb) as [w2 E2].
    rewrite E1, E2.
    rewrite (str_encode_order s s0 w1 w2); auto using scalar_codepoint.
Qed.

Lemma same_value_raw_key (a b : value) :
  is_bytestring a = true -> same_value a b -> raw_key a = raw_key b.
Proof.
  intros Ha H. inversion H as [z|a' b' w Hwa Hwb| |]; subst; try discriminate.
  unfold raw_key. rewrite Hwa, Hwb. reflexivity.
Qed.

Lemma same_value_bytestring (a b : value) :
  is_bytestring a = true -> same_value a b -> is_bytestring b = true.
Proof.
  intros Ha H. inversion H as [z|a' b' w Hwa Hwb| |]; subst; try discriminate.
  eapply wire_bytes_bytestring, Hwb.
Qed.

Lemma encode_same_bytestring (a b : value) :
  is_bytestring a = true -> in_model a = true -> in_model b = true ->
  same_value a b -> encode a = encode b.
Proof.
  intros Ha Ma Mb H. pose proof (same_value_bytestring a b Ha H) as Hb.
  inversion H as [z|a' b' w Hwa Hwb| |]; subst; try discriminate.
  destruct (encode_bytestring a Ha Ma) as (w1 & H1 & ->).
  destruct (encode_bytestring b Hb Mb) as (w2 & H2 & ->).
  congruence.
Qed.

(** What [in_model] says of the items of a dict holds of every
    permutation of the items. *)
Lemma dict_facts_perm (d d' : list (value * value)) :
  Permutation d d' ->
  homogeneous d /\ NoDup (map fst d) /\
  Forall (fun kv => is_bytestring (fst kv) = true /\
                    in_model (fst kv) = true /\ in_model (snd kv) = true) d ->
  homogeneous d' /\ NoDup (map fst d') /\
  Forall (fun kv => is_bytestring (fst kv) = true /\
                    in_model (fst kv) = true /\ in_model (snd kv) = true) d'.
Proof.
  intros Hp ([k Hk] & Hn & Ha). repeat split.
  - exists k. eapply Permutation_Forall; eassumption.
  - eapply Permutation_NoDup; [apply Permutation_map, Hp | exact Hn].
  - eapply Permutation_Forall; eassumption.
Qed.

Lemma bytestring_keys_nodup (d : list (value * value)) :
  Forall (fun kv => is_bytestring (fst kv) = true /\
                    in_model (fst kv) = true /\ in_model (snd kv) = true) d ->
  NoDup (map fst d) -> keys_nodup d.
Proof.
  intros Ha Hn. unfold keys_nodup.
  rewrite (map_ext_in (fun x => key_norm (fst x)) fst); [exact Hn|].
  intros [k x] Hin. rewrite Forall_forall in Ha.
  destruct (Ha _ Hin) as [Hb _]. cbn [fst] in *.
  destruct k; try discriminate; reflexivity.
Qed.

Lemma item_below_same (p1 p2 q1 q2 : value * value) :
  kind_of (fst p1) = kind_of (fst p2) -> kind_of (fst q1) = kind_of (fst q2) ->
  is_bytestring (fst p1) = true ->
  in_model (fst p1) = true -> in_model (fst p2) = true ->
  in_model (fst q1) = true -> in_model (fst q2) = true ->
  same_value (fst p1) (fst q1) -> same_value (fst p2) (fst q2) ->
  is_bytestring (fst p2) = true ->
  item_below p1 p2 -> item_below q1 q2.
Proof.
  intros Kp Kq B1 M1 M2 N1 N2 S1 S2 B2. unfold item_below.
  rewrite (key_ltb_raw_eq _ _ Kp B1 M1 M2).
  rewrite (key_ltb_raw_eq _ _ Kq (same_value_bytestring _ _ B1 S1) N1 N2).
  rewrite (same_value_raw_key _ _ B1 S1), (same_value_raw_key _ _ B2 S2).
  auto.
Qed.

(** Items sorted by their keys stay sorted when each key is replaced by
    the same byte string of the other type. *)
Lemma sorted_same (k1 k2 : key_kind) (s1 s2 : list (value * value)) :
  Forall (fun kv => kind_of (fst kv) = Some k1) s1 ->
  Forall (fun kv => kind_of (fst kv) = Some k2) s2 ->
  Forall (fun kv => is_bytestring (fst kv) = true /\
                    in_model (fst kv) = true /\ in_model (snd kv) = true) s1 ->
  Forall (fun kv => is_bytestring (fst kv) = true /\
                    in_model (fst kv) = true /\ in_model (snd kv) = true) s2 ->
  Forall2 (fun p q => same_value (fst p) (fst q)) s1 s2 ->
  StronglySorted item_below s1 -> StronglySorted item_below s2.
Proof.
  intros K1 K2 A1 A2 H. induction H as [|p q s1 s2 Hpq H IH]; intros Hs;
    [constructor|].
  apply StronglySorted_inv in Hs as [Hs Hp].
  apply Forall_cons_iff in K1 as [Kp K1]. apply Forall_cons_iff in K2 as [Kq K2].
  apply Forall_cons_iff in A1 as [(Bp & Mp & _) A1].
  apply Forall_cons_iff in A2 as [(Bq & Mq & _) A2].
  constructor; [apply IH; assumption|].
  clear IH Hs. induction H as [|p' q' s1 s2 Hpq' H IH]; constructor.
  - apply Forall_inv in Hp, K1, K2, A1, A2.
    destruct A1 as (Bp' & Mp' & _), A2 as (Bq' & Mq' & _).
    apply (item_below_same p p' q q'); auto; congruence.
  - apply IH; eapply Forall_inv_tail; eassumption.
Qed.

Lemma encode_items_same (s1 s2 : list (value * value)) :
  Forall2 (fun p q => encode (fst p) = encode (fst q) /\
                      encode (snd p) = encode (snd q)) s1 s2 ->
  encode_items s1 = encode_items s2.
Proof.
  induction 1 as [|[k x] [k' x'] s1 s2 [Hk Hx] _ IH]; [reflexivity|].
  cbn [fst snd] in *. rewrite !encode_items_cons, Hk, Hx, IH. reflexivity.
Qed.

Lemma Forall2_impl_Forall {A C} (P : A -> Prop) (Q : C -> Prop)
  (R R' : A -> C -> Prop) (l1 : list A) (l2 : list C) :
  (forall x y, P x -> Q y -> R x y -> R' x y) ->
  Forall P l1 -> Forall Q l2 -> Forall2 R l1 l2 -> Forall2 R' l1 l2.
Proof.
  intros Himp H1 H2 H. induction H as [|x y l1 l2 Hxy H IH]; constructor.
  - apply Himp; [eapply Forall_inv, H1 | eapply Forall_inv, H2 | exact Hxy].
  - apply IH; eapply Forall_inv_tail; eassumption.
Qed.

(** Dicts with the same keys, as byte strings, and values with equal
    encodings have equal encodings. *)
Lemma encode_dict_same (d1 d2 : list (value * value)) :
  (homogeneous d1 /\ NoDup (map fst d1) /\
   Forall (fun kv => is_bytestring (fst kv) = true /\
                     in_model (fst kv) = true /\ in_model (snd kv) = true) d1) ->
  (homogeneous d2 /\ NoDup (map fst d2) /\
   Forall (fun kv => is_bytestring (fst kv) = true /\
                     in_model (fst kv) = true /\ in_model (snd kv) = true) d2) ->
  Forall2 (fun p q => same_value (fst p) (fst q) /\
                      encode (snd p) = encode (snd q)) d1 d2 ->
  encode (VDict d1) = encode (VDict d2).
Proof.
  intros F1 F2 HR.
  destruct (py_sorted_homogeneous d1 (proj1 F1)) as [s1 E1].
  destruct (py_sorted_homogeneous d2 (proj1 F2)) as [s2 E2].
  pose proof (py_sorted_perm _ _ _ E1) as P1.
  pose proof (py_sorted_perm _ _ _ E2) as P2.
  destruct (Permutation_Forall2 P1 HR) as [s2' [P2' HR']].
  destruct (dict_facts_perm _ _ P1 F1) as ([k1 K1] & _ & A1).
  destruct (dict_facts_perm _ _ P2' F2) as ([k2 K2] & _ & A2).
  destruct F1 as (_ & N1 & B1), F2 as (_ & N2 & B2).
  pose proof (py_sorted_strict d1 s1 (bytestring_keys_nodup d1 B1 N1) E1) as S1.
  pose proof (py_sorted_strict d2 s2 (bytestring_keys_nodup d2 B2 N2) E2) as S2.
  assert (S2' : StronglySorted item_below s2').
  { apply (sorted_same k1 k2 s1 s2'); auto.
    eapply Forall2_impl; [|exact HR']. intros p q [H _]. exact H. }
  assert (s2 = s2') as <-.
  { apply sorted_perm_unique; auto.
    eapply Permutation_trans; [apply Permutation_sym, P2 | exact P2']. }
  rewrite !encode_dict_eq, E1, E2. cbn [bind].
  rewrite (encode_items_same s1 s2); [reflexivity|].
  eapply Forall2_impl_Forall; [|exact A1|exact A2|exact HR'].
  intros p q (Bp & Mp & _) (Bq & Mq & _) [Hk Hx]. split; [|exact Hx].
  apply encode_same_bytestring; auto.
Qed.

Lemma in_model_dict_keys_ok (d : list (value * value)) :
  in_model (VDict d) = true -> dict_keys_ok d = true.
Proof.
  intros Hm. destruct (in_model_dict d Hm) as (_ & _ & Ha).
  cbn [in_model] in Hm. apply andb_true_iff in Hm as [Hm _].
  apply andb_true_iff in Hm as [_ Hn].
  unfold dict_keys_ok. rewrite Hn, andb_true_r.
  apply forallb_forall. intros [k x] Hin. rewrite Forall_forall in Ha.
  destruct (Ha _ Hin) as [Hb _]. cbn [fst] in *.
  destruct k; try discriminate; reflexivity.
Qed.

(** [encode] does not tell apart values that [same_value] identifies. *)
Lemma encode_same_value (v1 : value) :
  forall v2, in_model v1 = true -> in_model v2 = true ->
             same_value v1 v2 -> encode v1 = encode v2.
Proof.
  induction v1 as [|b|z|b|s|l IH|d IH] using value_ind'; intros v2 M1 M2 H;
    try discriminate.
  - inversion H; subst; [reflexivity|discriminate].
  - apply encode_same_bytestring; auto.
  - apply encode_same_bytestring; auto.
  - inversion H as [|a b w Ha Hb|l1 l2 Hl|]; subst; [discriminate|].
    rewrite !encode_list_eq. rewrite (join_map_ext l l2); [reflexivity|].
    cbn [in_model] in M1, M2. rewrite forallb_forall, <- Forall_forall in M1, M2.
    eapply (Forall2_impl_Forall _ _ same_value);
      [|exact (Forall_and IH M1)|exact M2|exact Hl].
    intros x y [Hx Mx] My Hxy. apply Hx; assumption.
  - inversion H as [|a b w Ha Hb| |d1 d1' d2' d2 Hp1 HF Hp2]; subst;
      [discriminate|].
    rewrite (encode_dict_permutation d d1' (in_model_dict_keys_ok d M1) Hp1).
    rewrite (encode_dict_permutation d2 d2' (in_model_dict_keys_ok d2 M2)
               (Permutation_sym Hp2)).
    pose proof (dict_facts_perm _ _ Hp1 (in_model_dict d M1)) as F1.
    pose proof (dict_facts_perm _ _ (Permutation_sym Hp2) (in_model_dict d2 M2))
      as F2.
    apply encode_dict_same; [exact F1 | exact F2 |].
    eapply Forall2_impl_Forall;
      [|exact (Forall_and (Permutation_Forall Hp1 IH) (proj2 (proj2 F1)))
       |exact (proj2 (proj2 F2))|exact HF].
    intros p q [[_ Hx] (_ & _ & Mp)] (_ & _ & Mq) [Hk Hs].
    split; [exact Hk|]. apply Hx; assumption.
Qed.

(** X8.  Two values of the model have the same encoding exactly when they
    are the same value: equal up to the type of byte strings ([bytes] or
    [str]) and the order of the items of dicts. *)
Theorem encode_eq_iff (v1 v2 : value) :
  in_model v1 = true -> in_model v2 = true ->
  (encode v1 = encode v2 <-> same_value v1 v2).
Proof.
  intros M1 M2. split.
  - intros E.
    destruct (roundtrip_in_model v1 M1) as (b1 & v1' & Hb1 & _ & Hs1 & Hr1).
    destruct (roundtrip_in_model v2 M2) as (b2 & v2' & Hb2 & _ & Hs2 & Hr2).
    rewrite E, Hb2 in Hb1. injection Hb1 as <-.
    rewrite <- (List.app_nil_r b2) in Hr2.
    destruct (reads_unique _ _ _ _ _ _ Hr1 Hr2) as [<- _].
    eapply same_value_trans; [exact Hs1|]. apply same_value_sym, Hs2.
  - apply encode_same_value; assumption.
Qed.

Lemma encode_eq_iff_witness :
  encode (VDict [(VStr [97], VInt 1); (VStr [98], VList [])]) =
  encode (VDict [(VBytes (B "b"), VList []); (VBytes (B "a"), VInt 1)]) <->
  same_value (VDict [(VStr [97], VInt 1); (VStr [98], VList [])])
             (VDict [(VBytes (B "b"), VList []); (VBytes (B "a"), VInt 1)]).
Proof.
  apply (encode_eq_iff
           (VDict [(VStr [97], VInt 1); (VStr [98], VList [])])
           (VDict [(VBytes (B "b"), VList []); (VBytes (B "a"), VInt 1)]));
    reflexivity.
Defined.

(** ** Canonical encodings *)

(** The digits [str] writes are normal. *)
Lemma int_bytes_digits_normal (z : Z) :
  exists neg d, digits_normal neg d = true /\
                int_bytes z = sign_bytes neg ++ uint_bytes d.
Proof.
  rewrite int_bytes_eq. destruct z as [|p|p]; cbn [Z.to_int].
  - exists false, (Decimal.D0 Decimal.Nil). split; reflexivity.
  - exists false, (Pos.to_uint p). split; [|reflexivity].
    pose proof (to_uint_leading p) as H.
    destruct (Pos.to_uint p); try contradiction; reflexivity.
  - exists true, (Pos.to_uint p). split; [|reflexivity].
    pose proof (to_uint_leading p) as H.
    destruct (Pos.to_uint p); try contradiction; reflexivity.
Qed.

(** The items of a dict of the model, sorted, ascend in the raw bytes of
    their keys. *)
Lemma py_sorted_raw_below (d sd : list (value * value)) :
  in_model (VDict d) = true -> py_sorted item_lt d = Ok sd ->
  StronglySorted raw_below sd.
Proof.
  intros Hm Hs. destruct (in_model_dict d Hm) as (Hhom & Hnd & Hall).
  pose proof (py_sorted_perm _ _ _ Hs) as Hp.
  assert (Hkn : keys_nodup d).
  { unfold keys_nodup.
    rewrite (map_ext_in (fun x => key_norm (fst x)) fst); [exact Hnd|].
    intros [k x] Hin. rewrite Forall_forall in Hall.
    destruct (Hall _ Hin) as [Hb _]. cbn [fst] in *.
    destruct k; try discriminate; reflexivity. }
  pose proof (py_sorted_strict d sd Hkn Hs) as Hsort.
  apply (StronglySorted_impl_In item_below); [|exact Hsort].
  intros a b Ha Hb Hab.
  apply (Permutation_in _ (Permutation_sym Hp)) in Ha, Hb.
  destruct Hhom as [k Hk]. rewrite Forall_forall in Hk, Hall.
  destruct (Hall _ Ha) as (Ha1 & Ha2 & _). destruct (Hall _ Hb) as (_ & Hb2 & _).
  apply key_ltb_raw; auto.
  rewrite (Hk _ Ha), (Hk _ Hb). reflexivity.
Qed.

Lemma sorted_ascending (ks : list bytes) :
  StronglySorted (fun a b => bytes_ltb a b = true) ks -> ascending ks = true.
Proof.
  induction 1 as [|a r Hs IH Ha]; [reflexivity|].
  cbn [ascending]. destruct r as [|b r']; [reflexivity|].
  rewrite IH, andb_true_r. apply Forall_inv in Ha. exact Ha.
Qed.

Lemma canonical_elts_join (l : list value) (ts : list wire) :
  Forall2 (fun x t => wire_canonical t = true /\ encode x = Ok (render t)) l ts ->
  forallb wire_canonical ts = true /\
  join (map encode l) = Ok (concat (map render ts)).
Proof.
  induction 1 as [|x t l ts [Hwf He] _ [IHwf IHj]]; [split; reflexivity|].
  cbn [forallb map join concat]. rewrite Hwf, IHwf, He, IHj.
  split; reflexivity.
Qed.

Lemma canonical_items_join (sd : list (value * value))
  (items : list (bytes * wire)) :
  Forall2 (fun kv e => (raw_key (fst kv) = fst e /\
                        encode (fst kv) = Ok (bytes_enc (fst e))) /\
                       wire_canonical (snd e) = true /\
                       encode (snd kv) = Ok (render (snd e))) sd items ->
  map (fun kv => raw_key (fst kv)) sd = map fst items /\
  forallb (fun '(_, t) => wire_canonical t) items = true /\
  encode_items sd =
  Ok (concat (map (fun '(w, t) => bytes_enc w ++ render t) items)).
Proof.
  induction 1 as [|[k x] [w t] sd items ([Hr Hk] & Hwf & Hx) _ (IHr & IHwf & IHj)];
    [repeat split; reflexivity|].
  cbn [fst snd] in *. rewrite encode_items_cons.
  cbn [forallb map concat fst]. rewrite Hr, IHr, Hwf, IHwf, Hk, Hx, IHj.
  cbn [bind]. rewrite <- app_assoc. repeat split; reflexivity.
Qed.

(** X9.  What [encode] writes for a value of the model is a canonical
    encoding at every depth: integers in normal form (no leading zero, no
    [-0], no plus sign), byte strings under their exact length, lists,
    and dicts whose keys ascend strictly, so none is repeated. *)
Theorem encode_canonical (v : value) :
  in_model v = true ->
  exists t, wire_canonical t = true /\ encode v = Ok (render t).
Proof.
  induction v as [| | | | |l IH|d IH] using value_ind'; try discriminate.
  - intros _. destruct (int_bytes_digits_normal z) as (neg & dg & Hd & Hb).
    exists (WInt neg dg). cbn [wire_canonical render encode].
    split; [exact Hd|]. rewrite _encode_int_eq, Hb. reflexivity.
  - intros _. exists (WBytes b). split; [reflexivity|]. apply _encode_bytes_eq.
  - intros Hm. destruct (encode_bytestring (VStr s) eq_refl Hm) as (w & _ & He).
    exists (WBytes w). split; [reflexivity | exact He].
  - cbn [in_model]. intros Hl.
    assert (exists ts, Forall2 (fun x t => wire_canonical t = true /\
                                           encode x = Ok (render t)) l ts)
      as [ts Hts].
    { apply Forall_exists_Forall2. rewrite forallb_forall in Hl.
      rewrite Forall_forall in *. intros x Hx. apply IH; auto. }
    destruct (canonical_elts_join l ts Hts) as [Hwf Hj].
    exists (WList ts). split; [exact Hwf|].
    rewrite encode_list_eq, Hj. reflexivity.
  - intros Hm. destruct (in_model_dict d Hm) as (Hhom & _ & Hall).
    destruct (py_sorted_homogeneous d Hhom) as [sd Hs].
    pose proof (py_sorted_perm _ _ _ Hs) as Hp.
    pose proof (py_sorted_raw_below d sd Hm Hs) as Hsort.
    assert (exists items,
              Forall2 (fun kv e => (raw_key (fst kv) = fst e /\
                                    encode (fst kv) = Ok (bytes_enc (fst e))) /\
                                   wire_canonical (snd e) = true /\
                                   encode (snd kv) = Ok (render (snd e)))
                sd items) as [items Hi].
    { apply Forall_exists_Forall2. apply (Permutation_Forall Hp).
      rewrite Forall_forall in *. intros [k x] Hkv.
      destruct (Hall _ Hkv) as (Hbs & Hk & Hx). cbn [fst snd] in *.
      destruct (encode_bytestring k Hbs Hk) as (w & Hw & Hek).
      destruct (proj2 (IH _ Hkv) Hx) as (t & Hwf & Het).
      exists (w, t). cbn [fst snd]. unfold raw_key. rewrite Hw. auto. }
    destruct (canonical_items_join sd items Hi) as (Hr & Hwf & Hj).
    exists (WDict items). split.
    + cbn [wire_canonical]. rewrite Hwf, andb_true_r.
      apply sorted_ascending. rewrite <- Hr.
      clear - Hsort. induction Hsort as [|a r Hs IH Ha]; cbn [map];
        constructor; [exact IH|].
      rewrite Forall_map. exact Ha.
    + rewrite encode_dict_eq, Hs. cbn [bind]. rewrite Hj. reflexivity.
Qed.

Lemma encode_canonical_witness :
  exists t,
    wire_canonical t = true /\
    encode (VDict [(VStr [98], VInt (-3)); (VStr [97], VList [VInt 0])])
    = Ok (render t).
Proof.
  apply (encode_canonical
           (VDict [(VStr [98], VInt (-3)); (VStr [97], VList [VInt 0])])).
  reflexivity.
Defined.

(** [str] writes the normal digits of a number. *)
Lemma int_bytes_normal (neg : bool) (d : Decimal.uint) :
  digits_normal neg d = true ->
  int_bytes (if neg then - Z.of_uint d else Z.of_uint d) =
  sign_bytes neg ++ uint_bytes d.
Proof.
  intros H. rewrite int_bytes_eq.
  change (if neg then - Z.of_uint d else Z.of_uint d)
    with (if neg then Z.of_int (Decimal.Neg d) else Z.of_int (Decimal.Pos d)).
  replace (if neg then Z.of_int (Decimal.Neg d) else Z.of_int (Decimal.Pos d))
    with (Z.of_int (if neg then Decimal.Neg d else Decimal.Pos d))
    by (destruct neg; reflexivity).
  rewrite DecimalZ.to_of.
  destruct d as [|d'| | | | | | | | |]; try discriminate;
    try (destruct neg; reflexivity).
  destruct d'; try discriminate. destruct neg; [discriminate|reflexivity].
Qed.

(** A decoded byte string encodes to the bytes it was read from. *)
Lemma encode_surface (w : bytes) : encode (surface w) = Ok (bytes_enc w).
Proof.
  unfold surface. destruct (bytes_decode w) as [s|] eqn:E; cbn [encode].
  - unfold _encode_str. destruct (str_encode_bytes_decode w s E) as [-> _].
    cbn [bind]. apply _encode_bytes_eq.
  - apply _encode_bytes_eq.
Qed.

Lemma ascending_sorted (ks : list bytes) :
  ascending ks = true ->
  StronglySorted (fun a b => bytes_ltb a b = true) ks.
Proof.
  induction ks as [|a r IH]; [constructor|].
  cbn [ascending]. destruct r as [|b r'].
  - intros _. repeat constructor.
  - intros H. apply andb_true_iff in H as [Hab Hr].
    specialize (IH Hr). constructor; [exact IH|].
    constructor; [exact Hab|].
    apply StronglySorted_inv in IH as [_ Hb].
    eapply Forall_impl; [|exact Hb]. intros c Hc.
    eapply bytes_ltb_trans; eassumption.
Qed.

Lemma sorted_NoDup (ks : list bytes) :
  StronglySorted (fun a b => bytes_ltb a b = true) ks -> NoDup ks.
Proof.
  induction 1 as [|a r Hs IH Ha]; constructor; [|exact IH].
  intros Hin. rewrite Forall_forall in Ha. specialize (Ha _ Hin).
  rewrite bytes_ltb_irrefl in Ha. discriminate.
Qed.

(** Decoded keys of one type compare as their raw bytes do. *)
Lemma key_ltb_surface (a b : bytes) :
  is_text a = is_text b ->
  key_ltb (surface a) (surface b) = bytes_ltb a b.
Proof.
  unfold is_text, surface, key_ltb.
  destruct (bytes_decode a) as [s1|] eqn:E1, (bytes_decode b) as [s2|] eqn:E2;
    try discriminate; intros _; cbn [key_lt]; [|reflexivity].
  destruct (str_encode_bytes_decode a s1 E1) as [H1 F1].
  destruct (str_encode_bytes_decode b s2 E2) as [H2 F2].
  symmetry. apply str_encode_order; auto using scalar_codepoint.
Qed.

(** Without repeated keys the decoded dict holds the items in the order
    of the encoding. *)
Lemma denote_dict_fresh (items : list (bytes * wire)) :
  NoDup (map fst items) ->
  denote (WDict items) =
  VDict (map (fun e => (surface (fst e), denote (snd e))) items).
Proof.
  intros H. cbn [denote]. rewrite wire_items_fold, fold_dict_set_fresh.
  - cbn [app]. rewrite map_map. reflexivity.
  - rewrite map_map. exact H.
  - constructor.
Qed.

Lemma kind_of_surface (w : bytes) :
  kind_of (surface w) = Some (if is_text w then KStr else KBytes).
Proof. unfold surface, is_text. destruct (bytes_decode w); reflexivity. Qed.

Lemma key_norm_surface (w : bytes) : key_norm (surface w) = surface w.
Proof. unfold surface. destruct (bytes_decode w); reflexivity. Qed.

Lemma NoDup_map_surface (ks : list bytes) :
  NoDup ks -> NoDup (map surface ks).
Proof.
  induction 1 as [|k ks Hk _ IH]; cbn [map]; constructor; [|exact IH].
  intros Hin. apply in_map_iff in Hin as [k' [E Hin]].
  apply surface_inj in E. subst. contradiction.
Qed.

Lemma uniform_keys (items : list (bytes * wire)) :
  forallb (fun e => is_text (fst e)) items
  || forallb (fun e => negb (is_text (fst e))) items = true ->
  exists c, Forall (fun e => is_text (fst e) = c) items.
Proof.
  intros H. apply orb_true_iff in H as [H|H]; [exists true | exists false];
    apply Forall_forall; intros e He; rewrite forallb_forall in H;
    specialize (H e He); [exact H|]. apply negb_true_iff, H.
Qed.

Lemma surface_items_sorted (c : bool) (items : list (bytes * wire)) :
  Forall (fun e => is_text (fst e) = c) items ->
  StronglySorted (fun a b => bytes_ltb a b = true) (map fst items) ->
  StronglySorted item_below
    (map (fun e => (surface (fst e), denote (snd e))) items).
Proof.
  intros Hc. induction items as [|e items IH]; cbn [map]; [constructor|].
  intros Hs. apply StronglySorted_inv in Hs as [Hs He].
  apply Forall_cons_iff in Hc as [Hce Hc].
  constructor; [apply IH; assumption|].
  rewrite Forall_map. rewrite Forall_map in He.
  rewrite Forall_forall in *. intros e' He'. unfold item_below. cbn [fst].
  rewrite key_ltb_surface by (rewrite Hce, (Hc _ He'); reflexivity).
  apply He, He'.
Qed.

(** [sorted] returns a sorted list as it is. *)
Lemma py_sorted_sorted (d : list (value * value)) :
  homogeneous d -> keys_nodup d -> StronglySorted item_below d ->
  py_sorted item_lt d = Ok d.
Proof.
  intros Hh Hn Hs. destruct (py_sorted_homogeneous d Hh) as [r Hr].
  rewrite Hr. f_equal. symmetry.
  apply sorted_perm_unique; [exact Hs | | eapply py_sorted_perm, Hr].
  eapply py_sorted_strict; eassumption.
Qed.

(** [encode] writes a canonical encoding back from the value it stands
    for. *)
Lemma encode_denote (t : wire) :
  wire_canonical t = true -> wire_uniform t = true ->
  wire_wf t = true /\ encode (denote t) = Ok (render t).
Proof.
  induction t as [neg d|w|elts IH|items IH] using wire_ind'.
  - cbn [wire_canonical wire_wf denote render encode]. intros H _. split.
    + destruct d; [discriminate|reflexivity..].
    + rewrite _encode_int_eq, int_bytes_normal by exact H. reflexivity.
  - intros _ _. split; [reflexivity|]. apply encode_surface.
  - cbn [wire_canonical wire_uniform]. intros Hc Hu.
    assert (H2 : Forall2 (fun x t => wire_wf t = true /\
                                     encode x = Ok (render t))
                   (map denote elts) elts).
    { rewrite forallb_forall in Hc, Hu. clear - IH Hc Hu.
      induction elts as [|t elts IHl]; cbn [map]; constructor.
      - apply Forall_inv in IH. apply IH; [apply Hc | apply Hu]; left; reflexivity.
      - apply IHl; [eapply Forall_inv_tail, IH | |];
          intros x Hx; [apply Hc | apply Hu]; right; exact Hx. }
    destruct (wire_elts_join _ _ H2) as [Hwf Hj].
    split; [exact Hwf|]. cbn [denote render].
    rewrite encode_list_eq, Hj. reflexivity.
  - cbn [wire_canonical wire_uniform]. intros Hc Hu.
    apply andb_true_iff in Hc as [Hasc Hc]. apply andb_true_iff in Hu as [Hk Hu].
    pose proof (ascending_sorted _ Hasc) as Hs.
    pose proof (sorted_NoDup _ Hs) as Hnd.
    destruct (uniform_keys _ Hk) as [c Hcu].
    rewrite (denote_dict_fresh items Hnd).
    set (d := map (fun e => (surface (fst e), denote (snd e))) items).
    assert (H2 : Forall2 (fun kv e => encode (fst kv) = Ok (bytes_enc (fst e)) /\
                                      wire_wf (snd e) = true /\
                                      encode (snd kv) = Ok (render (snd e)))
                   d items).
    { subst d. rewrite forallb_forall in Hc, Hu. clear - IH Hc Hu.
      induction items as [|[w t] items IHl]; cbn [map]; constructor.
      - cbn [fst snd]. split; [apply encode_surface|].
        apply Forall_inv in IH. apply IH;
          [apply (Hc (w, t)) | apply (Hu (w, t))]; left; reflexivity.
      - apply IHl; [eapply Forall_inv_tail, IH | |];
          intros x Hx; [apply Hc | apply Hu]; right; exact Hx. }
    destruct (wire_items_join _ _ H2) as [Hwf Hj].
    split; [exact Hwf|]. cbn [render].
    rewrite encode_dict_eq, py_sorted_sorted; cbn [bind].
    + rewrite Hj. reflexivity.
    + exists (if c then KStr else KBytes). subst d. rewrite Forall_map.
      eapply Forall_impl; [|exact Hcu]. intros e He. cbn [fst].
      rewrite kind_of_surface, He. reflexivity.
    + unfold keys_nodup. subst d. rewrite map_map. cbn [fst].
      rewrite (map_ext _ (fun e => surface (fst e)))
        by (intros e; apply key_norm_surface).
      rewrite <- (map_map fst surface). apply NoDup_map_surface, Hnd.
    + eapply surface_items_sorted; eassumption.
Qed.

(** X10.  Decode, then encode: for a canonical encoding (integers in normal
    form, keys of every dict in strictly ascending order) in which the
    keys of each dict are all valid UTF-8 or all invalid UTF-8, [decode]
    returns a value and [encode] of that value returns the same bytes. *)
Theorem decode_encode_canonical (t : wire) :
  wire_canonical t = true -> wire_uniform t = true ->
  exists v,
    (forall fuel, (wire_weight t <= fuel)%nat ->
       decode fuel (Bytes (render t)) = Some (Ok v)) /\
    encode v = Ok (render t).
Proof.
  intros Hc Hu. destruct (encode_denote t Hc Hu) as [Hwf He].
  exists (denote t). split; [|exact He].
  intros fuel Hf. destruct (wire_reads t Hwf) as [_ Hr].
  eapply reads_decode; eassumption.
Qed.

Lemma decode_encode_canonical_witness :
  exists v,
    (forall fuel,
       (wire_weight (WDict [(B "a", WList [WInt false (Decimal.D0 Decimal.Nil)]);
                            (B "b", WInt true (Decimal.D3 Decimal.Nil))])
        <= fuel)%nat ->
       decode fuel (Bytes (B "d1:ali0ee1:bi-3ee")) = Some (Ok v)) /\
    encode v = Ok (B "d1:ali0ee1:bi-3ee").
Proof.
  apply (decode_encode_canonical
           (WDict [(B "a", WList [WInt false (Decimal.D0 Decimal.Nil)]);
                   (B "b", WInt true (Decimal.D3 Decimal.Nil))]));
    reflexivity.
Defined.

Lemma key_eqb_surface_r (k : value) (w : bytes) :
  key_eqb k (surface w) = true -> k = surface w.
Proof.
  unfold surface. destruct (bytes_decode w) as [s|], k; cbn [key_eqb];
    try discriminate.
  - destruct (list_eq_dec Z.eq_dec s0 s); [congruence|discriminate].
  - intros H. apply bytes_eqb_eq in H. congruence.
Qed.

Lemma dict_set_keeps (r : list (value * value)) (k v k' : value) :
  In k' (map fst r) -> In k' (map fst (dict_set r k v)).
Proof.
  induction r as [|[k0 x0] r IH]; cbn [dict_set map fst]; [contradiction|].
  destruct (key_eqb k0 k); cbn [map fst]; intros [H|H];
    [left; exact H | right; exact H | left; exact H | right; apply IH, H].
Qed.

Lemma dict_set_has (r : list (value * value)) (w : bytes) (v : value) :
  In (surface w) (map fst (dict_set r (surface w) v)).
Proof.
  induction r as [|[k0 x0] r IH]; cbn [dict_set map fst];
    [left; reflexivity|].
  destruct (key_eqb k0 (surface w)) eqn:E; cbn [map fst];
    [|right; exact IH].
  left. apply key_eqb_surface_r, E.
Qed.

(** Every key of the encoding is a key of the decoded dict. *)
Lemma fold_dict_set_has (items : list (bytes * wire)) (w : bytes)
  (r : list (value * value)) :
  In w (map fst items) \/ In (surface w) (map fst r) ->
  In (surface w)
    (map fst (fold_left (fun r '(w, t) => dict_set r (surface w) (denote t))
                items r)).
Proof.
  revert r. induction items as [|[w0 t0] items IH]; intros r; cbn [fold_left map fst].
  - intros [[]|H]. exact H.
  - intros [[<-|H]|H]; apply IH; auto using dict_set_has, dict_set_keeps.
Qed.

(** A dict with a [str] key and a [bytes] key cannot be sorted. *)
Lemma mixed_keys_not_comparable (d : list (value * value)) (s : list Z)
  (b : bytes) :
  In (VStr s) (map fst d) -> In (VBytes b) (map fst d) ->
  keys_comparable d = false.
Proof.
  intros Hs Hb. destruct (keys_comparable d) eqn:E; [|reflexivity].
  apply keys_comparable_iff in E as [E|[k Hk]].
  - destruct d as [|x [|y d]]; [contradiction| |cbn in E; lia].
    cbn [map] in Hs, Hb. destruct Hs as [Hs|[]], Hb as [Hb|[]]. congruence.
  - rewrite Forall_forall in Hk.
    apply in_map_iff in Hs as [x [Ex Hx]]. apply in_map_iff in Hb as [y [Ey Hy]].
    pose proof (Hk _ Hx) as H1. pose proof (Hk _ Hy) as H2.
    rewrite Ex in H1. rewrite Ey in H2. cbn in H1, H2. congruence.
Qed.

(** X11.  [decode] can return a value that [encode] refuses: for a
    well-formed encoding of a dict in which one key is valid UTF-8 and
    another is not, [decode] returns a dict with a [str] key and a
    [bytes] key, and [encode] of that dict raises [TypeError]. *)
Theorem decode_mixed_keys_reencode (items : list (bytes * wire))
  (w1 w2 : bytes) :
  wire_wf (WDict items) = true ->
  In w1 (map fst items) -> is_text w1 = true ->
  In w2 (map fst items) -> is_text w2 = false ->
  exists v,
    (forall fuel, (wire_weight (WDict items) <= fuel)%nat ->
       decode fuel (Bytes (render (WDict items))) = Some (Ok v)) /\
    encode v = Raise TypeError.
Proof.
  intros Hwf H1 T1 H2 T2. exists (denote (WDict items)). split.
  - intros fuel Hf. destruct (wire_reads _ Hwf) as [_ Hr].
    eapply reads_decode; eassumption.
  - cbn [denote].
    set (d := fold_left _ items []).
    assert (K1 : In (surface w1) (map fst d)) by (apply fold_dict_set_has; auto).
    assert (K2 : In (surface w2) (map fst d)) by (apply fold_dict_set_has; auto).
    unfold surface, is_text in *.
    destruct (bytes_decode w1) as [s|]; [|discriminate].
    destruct (bytes_decode w2); [discriminate|].
    pose proof (mixed_keys_not_comparable d s w2 K1 K2) as Hc.
    rewrite encode_dict_eq.
    destruct (py_sorted item_lt d) as [sd|e] eqn:Es; cbn [bind].
    + assert (keys_comparable d = true) by (apply py_sorted_ok_iff; eauto).
      congruence.
    + rewrite (py_sorted_raise _ _ Es). reflexivity.
Qed.

Lemma decode_mixed_keys_reencode_witness :
  exists v,
    (forall fuel,
       (wire_weight (WDict [(B "a", WInt false (Decimal.D1 Decimal.Nil));
                            ([xff], WInt false (Decimal.D2 Decimal.Nil))])
        <= fuel)%nat ->
       decode fuel (Bytes (B "d1:ai1e1:" ++ [xff] ++ B "i2ee")) = Some (Ok v)) /\
    encode v = Raise TypeError.
Proof.
  apply (decode_mixed_keys_reencode
           [(B "a", WInt false (Decimal.D1 Decimal.Nil));
            ([xff], WInt false (Decimal.D2 Decimal.Nil))] (B "a") [xff]);
    [reflexivity | left; reflexivity | reflexivity
     | right; left; reflexivity | reflexivity].
Defined.

(** ** Booleans *)

Lemma key_lt_int_of_bools (a b : value) :
  key_lt (int_of_bools a) (int_of_bools b) = key_lt a b.
Proof. destruct a, b; reflexivity. Qed.

Lemma encode_items_int_of_bools (sd : list (value * value)) :
  Forall (fun kv => encode (int_of_bools (fst kv)) = encode (fst kv) /\
                    encode (int_of_bools (snd kv)) = encode (snd kv)) sd ->
  encode_items (map (fun '(k, x) => (int_of_bools k, int_of_bools x)) sd) =
  encode_items sd.
Proof.
  induction 1 as [|[k x] sd [Hk Hx] _ IH]; [reflexivity|].
  cbn [map fst snd] in *. rewrite !encode_items_cons, Hk, Hx, IH. reflexivity.
Qed.

(** [encode] does not tell a bool from the integer it equals, at any
    depth. *)
Lemma encode_int_of_bools (v : value) : encode (int_of_bools v) = encode v.
Proof.
  induction v as [|b|z|b|s|l IH|d IH] using value_ind'; try reflexivity.
  - cbn [int_of_bools]. rewrite !encode_list_eq, map_map.
    rewrite (map_ext_in _ encode); [reflexivity|].
    rewrite Forall_forall in IH. exact IH.
  - cbn [int_of_bools]. rewrite !encode_dict_eq.
    rewrite (py_sorted_map (@item_lt value) (@item_lt value)
               (fun '(k, x) => (int_of_bools k, int_of_bools x))).
    2:{ intros [k1 x1] [k2 x2]. apply key_lt_int_of_bools. }
    destruct (py_sorted item_lt d) as [sd|e] eqn:Es; cbn [res_map bind];
      [|reflexivity].
    rewrite encode_items_int_of_bools; [reflexivity|].
    eapply Permutation_Forall; [eapply py_sorted_perm, Es | exact IH].
Qed.

(** X12.  Booleans are written as the integers 1 and 0: the encoding of a
    value is that of the value with every bool replaced by its integer,
    and when that value is in the model, decoding the encoding returns
    it: a bool comes back as an integer. *)
Theorem encode_bool_as_int :
  (forall v, encode v = encode (int_of_bools v)) /\
  (forall v, in_model (int_of_bools v) = true ->
     exists b v' n,
       encode v = Ok b /\
       (forall fuel, (n <= fuel)%nat -> decode fuel (Bytes b) = Some (Ok v')) /\
       same_value (int_of_bools v) v').
Proof.
  split.
  - intros v. symmetry. apply encode_int_of_bools.
  - intros v Hm.
    destruct (roundtrip_in_model _ Hm) as (b & v' & Hb & _ & Hs & Hr).
    exists b, v', (weight (int_of_bools v)).
    rewrite <- encode_int_of_bools. split; [exact Hb|]. split; [|exact Hs].
    intros fuel Hf. eapply reads_decode; eassumption.
Qed.

Lemma encode_bool_as_int_witness :
  encode (VList [VBool true; VBool false]) = encode (VList [VInt 1; VInt 0]) /\
  exists b v' n,
    encode (VList [VBool true; VBool false]) = Ok b /\
    (forall fuel, (n <= fuel)%nat -> decode fuel (Bytes b) = Some (Ok v')) /\
    same_value (VList [VInt 1; VInt 0]) v'.
Proof.
  split.
  - apply (proj1 encode_bool_as_int (VList [VBool true; VBool false])).
  - apply (proj2 encode_bool_as_int (VList [VBool true; VBool false])).
    reflexivity.
Defined.

(** ** Unknown type bytes *)

(** A byte that is no type tag makes [_decode] raise. *)
Lemma _decode_unknown (pre : bytes) (c : byte) (post : bytes) (fuel : nat) :
  c <> "i"%byte -> c <> "l"%byte -> c <> "d"%byte -> is_digit c = false ->
  _decode (S fuel) (pre ++ c :: post) (len pre)
  = Some (Raise BencodeDecodeError).
Proof.
  intros Hi Hl Hd Hg. rewrite _decode_S. cbv zeta. rewrite py_slice_byte.
  assert (E : forall t, c <> t -> bytes_eqb [c] [t] = false).
  { intros t Ht. apply bytes_eqb_neq. congruence. }
  change INTEGER with ["i"%byte]. change DICT with ["d"%byte].
  change LIST with ["l"%byte].
  rewrite !E by assumption. cbn [isdigit forallb]. rewrite Hg. reflexivity.
Qed.

(** X13.  Unknown type bytes: [decode] raises [BencodeDecodeError] on the
    empty buffer, on a buffer that starts with a byte other than [i],
    [l], [d] and the digits, and on a list in which such a byte (other
    than [e]) follows well-formed elements. *)
Theorem decode_unknown_type :
  (forall fuel, decode (S fuel) (Bytes []) = Some (Raise BencodeDecodeError)) /\
  (forall (c : byte) (rest : bytes) (fuel : nat),
      c <> "i"%byte -> c <> "l"%byte -> c <> "d"%byte -> is_digit c = false ->
      decode (S fuel) (Bytes (c :: rest)) = Some (Raise BencodeDecodeError)) /\
  (forall (elts : list wire) (c : byte) (rest : bytes) (fuel : nat),
      forallb wire_wf elts = true ->
      c <> "i"%byte -> c <> "l"%byte -> c <> "d"%byte -> is_digit c = false ->
      c <> "e"%byte ->
      (wire_weight (WList elts) + 1 <= fuel)%nat ->
      decode fuel (Bytes (LIST ++ concat (map render elts) ++ c :: rest))
      = Some (Raise BencodeDecodeError)).
Proof.
  split; [|split].
  - intros fuel. reflexivity.
  - intros c rest fuel Hi Hl Hd Hg. rewrite decode_bytes_eq.
    pose proof (_decode_unknown [] c rest fuel Hi Hl Hd Hg) as H.
    cbn [app] in H. change (len []) with 0 in H. rewrite H. reflexivity.
  - intros elts c rest fuel Hwf Hi Hl Hd Hg He Hf. rewrite decode_bytes_eq.
    destruct fuel as [|fuel]; [lia|]. rewrite _decode_S. cbv zeta.
    change (py_slice (LIST ++ concat (map render elts) ++ c :: rest) 0 (0 + 1))
      with (py_slice ([] ++ "l"%byte :: concat (map render elts) ++ c :: rest)
              (len (@nil byte)) (len (@nil byte) + 1)).
    rewrite py_slice_byte.
    change (bytes_eqb ["l"%byte] INTEGER) with false.
    change (isdigit ["l"%byte]) with false.
    change (bytes_eqb ["l"%byte] DICT) with false.
    change (bytes_eqb ["l"%byte] LIST) with true. cbv iota.
    unfold _decode_list. cbn [wire_weight] in Hf.
    set (n := list_sum (map wire_weight elts)) in *.
    pose proof (_decode_list_loop_progress n _ (wire_elts_reads elts Hwf)
                  LIST (c :: rest) [] (fuel - length elts)) as Hloop.
    rewrite length_map, !map_map in Hloop. cbn [fst snd app] in Hloop.
    change (map (fun x : wire => render x) elts) with (map render elts)
      in Hloop.
    replace (length elts + (fuel - length elts))%nat with fuel in Hloop
      by lia.
    change (0 + 1) with (len LIST).
    rewrite Hloop by lia.
    destruct (fuel - length elts)%nat as [|[|f]] eqn:Ef; [lia|lia|].
    rewrite _decode_list_loop_S.
    replace (LIST ++ concat (map render elts) ++ c :: rest)
      with ((LIST ++ concat (map render elts)) ++ c :: rest)
      by (rewrite <- app_assoc; reflexivity).
    replace (len LIST + len (concat (map render elts)))
      with (len (LIST ++ concat (map render elts))) by lens.
    rewrite py_slice_byte.
    replace (bytes_eqb [c] END) with false
      by (symmetry; apply bytes_eqb_neq; change END with ["e"%byte]; congruence).
    cbn [negb].
    rewrite (_decode_unknown _ c rest f Hi Hl Hd Hg). reflexivity.
Qed.

Lemma decode_unknown_type_witness :
  decode 1 (Bytes (B "x")) = Some (Raise BencodeDecodeError) /\
  decode 10 (Bytes (B "li1e4:spam?e")) = Some (Raise BencodeDecodeError).
Proof.
  split.
  - apply (proj1 (proj2 decode_unknown_type) "x"%byte [] 0%nat);
      (discriminate || reflexivity).
  - apply (proj2 (proj2 decode_unknown_type)
             [WInt false (Decimal.D1 Decimal.Nil); WBytes (B "spam")]
             "?"%byte (B "e") 10%nat);
      try discriminate; try reflexivity. cbn. lia.
Defined.

(** ** The length prefix of a key *)

Lemma no_colon_literal (ws1 sign : bytes) (d : Decimal.uint) (ws2 : bytes) :
  forallb is_space ws1 = true -> forallb is_space ws2 = true ->
  sign = [] \/ sign = B "+" \/ sign = B "-" ->
  ~ In ":"%byte (ws1 ++ sign ++ uint_bytes d ++ ws2).
Proof.
  intros H1 H2 Hs Hin. rewrite forallb_forall in H1, H2.
  apply in_app_or in Hin as [Hin|Hin]; [apply H1 in Hin; discriminate|].
  apply in_app_or in Hin as [Hin|Hin].
  { destruct Hs as [-> | [-> | ->]]; cbn in Hin; intuition discriminate. }
  apply in_app_or in Hin as [Hin|Hin]; [|apply H2 in Hin; discriminate].
  apply uint_bytes_In in Hin. discriminate.
Qed.

(** [_decode_str] on a length written with white space and a plus sign,
    wherever it stands in the buffer. *)
Lemma _decode_str_literal (pre ws1 sign : bytes) (d : Decimal.uint)
  (ws2 w post : bytes) :
  forallb is_space ws1 = true -> forallb is_space ws2 = true ->
  uint_is_nil d = false -> sign = [] \/ sign = B "+" ->
  Z.of_uint d = len w ->
  _decode_str (pre ++ ((ws1 ++ sign ++ uint_bytes d ++ ws2) ++ COLON ++ w)
               ++ post) (len pre) =
  Ok (surface w,
      len pre + len ((ws1 ++ sign ++ uint_bytes d ++ ws2) ++ COLON ++ w)).
Proof.
  intros H1 H2 Hd Hs Hn. unfold _decode_str. change COLON with [":"%byte].
  set (lit := ws1 ++ sign ++ uint_bytes d ++ ws2).
  assert (Hc : ~ In ":"%byte lit).
  { apply no_colon_literal; auto. destruct Hs; auto. }
  rewrite <- !app_assoc. cbn [app].
  rewrite py_index_segment by exact Hc. cbn [bind].
  rewrite py_slice_segment. subst lit.
  rewrite py_int_literal;
    [| assumption | assumption | destruct d; discriminate || (intros _; discriminate)
     | destruct Hs; auto].
  replace (bytes_eqb sign (B "-")) with false by (destruct Hs; subst; reflexivity).
  cbn [bind]. cbv zeta. rewrite Hn.
  set (lit := ws1 ++ sign ++ uint_bytes d ++ ws2).
  replace (pre ++ lit ++ ":"%byte :: w ++ post)
    with ((pre ++ lit ++ [":"%byte]) ++ w ++ post)
    by (rewrite <- !app_assoc; reflexivity).
  replace (len pre + len lit + 1) with (len (pre ++ lit ++ [":"%byte])) by lens.
  rewrite py_slice_segment. unfold surface. do 2 f_equal. lens.
Qed.

Lemma literal_opens (ws1 sign : bytes) (d : Decimal.uint) (ws2 rest : bytes) :
  forallb is_space ws1 = true -> uint_is_nil d = false ->
  sign = [] \/ sign = B "+" ->
  opens ((ws1 ++ sign ++ uint_bytes d ++ ws2) ++ rest).
Proof.
  intros H1 Hd Hs. destruct ws1 as [|c ws1].
  - destruct Hs as [-> | ->]; [|discriminate]. cbn [app].
    assert (Hd' : d <> Decimal.Nil) by (destruct d; discriminate).
    destruct (uint_bytes_nonnil d Hd') as (k & d' & Hk & -> & _).
    cbn [app opens]. intros E. destruct (is_digit_octet k Hk) as [Hg _].
    rewrite E in Hg. discriminate.
  - cbn [app opens]. cbn [forallb] in H1. apply andb_true_iff in H1 as [H1 _].
    intros ->. discriminate.
Qed.

(** X15.  The length prefix of a key: [_decode_dict] reads a key with
    [_decode_str] whatever its first byte is, so the length of a key may
    be written after white space and a plus sign, and the dict decodes;
    the same byte string on its own starts with a byte that is no type
    tag, and [decode] raises [BencodeDecodeError]. *)
Theorem decode_dict_key_prefix (ws1 sign : bytes) (d : Decimal.uint)
  (ws2 w : bytes) (t : wire) (fuel : nat) :
  forallb is_space ws1 = true -> forallb is_space ws2 = true ->
  uint_is_nil d = false -> sign = [] \/ sign = B "+" ->
  Z.of_uint d = len w -> wire_wf t = true ->
  (wire_weight t + 2 <= fuel)%nat ->
  decode fuel
    (Bytes (DICT ++ ((ws1 ++ sign ++ uint_bytes d ++ ws2) ++ COLON ++ w)
            ++ render t ++ END))
  = Some (Ok (VDict [(surface w, denote t)])) /\
  (ws1 ++ sign <> [] ->
   decode fuel (Bytes ((ws1 ++ sign ++ uint_bytes d ++ ws2) ++ COLON ++ w))
   = Some (Raise BencodeDecodeError)).
Proof.
  intros H1 H2 Hd Hs Hn Hwf Hf. split.
  - set (key := (ws1 ++ sign ++ uint_bytes d ++ ws2) ++ COLON ++ w).
    rewrite decode_bytes_eq.
    destruct fuel as [|[|f]]; [lia|lia|]. rewrite _decode_S. cbv zeta.
    change (py_slice (DICT ++ key ++ render t ++ END) 0 (0 + 1))
      with (py_slice ([] ++ "d"%byte :: key ++ render t ++ END)
              (len (@nil byte)) (len (@nil byte) + 1)).
    rewrite py_slice_byte.
    change (bytes_eqb ["d"%byte] INTEGER) with false.
    change (isdigit ["d"%byte]) with false.
    change (bytes_eqb ["d"%byte] DICT) with true. cbv iota.
    unfold _decode_dict. rewrite _decode_dict_loop_S.
    change (0 + 1) with (len DICT).
    replace (DICT ++ key ++ render t ++ END)
      with (DICT ++ key ++ (render t ++ END)) by reflexivity.
    rewrite opens_not_end
      by (unfold key; apply literal_opens; assumption).
    subst key. rewrite _decode_str_literal by assumption.
    set (key := (ws1 ++ sign ++ uint_bytes d ++ ws2) ++ COLON ++ w).
    destruct (wire_reads t Hwf) as [_ Hr].
    replace (DICT ++ key ++ render t ++ END)
      with ((DICT ++ key) ++ render t ++ END)
      by (rewrite <- app_assoc; reflexivity).
    replace (len DICT + len key) with (len (DICT ++ key)) by lens.
    rewrite Hr by lia.
    assert (Hw : (1 <= wire_weight t)%nat) by (destruct t; cbn; lia).
    destruct f as [|f]; [lia|].
    rewrite _decode_dict_loop_S.
    replace ((DICT ++ key) ++ render t ++ END)
      with (((DICT ++ key) ++ render t) ++ END ++ [])
      by (rewrite <- !app_assoc; reflexivity).
    replace (len (DICT ++ key) + len (render t))
      with (len ((DICT ++ key) ++ render t)) by lens.
    rewrite at_end. cbn [dict_set].
    replace (len (((DICT ++ key) ++ render t) ++ END ++ []) =?
             len ((DICT ++ key) ++ render t) + 1) with true; [reflexivity|].
    symmetry. apply Z.eqb_eq. change END with ["e"%byte]. lens.
  - intros Hne. rewrite decode_bytes_eq.
    destruct fuel as [|f]; [lia|].
    assert (Hc : exists c r, ws1 ++ sign = c :: r /\
                             (is_space c = true \/ c = "+"%byte)).
    { destruct ws1 as [|c ws1].
      - destruct Hs as [-> | ->]; [contradiction|].
        exists "+"%byte, []. auto.
      - exists c, (ws1 ++ sign). split; [reflexivity|]. left.
        cbn [forallb] in H1. apply andb_true_iff in H1. apply H1. }
    destruct Hc as (c & r & Ec & Hc).
    replace ((ws1 ++ sign ++ uint_bytes d ++ ws2) ++ COLON ++ w)
      with (c :: r ++ (uint_bytes d ++ ws2) ++ COLON ++ w).
    2:{ rewrite (app_assoc ws1 sign (uint_bytes d ++ ws2)), Ec. cbn [app].
        rewrite <- !app_assoc. reflexivity. }
    assert (Hnt : c <> "i"%byte /\ c <> "l"%byte /\ c <> "d"%byte /\
                  is_digit c = false).
    { destruct Hc as [Hc | ->]; [|repeat split; discriminate].
      repeat split; try (intros ->; discriminate).
      destruct (is_digit c) eqn:Hg; [|reflexivity].
      apply is_space_digit in Hg. congruence. }
    destruct Hnt as (Hi & Hl & Hk & Hg).
    pose proof (_decode_unknown [] c
                  (r ++ (uint_bytes d ++ ws2) ++ COLON ++ w) f Hi Hl Hk Hg) as H.
    cbn [app] in H. change (len []) with 0 in H. rewrite H. reflexivity.
Qed.

Lemma decode_dict_key_prefix_witness :
  decode 10 (Bytes (B "d +03 :fooi42ee"))
  = Some (Ok (VDict [(VStr [102; 111; 111], VInt 42)])) /\
  (B " " ++ B "+" <> [] ->
   decode 10 (Bytes (B " +03 :foo")) = Some (Raise BencodeDecodeError)).
Proof.
  apply (decode_dict_key_prefix (B " ") (B "+")
           (Decimal.D0 (Decimal.D3 Decimal.Nil)) (B " ") (B "foo")
           (WInt false (Decimal.D4 (Decimal.D2 Decimal.Nil))) 10);
    try reflexivity; [right; reflexivity | cbn; lia].
Defined.

(** ** The encodings of the wire format *)

(** X16.  [decode] reads every encoding of the wire format, canonical or
    not, and returns the value it stands for: integers by their decimal
    digits, byte strings as [str] when they are valid UTF-8 and as
    [bytes] otherwise, the elements of a list in their order, and the
    items of a dict in the order of their first occurrence, each key
    with the value of its last occurrence. *)
Theorem decode_wire (t : wire) (fuel : nat) :
  wire_wf t = true -> (wire_weight t <= fuel)%nat ->
  decode fuel (Bytes (render t)) = Some (Ok (denote t)).
Proof.
  intros Hwf Hf. destruct (wire_reads t Hwf) as [_ Hr].
  eapply reads_decode; eassumption.
Qed.

Lemma decode_wire_witness :
  decode 20 (Bytes (B "li-07ed1:b0:1:ai1e1:bleee"))
  = Some (Ok (VList [VInt (-7);
                     VDict [(VStr [98], VList []); (VStr [97], VInt 1)]])).
Proof.
  apply (decode_wire
           (WList [WInt true (Decimal.D0 (Decimal.D7 Decimal.Nil));
                   WDict [(B "b", WBytes []);
                          (B "a", WInt false (Decimal.D1 Decimal.Nil));
                          (B "b", WList [])]]) 20);
    [reflexivity | cbn; lia].
Defined.

(** ** The tests of the module *)

Example test_encode_integer :
  _encode_int 0 = Ok (B "i0e") /\ _encode_int 1 = Ok (B "i1e") /\
  _encode_int 10 = Ok (B "i10e") /\ _encode_int 42 = Ok (B "i42e") /\
  _encode_int (-42) = Ok (B "i-42e").
Proof. repeat split. Qed.

Example test_encode_bool :
  _encode_bool true = Ok (B "i1e") /\ _encode_bool false = Ok (B "i0e").
Proof. repeat split. Qed.

Example test_encode_bytes :
  _encode_bytes (B "spam") = Ok (B "4:spam") /\
  _encode_bytes (B "parrot sketch") = Ok (B "13:parrot sketch").
Proof. repeat split. Qed.

Example test_encode_list :
  _encode_list encode [VBytes (B "parrot sketch"); VInt 42]
  = Ok (B "l13:parrot sketchi42ee").
Proof. reflexivity. Qed.

Example test_encode_dict :
  _encode_dict encode [(VBytes (B "foo"), VInt 42);
                       (VBytes (B "bar"), VBytes (B "spam"))]
  = Ok (B "d3:bar4:spam3:fooi42ee") /\
  _encode_dict encode
    [(VStr (map ord (B "foo")), VInt 42);
     (VStr (map ord (B "bar")),
      VDict [(VStr (map ord (B "sketch")), VStr (map ord (B "parrot")));
             (VStr (map ord (B "foobar")), VInt 23)])]
  = Ok (B "d3:bard6:foobari23e6:sketch6:parrote3:fooi42ee").
Proof. split; reflexivity. Qed.

Example test_encode_str :
  _encode_str (map ord (B "parrot sketch")) = Ok (B "13:parrot sketch").
Proof. reflexivity. Qed.

Example test_decode_str :
  decode 1 (Bytes (B "13:parrot sketch"))
  = Some (Ok (VStr (map ord (B "parrot sketch")))).
Proof. reflexivity. Qed.

Example test_decode_dict :
  decode 10 (Bytes (B "d3:bar4:spam3:fooi42ee"))
  = Some (Ok (VDict [(VStr (map ord (B "bar")), VStr (map ord (B "spam")));
                     (VStr (map ord (B "foo")), VInt 42)])) /\
  decode 10 (Bytes (B "d3:bard6:foobari23e6:sketch6:parrote3:fooi42ee"))
  = Some (Ok (VDict
                [(VStr (map ord (B "bar")),
                  VDict [(VStr (map ord (B "foobar")), VInt 23);
                         (VStr (map ord (B "sketch")),
                          VStr (map ord (B "parrot")))]);
                 (VStr (map ord (B "foo")), VInt 42)])).
Proof. split; reflexivity. Qed.
